(** * WordArena: a shallow embedding of the game server core

    The development follows the server sources:
    - [WordService]  (dictionary, colour evaluation),
    - [BotService]   (pattern strings, constraint filter, guess selection),
    - [MatchmakingService.createBotOpponent],
    - the Redis helpers of [config/redis.js] (keys with an expiry),
    - [GameService]  (guess pipeline, win arbitration, forfeit),
    - [EloService]   (rating arithmetic),
    - the socket handlers that fan results out to the players.

    Conventions of the model:
    - a JavaScript string is a [string] of 8-bit code units; on a text of
      ASCII characters ([Js.ascii_only]) these are its UTF-16 code units, and
      [toUpperCase] and [trim] are the functions of JavaScript; a statement
      about text that a client submits carries that hypothesis;
    - a property read [obj[key]] on an object parsed from JSON finds the
      object's own entries first and then the properties every object
      inherits ([Js.inherited]);
    - an array is a list, read with [!!] and written with [<[i:=x]>]; a read
      out of range ([undefined]) is [None];
    - instants are integers, in milliseconds; every store operation happens
      at an instant, and a key is gone once its expiry instant is reached;
    - an [async] function is cut at its [await]s into round trips to the
      store, so that several calls can be interleaved;
    - the values of [Math.random()] are read from a sequence of numbers of
      [[0, 1)];
    - numbers of the rating arithmetic are real numbers, ratings integers;
      a statement about all ratings bounds them by the range of the [elo]
      column of schema.sql ([INTEGER_MAX]), far inside the range in which
      the doubles of JavaScript hold every integer;
    - the two dictionaries are data files, they enter as a [Dict]. *)

From Stdlib Require Import ZArith QArith Qround Reals Lra Lia String Ascii List.
From stdpp Require Import gmap strings list fin_maps.

Open Scope string_scope.
Open Scope nat_scope.

(* ===================================================================== *)
(** * JavaScript string primitives used by the services                   *)
(* ===================================================================== *)

Module Js.

(** [s.split('')]: the array of the code units of [s]. *)
Definition split (s : string) : list ascii := list_ascii_of_string s.

(** [arr.join('')]. *)
Definition join (l : list ascii) : string := string_of_list_ascii l.

Definition is_lower (c : ascii) : bool :=
  let n := nat_of_ascii c in (97 <=? n) && (n <=? 122).

Definition is_upper (c : ascii) : bool :=
  let n := nat_of_ascii c in (65 <=? n) && (n <=? 90).

(** A text of ASCII characters only: every code unit is below 128.  On
    such a text [toUpperCase], [trim] and [length] below are those of
    JavaScript (outside it [toUpperCase] also maps other letters, [trim]
    also strips other white space, and a character takes several code
    units here). *)
Definition ascii_only (s : string) : Prop :=
  Forall (fun c => nat_of_ascii c < 128) (split s).

(** [String.prototype.toUpperCase] on the ASCII range: [a]..[z] are shifted
    to [A]..[Z], every other code unit is kept. *)
Definition upper_char (c : ascii) : ascii :=
  if is_lower c then ascii_of_nat (nat_of_ascii c - 32) else c.

Definition toUpperCase (s : string) : string :=
  join (map upper_char (split s)).

(** White space removed by [String.prototype.trim] (ASCII range):
    TAB, LF, VT, FF, CR and SPACE. *)
Definition is_space (c : ascii) : bool :=
  let n := nat_of_ascii c in ((9 <=? n) && (n <=? 13)) || (n =? 32).

Fixpoint trim_start (l : list ascii) : list ascii :=
  match l with
  | c :: l' => if is_space c then trim_start l' else l
  | [] => []
  end.

Definition trim (s : string) : string :=
  join (rev (trim_start (rev (trim_start (split s))))).

(** [s.length]. *)
Definition length (s : string) : nat := String.length s.

(** [Math.floor(Math.random() * n)] for a draw [r] of [Math.random()]. *)
Definition random_index (r : Q) (n : nat) : nat :=
  Z.to_nat (Qfloor (r * inject_Z (Z.of_nat n))).

(** ** Properties of objects

    The names of the properties that every object inherits from
    [Object.prototype].  Read on an object that has no own entry of that
    name, each gives a function (or, for [__proto__], the prototype
    itself): a value that is truthy and has no property of the
    application. *)
Definition inherited : list string :=
  ["constructor"; "__defineGetter__"; "__defineSetter__"; "hasOwnProperty";
   "__lookupGetter__"; "__lookupSetter__"; "isPrototypeOf";
   "propertyIsEnumerable"; "toString"; "valueOf"; "__proto__"; "toLocaleString"].

(** ** Enumeration order of object keys

    [Object.keys] lists the array indices first, in ascending numeric order,
    then the other keys in insertion order. *)





End Js.

(* ===================================================================== *)
(** * WordService                                                         *)
(* ===================================================================== *)

Inductive Color := green | yellow | grey.

#[global] Instance Color_eq_dec : EqDecision Color.
Proof. solve_decision. Defined.

(** One cell of an evaluation, [{ letter, color }]; [letter] is [None] when
    the guess has no code unit at that index ([undefined]). *)
Record Cell := mkCell { letter : option ascii; color : Color }.

#[global] Instance Cell_eq_dec : EqDecision Cell.
Proof. solve_decision. Defined.

Module WordService.

(** The two loaded dictionaries, after [initialize]: [answers] is the
    upper-cased content of answers.json, [validGuesses] the set built from
    the upper-cased valid_guesses.json followed by the answers. *)
Record Dict := mkDict { answers : list string; validGuesses : list string }.

(** [new Set(items)], as the array of its elements in insertion order. *)
Definition setOf (items : list string) : list string :=
  foldl (fun acc x => if bool_decide (x ∈ acc) then acc else (acc ++ [x])%list)
        [] items.

Definition initialize (answersJson guessesJson : list string) : Dict :=
  let answers := map Js.toUpperCase answersJson in
  let guesses := map Js.toUpperCase guessesJson in
  {| answers := answers; validGuesses := setOf (guesses ++ answers) |}.

Definition isValidGuess (d : Dict) (word : string) : bool :=
  bool_decide (Js.toUpperCase word ∈ validGuesses d).

Definition isValidAnswer (d : Dict) (word : string) : bool :=
  bool_decide (Js.toUpperCase word ∈ answers d).

Definition getAllAnswers (d : Dict) : list string := answers d.
Definition getAllValidGuesses (d : Dict) : list string := validGuesses d.

Definition getAnswerCount (d : Dict) : nat := List.length (answers d).
Definition getValidGuessCount (d : Dict) : nat := List.length (validGuesses d).

(** State of the two loops of [evaluateGuess]: the [result] array (cells
    still [null] are [None]) and the [matched] flags of the target. *)
Definition EvalState : Type := list (option Cell) * list bool.

(** Body of the first loop, at index [i]. *)
Definition first_pass_step (g t : list ascii) (st : EvalState) (i : nat)
  : EvalState :=
  if bool_decide (g !! i = t !! i)
  then (<[i := Some (mkCell (g !! i) green)]> st.1, <[i := true]> st.2)
  else st.

(** The inner [j] loop of the second pass: the leftmost [j] in [0..4] with
    [!matched[j] && guessLetters[i] === targetLetters[j]]. *)
Definition find_unmatched (g t : list ascii) (matched : list bool) (i : nat)
  : option nat :=
  List.find (fun j => negb (default false (matched !! j))
                      && bool_decide (g !! i = t !! j)) (seq 0 5).

(** Body of the second loop, at index [i]. *)
Definition second_pass_step (g t : list ascii) (st : EvalState) (i : nat)
  : EvalState :=
  match st.1 !! i with
  | Some (Some _) => st
  | _ =>
    match find_unmatched g t st.2 i with
    | Some j => (<[i := Some (mkCell (g !! i) yellow)]> st.1, <[j := true]> st.2)
    | None => (<[i := Some (mkCell (g !! i) grey)]> st.1, st.2)
    end
  end.

Definition first_pass (g t : list ascii) (k : nat) : EvalState :=
  foldl (first_pass_step g t) (replicate 5 None, replicate 5 false) (seq 0 k).

Definition second_pass (g t : list ascii) (k : nat) : EvalState :=
  foldl (second_pass_step g t) (first_pass g t 5) (seq 0 k).

Definition evaluateGuess (guess target : string) : list (option Cell) :=
  let guessLetters := Js.split (Js.toUpperCase guess) in
  let targetLetters := Js.split (Js.toUpperCase target) in
  (second_pass guessLetters targetLetters 5).1.

Definition isCorrectGuess (guess target : string) : bool :=
  bool_decide (Js.toUpperCase guess = Js.toUpperCase target).

End WordService.

(** [evaluation.map(e => e.color)]; reading [.color] of a [null] cell throws,
    which is [None] here. *)
Definition colors_of (evaluation : list (option Cell)) : option (list Color) :=
  mapM (fmap color) evaluation.



(* ===================================================================== *)
(** * The evaluation rule of the specification                            *)
(* ===================================================================== *)

(** The two-pass rule, written from the specification's words and by
    recursion on the words themselves; [WordService.evaluateGuess] is
    compared with it below. *)
Module EvalSpec.

(** First pass: a position is GREEN exactly when guess and target agree
    there; the GREEN target positions are the consumed ones. *)
Definition first_pass (g t : list ascii) : list bool :=
  zip_with (fun a b => bool_decide (a = b)) g t.

(** The leftmost unconsumed target position that holds [c]. *)
Fixpoint leftmost (c : ascii) (t : list ascii) (consumed : list bool)
  : option nat :=
  match t, consumed with
  | x :: t', b :: consumed' =>
      if negb b && bool_decide (x = c) then Some 0
      else S <$> leftmost c t' consumed'
  | _, _ => None
  end.

(** Second pass over the guess positions, left to right; [todo] pairs each
    guess letter with its GREEN flag. *)
Fixpoint second_pass (t : list ascii) (todo : list (ascii * bool))
    (consumed : list bool) : list Color :=
  match todo with
  | [] => []
  | (c, true) :: rest => green :: second_pass t rest consumed
  | (c, false) :: rest =>
      match leftmost c t consumed with
      | Some j => yellow :: second_pass t rest (<[j := true]> consumed)
      | None => grey :: second_pass t rest consumed
      end
  end.

Definition evaluate (g t : list ascii) : list Color :=
  second_pass t (zip g (first_pass g t)) (first_pass g t).

(** Occurrences of the letter [c] in a word. *)
Definition count_letter (c : ascii) (w : list ascii) : nat :=
  length (List.filter (fun x => bool_decide (x = c)) w).

(** A cell that is not GREY and whose guess letter is [c]. *)
Definition marked (c : ascii) (e : option Cell) : bool :=
  match e with
  | Some x => bool_decide (letter x = Some c) && negb (bool_decide (color x = grey))
  | None => false
  end.

(** Positions of an evaluation that are not GREY and whose guess letter
    is [c]. *)
Definition count_marked (c : ascii) (cells : list (option Cell)) : nat :=
  length (List.filter (marked c) cells).

End EvalSpec.

(* ===================================================================== *)
(** * Math.random                                                         *)
(* ===================================================================== *)

(** One value returned by [Math.random()]: a number in [[0, 1)]. *)
Record Draw := mkDraw {
  draw : Q;
  draw_range : Qle_bool 0 draw && negb (Qle_bool 1 draw) = true
}.

(** Computations that call [Math.random()]: [rnd k] is the value of the
    [k]-th call, the state is the number of calls made so far. *)
Definition Rand (A : Type) : Type := (nat -> Draw) -> nat -> A * nat.

#[global] Instance Rand_ret : MRet Rand := fun A a _ n => (a, n).

#[global] Instance Rand_bind : MBind Rand := fun A B f m rnd n =>
  let '(a, n') := m rnd n in f a rnd n'.

Definition random : Rand Q := fun rnd n => (draw (rnd n), S n).

(** [Math.floor(Math.random() * n)]. *)
Definition randomIndex (n : nat) : Rand nat :=
  r ← random; mret (Js.random_index r n).

(** [arr.sort(cmp)] for a comparator that orders by a strict "goes
    before" test: the stable insertion of each element in front of the
    sorted rest. *)
Fixpoint stable_insert {A} (before : A -> A -> bool) (x : A) (l : list A)
  : list A :=
  match l with
  | y :: l' => if before y x then y :: stable_insert before x l' else x :: l
  | [] => [x]
  end.

Definition stable_sort {A} (before : A -> A -> bool) (l : list A) : list A :=
  foldr (stable_insert before) [] l.

(* ===================================================================== *)
(** * BotService                                                          *)
(* ===================================================================== *)

(** The value of a JavaScript expression that reads a word out of an array:
    the word, [undefined] (index out of range), or a [TypeError] (property
    read on [undefined]). *)
Inductive Picked := Word (w : string) | Undefined | Throws.

Definition pick (arr : list string) (i : nat) : Picked :=
  match arr !! i with Some w => Word w | None => Undefined end.

(** [WordService.getRandomAnswer], which draws from [Math.random()]: with an
    empty answer list the index [0] is out of range. *)
Definition getRandomAnswer (d : WordService.Dict) : Rand Picked :=
  index ← randomIndex (length (WordService.answers d));
  mret (pick (WordService.answers d) index).

Module BotService.

Definition OPTIMAL_FIRST_GUESSES : list string :=
  ["SALET"; "CRANE"; "SLATE"; "TRACE"; "CRATE"].

(** The [COMMON_WORDS] set, in insertion order. *)
Definition COMMON_WORDS : list string :=
  [
    "ABOUT"; "ABOVE"; "ABUSE"; "ACTOR"; "ACUTE"; "ADMIT"; "ADOPT"; "ADULT";
    "AFTER"; "AGAIN"; "AGENT"; "AGREE"; "AHEAD"; "ALARM"; "ALBUM"; "ALERT";
    "ALIKE"; "ALIVE"; "ALLOW"; "ALONE"; "ALONG"; "ALTER"; "AMONG"; "ANGER";
    "ANGLE"; "ANGRY"; "APART"; "APPLE"; "APPLY"; "ARENA"; "ARGUE"; "ARISE";
    "ARMED"; "ARMOR"; "ARRAY"; "ASIDE"; "ASSET"; "AVOID"; "AWARD"; "AWARE";
    "BADLY"; "BAKER"; "BASES"; "BASIC"; "BASIN"; "BASIS"; "BEACH"; "BEGAN";
    "BEGIN"; "BEGUN"; "BEING"; "BELOW"; "BENCH"; "BIBLE"; "BIRTH"; "BLACK";
    "BLADE"; "BLAME"; "BLANK"; "BLAST"; "BLEND"; "BLESS"; "BLIND"; "BLOCK";
    "BLOOD"; "BLOOM"; "BLOWN"; "BOARD"; "BOOST"; "BOOTH"; "BOUND"; "BRAIN";
    "BRAND"; "BREAD"; "BREAK"; "BREED"; "BRICK"; "BRIDE"; "BRIEF"; "BRING";
    "BROAD"; "BROKE"; "BROWN"; "BUILD"; "BUILT"; "BUNCH"; "BURST"; "BUYER";
    "CABLE"; "CANDY"; "CARRY"; "CATCH"; "CAUSE"; "CHAIN"; "CHAIR"; "CHAOS";
    "CHARM"; "CHART"; "CHASE"; "CHEAP"; "CHECK"; "CHEST"; "CHIEF"; "CHILD";
    "CHINA"; "CHOSE"; "CIVIL"; "CLAIM"; "CLASS"; "CLEAN"; "CLEAR"; "CLIMB";
    "CLOCK"; "CLOSE"; "CLOTH"; "CLOUD"; "COACH"; "COAST"; "COULD"; "COUNT";
    "COURT"; "COVER"; "CRAFT"; "CRASH"; "CRAZY"; "CREAM"; "CRIME"; "CROSS";
    "CROWD"; "CROWN"; "CURVE"; "CYCLE"; "DAILY"; "DANCE"; "DATED"; "DEALT";
    "DEATH"; "DEBUT"; "DELAY"; "DEPTH"; "DOING"; "DOUBT"; "DOZEN"; "DRAFT";
    "DRAIN"; "DRAMA"; "DRANK"; "DRAWN"; "DREAM"; "DRESS"; "DRIED"; "DRINK";
    "DRIVE"; "DROVE"; "DYING"; "EAGER"; "EARLY"; "EARTH"; "EIGHT"; "ELITE";
    "EMPTY"; "ENEMY"; "ENJOY"; "ENTER"; "ENTRY"; "EQUAL"; "ERROR"; "EVENT";
    "EVERY"; "EXACT"; "EXIST"; "EXTRA"; "FAITH"; "FALSE"; "FAULT"; "FAVOR";
    "FENCE"; "FEVER"; "FIBER"; "FIELD"; "FIFTH"; "FIFTY"; "FIGHT"; "FINAL";
    "FIRST"; "FIXED"; "FLASH"; "FLEET"; "FLESH"; "FLOAT"; "FLOOD"; "FLOOR";
    "FLOUR"; "FLUID"; "FOCUS"; "FORCE"; "FORGE"; "FORTH"; "FORTY"; "FORUM";
    "FOUND"; "FRAME"; "FRANK"; "FRAUD"; "FRESH"; "FRONT"; "FRUIT"; "FULLY";
    "FUNNY"; "GIANT"; "GIVEN"; "GLASS"; "GLOBE"; "GLORY"; "GOING"; "GRACE";
    "GRADE"; "GRAIN"; "GRAND"; "GRANT"; "GRAPE"; "GRASP"; "GRASS"; "GRAVE";
    "GREAT"; "GREEN"; "GREET"; "GRIEF"; "GRILL"; "GROSS"; "GROUP"; "GROVE";
    "GROWN"; "GUARD"; "GUESS"; "GUEST"; "GUIDE"; "GUILT"; "HAPPY"; "HARSH";
    "HEART"; "HEAVY"; "HENCE"; "HERO"; "HORSE"; "HOTEL"; "HOUSE"; "HUMAN";
    "IDEAL"; "IMAGE"; "IMPLY"; "INDEX"; "INNER"; "INPUT"; "ISSUE"; "JOINT";
    "JONES"; "JUDGE"; "JUICE"; "KNOWN"; "LABEL"; "LABOR"; "LARGE"; "LASER";
    "LATER"; "LAUGH"; "LAYER"; "LEARN"; "LEASE"; "LEAST"; "LEAVE"; "LEGAL";
    "LEMON"; "LEVEL"; "LIGHT"; "LIMIT"; "LINUX"; "LIVER"; "LIVING"; "LOCAL";
    "LODGE"; "LOGIC"; "LOOSE"; "LORRY"; "LOSER"; "LOWER"; "LUCKY"; "LUNCH";
    "LYING"; "MAGIC"; "MAJOR"; "MAKER"; "MARCH"; "MARRY"; "MATCH"; "MAYOR";
    "MEANT"; "MEDAL"; "MEDIA"; "MERCY"; "MERGE"; "MERIT"; "METAL"; "METER";
    "MIGHT"; "MINOR"; "MINUS"; "MIXED"; "MODEL"; "MONEY"; "MONTH"; "MORAL";
    "MOTOR"; "MOUNT"; "MOUSE"; "MOUTH"; "MOVED"; "MOVIE"; "MUSIC"; "NAKED";
    "NEEDS"; "NERVE"; "NEVER"; "NEWER"; "NIGHT"; "NOISE"; "NORTH"; "NOTED";
    "NOVEL"; "NURSE"; "OCCUR"; "OCEAN"; "OFFER"; "OFTEN"; "OLIVE"; "ONION";
    "OPERA"; "ORBIT"; "ORDER"; "ORGAN"; "OTHER"; "OUGHT"; "OUTER"; "OWNED";
    "OWNER"; "OXIDE"; "OZONE"; "PAINT"; "PANEL"; "PANIC"; "PAPER"; "PARTY";
    "PASTA"; "PATCH"; "PAUSE"; "PEACE"; "PEARL"; "PENNY"; "PHASE"; "PHONE";
    "PHOTO"; "PIANO"; "PIECE"; "PILOT"; "PINCH"; "PITCH"; "PLACE"; "PLAIN";
    "PLANE"; "PLANT"; "PLATE"; "PLAZA"; "POINT"; "POLAR"; "POUND"; "POWER";
    "PRESS"; "PRICE"; "PRIDE"; "PRIME"; "PRINT"; "PRIOR"; "PRIZE"; "PROBE";
    "PROOF"; "PROUD"; "PROVE"; "PUNCH"; "PUPIL"; "QUEEN"; "QUEST"; "QUICK";
    "QUIET"; "QUITE"; "QUOTA"; "QUOTE"; "RADAR"; "RADIO"; "RAISE"; "RANCH";
    "RANGE"; "RAPID"; "RATIO"; "REACH"; "REACT"; "READY"; "REALM"; "REBEL";
    "REFER"; "REIGN"; "RELAX"; "REPLY"; "RIDER"; "RIDGE"; "RIFLE"; "RIGHT";
    "RIGID"; "RISKY"; "RIVAL"; "RIVER"; "ROBOT"; "ROCKY"; "ROMAN"; "ROUGH";
    "ROUND"; "ROUTE"; "ROYAL"; "RUGBY"; "RULER"; "RURAL"; "SADLY"; "SAINT";
    "SALAD"; "SALES"; "SANDY"; "SAUCE"; "SAVED"; "SCALE"; "SCENE"; "SCOPE";
    "SCORE"; "SENSE"; "SERVE"; "SEVEN"; "SHADE"; "SHAKE"; "SHALL"; "SHAME";
    "SHAPE"; "SHARE"; "SHARP"; "SHEEP"; "SHEER"; "SHEET"; "SHELF"; "SHELL";
    "SHIFT"; "SHINE"; "SHIRT"; "SHOCK"; "SHOOT"; "SHORE"; "SHORT"; "SHOT";
    "SHOUT"; "SHOWN"; "SIGHT"; "SIGMA"; "SILLY"; "SINCE"; "SIXTH"; "SIXTY";
    "SIZED"; "SKILL"; "SKIRT"; "SLAVE"; "SLEEP"; "SLICE"; "SLIDE"; "SLOPE";
    "SMALL"; "SMART"; "SMELL"; "SMILE"; "SMITH"; "SMOKE"; "SNAKE"; "SOLID";
    "SOLVE"; "SORRY"; "SOUND"; "SOUTH"; "SPACE"; "SPARE"; "SPARK"; "SPEAK";
    "SPEED"; "SPELL"; "SPEND"; "SPENT"; "SPICE"; "SPINE"; "SPLIT"; "SPOKE";
    "SPORT"; "SPRAY"; "SQUAD"; "STACK"; "STAFF"; "STAGE"; "STAKE"; "STAMP";
    "STAND"; "STARK"; "START"; "STATE"; "STEAM"; "STEEL"; "STEEP"; "STEER";
    "STICK"; "STILL"; "STOCK"; "STONE"; "STOOD"; "STORE"; "STORM"; "STORY";
    "STRAP"; "STRAW"; "STRIP"; "STUCK"; "STUDY"; "STUFF"; "STYLE"; "SUGAR";
    "SUITE"; "SUNNY"; "SUPER"; "SURGE"; "SWEET"; "SWEPT"; "SWIFT"; "SWING";
    "SWISS"; "SWORD"; "TABLE"; "TAKEN"; "TASTE"; "TAXES"; "TEACH"; "TEETH";
    "TEMPO"; "TENDS"; "TENOR"; "TENSE"; "TENTH"; "TERMS"; "TERRY"; "TEXAS";
    "THANK"; "THEFT"; "THEIR"; "THEME"; "THERE"; "THESE"; "THICK"; "THING";
    "THINK"; "THIRD"; "THOSE"; "THREE"; "THREW"; "THROW"; "THUMB"; "TIGER";
    "TIGHT"; "TIRED"; "TITLE"; "TODAY"; "TOKEN"; "TOPIC"; "TOTAL"; "TOUCH";
    "TOUGH"; "TOWER"; "TRACK"; "TRADE"; "TRAIL"; "TRAIN"; "TRAIT"; "TRASH";
    "TREAT"; "TREND"; "TRIAL"; "TRIBE"; "TRICK"; "TRIED"; "TROOP"; "TRUCK";
    "TRULY"; "TRUNK"; "TRUST"; "TRUTH"; "TUMOR"; "TWICE"; "ULTRA"; "UNCLE";
    "UNDER"; "UNION"; "UNITE"; "UNITY"; "UNTIL"; "UPPER"; "UPSET"; "URBAN";
    "USUAL"; "VALID"; "VALUE"; "VIDEO"; "VIRUS"; "VISIT"; "VITAL"; "VOCAL";
    "VOICE"; "VOTER"; "WAGON"; "WASTE"; "WATCH"; "WATER"; "WEIGH"; "WEIRD";
    "WHEAT"; "WHEEL"; "WHERE"; "WHICH"; "WHILE"; "WHITE"; "WHOLE"; "WHOSE";
    "WOMAN"; "WOMEN"; "WORLD"; "WORRY"; "WORSE"; "WORST"; "WORTH"; "WOULD";
    "WOUND"; "WRITE"; "WRONG"; "WROTE"; "YIELD"; "YOUNG"; "YOUTH"; "ZEBRA";
    "ZONES"
  ].

Definition isCommon (w : string) : bool := bool_decide (w ∈ COMMON_WORDS).

Record Config := mkConfig {
  topN : option nat;
  useCommonFilter : bool;
  minSolveGuess : nat;
  delayMin : Z;
  delayMax : Z;
  noise : Q;
  wasteWordChance : option Q
}.

Definition impossible_cfg : Config := mkConfig (Some 1) false 1 10000 20000 0 None.
Definition hard_cfg : Config := mkConfig (Some 5) false 2 18000 22000 (5 # 100) None.
Definition medium_cfg : Config :=
  mkConfig (Some 20) true 3 22000 30000 (1 # 10) (Some (1 # 10)).
Definition easy_cfg : Config :=
  mkConfig None true 4 30000 35000 (2 # 10) (Some (2 # 10)).

Definition DIFFICULTIES (difficulty : string) : option Config :=
  if decide (difficulty = "impossible") then Some impossible_cfg
  else if decide (difficulty = "hard") then Some hard_cfg
  else if decide (difficulty = "medium") then Some medium_cfg
  else if decide (difficulty = "easy") then Some easy_cfg
  else None.

(** [this.DIFFICULTIES[difficulty] || this.DIFFICULTIES.medium]. *)
Definition configOf (difficulty : string) : Config :=
  default medium_cfg (DIFFICULTIES difficulty).

(** ** Pattern strings *)

Definition PatState : Type := list ascii * list bool.

Definition pat_first_step (g t : list ascii) (st : PatState) (i : nat) : PatState :=
  if bool_decide (g !! i = t !! i)
  then (<[i := "G"%char]> st.1, <[i := true]> st.2)
  else st.

Definition pat_second_step (g t : list ascii) (st : PatState) (i : nat) : PatState :=
  if bool_decide (st.1 !! i = Some "G"%char) then st
  else
    match WordService.find_unmatched g t st.2 i with
    | Some j => (<[i := "Y"%char]> st.1, <[j := true]> st.2)
    | None => st
    end.

Definition getPattern (guess target : string) : string :=
  let targetChars := Js.split target in
  let guessChars := Js.split guess in
  let st0 : PatState := (replicate 5 "X"%char, replicate 5 false) in
  let st1 := foldl (pat_first_step guessChars targetChars) st0 (seq 0 5) in
  let st2 := foldl (pat_second_step guessChars targetChars) st1 (seq 0 5) in
  Js.join st2.1.

(** ** Constraints *)

Record Constraint := mkConstraint { c_guess : string; c_pattern : string }.

Definition matchesConstraints (word : string) (constraints : list Constraint)
  : bool :=
  forallb (fun c => bool_decide (getPattern (c_guess c) word = c_pattern c))
          constraints.

Definition filterPossibleAnswers (possibleAnswers : list string)
    (constraints : list Constraint) : list string :=
  List.filter (fun word => matchesConstraints word constraints) possibleAnswers.

(** ** Entropy ranking *)

Section Selection.

(** The loaded dictionary, and [Math.log2] (scores are kept exact, as
    rationals, so the logarithm is a parameter of the model). *)
Variable d : WordService.Dict.
Variable log2 : Q -> Q.

(** [patternCounts.set(pattern, (patternCounts.get(pattern) || 0) + 1)] on a
    [Map], kept in insertion order. *)
Fixpoint bump (pattern : string) (m : list (string * nat)) : list (string * nat) :=
  match m with
  | (p, n) :: m' => if decide (p = pattern) then (p, S n) :: m'
                    else (p, n) :: bump pattern m'
  | [] => [(pattern, 1)]
  end.

Definition calculateEntropy (guess : string) (possibleAnswers : list string) : Q :=
  if (length possibleAnswers =? 0) then 0%Q
  else if (length possibleAnswers =? 1) then 0%Q
  else
    let patternCounts :=
      foldl (fun m answer => bump (getPattern guess answer) m) [] possibleAnswers in
    let total := inject_Z (Z.of_nat (length possibleAnswers)) in
    foldl (fun entropy pc =>
             let probability := (inject_Z (Z.of_nat pc.2) / total)%Q in
             (entropy - probability * log2 probability)%Q)
          0%Q patternCounts.

Record Score := mkScore { s_word : string; s_entropy : Q }.

(** The scoring loop of [getBestGuessesByEntropy]; [Math.random()] is called
    once per candidate, and only when [noise] is not zero. *)
Fixpoint scoreAll (possibleAnswers validGuesses : list string) (noise : Q)
  : Rand (list Score) :=
  match validGuesses with
  | [] => mret []
  | guess :: rest =>
      jitter ← (if Qeq_bool noise 0 then mret 0%Q
                else r ← random; mret ((r - (1 # 2)) * noise)%Q);
      scores ← scoreAll possibleAnswers rest noise;
      mret (mkScore guess (calculateEntropy guess possibleAnswers + jitter)%Q :: scores)
  end.

(** [topN] is [null] only for the easy configuration, whose branch returns
    before the ranking; [slice(0, null)] is the empty array. *)
Definition getBestGuessesByEntropy (possibleAnswers validGuesses : list string)
    (topN : option nat) (noise : Q) : Rand (list Score) :=
  scores ← scoreAll possibleAnswers validGuesses noise;
  let sorted :=
    stable_sort (fun a b => negb (Qle_bool (s_entropy a) (s_entropy b))) scores in
  mret (take (default 0 topN) sorted).

(** ** Waste words *)

(** [new Set(a).size]: the number of distinct code units of [a]. *)
Definition uniqueLetters (a : string) : nat := length (remove_dups (Js.split a)).

(** [chooseWasteWord]; the second component is the caller's [validGuesses]
    array after the call: when the filtered pool is empty, [pool] aliases
    that array and [pool.sort] reorders it in place. *)
Definition chooseWasteWord (validGuesses : list string)
    (constraints : list Constraint) (useCommonFilter : bool)
  : Rand (Picked * list string) :=
  let pool0 := if useCommonFilter then List.filter isCommon validGuesses
               else validGuesses in
  let pool1 := filterPossibleAnswers pool0 constraints in
  let aliased := (length pool1 =? 0) in
  let pool2 := if aliased then validGuesses else pool1 in
  let pool := stable_sort (fun a b => uniqueLetters b <? uniqueLetters a) pool2 in
  let top := take (Nat.min 50 (length pool)) pool in
  i ← randomIndex (length top);
  mret (pick top i, if aliased then pool else validGuesses).

(** ** Guess selection *)

(** The sampling loop that adds random valid guesses to the candidates. *)
Fixpoint sampleCandidates (k : nat) (allValidGuesses candidates : list string)
  : Rand (list string) :=
  match k with
  | 0 => mret candidates
  | S k' =>
      idx ← randomIndex (length allValidGuesses);
      sampleCandidates k' allValidGuesses
        (match allValidGuesses !! idx with
         | Some w => if bool_decide (w ∈ candidates) then candidates
                     else (candidates ++ [w])%list
         | None => candidates
         end)
  end.

(** [config.wasteWordChance && Math.random() < config.wasteWordChance]. *)
Definition wasteRoll (config : Config) : Rand bool :=
  match wasteWordChance config with
  | Some chance =>
      if Qeq_bool chance 0 then mret false
      else r ← random; mret (negb (Qle_bool chance r))
  | None => mret false
  end.

(** [filteredAnswers.includes(guess)]. *)
Definition includes (arr : list string) (x : Picked) : bool :=
  match x with Word w => bool_decide (w ∈ arr) | _ => false end.

Definition selectGuess (difficulty : string) (possibleAnswers : list string)
    (constraints : list Constraint) (guessNumber : nat) : Rand Picked :=
  let config := configOf difficulty in
  let allValidGuesses := WordService.getAllValidGuesses d in
  let filteredAnswers :=
    if useCommonFilter config then
      let common := List.filter isCommon possibleAnswers in
      if (length common =? 0) then possibleAnswers else common
    else possibleAnswers in
  if (guessNumber =? 1) && (length constraints =? 0) then
    if decide (difficulty = "easy") then
      i ← randomIndex (length COMMON_WORDS); mret (pick COMMON_WORDS i)
    else
      i ← randomIndex (length OPTIMAL_FIRST_GUESSES);
      mret (pick OPTIMAL_FIRST_GUESSES i)
  else if (length filteredAnswers =? 1) then
    if (guessNumber <? minSolveGuess config) then
      w ← chooseWasteWord allValidGuesses constraints (useCommonFilter config);
      mret (fst w)
    else mret (pick filteredAnswers 0)
  else if (length filteredAnswers =? 2) then
    if (guessNumber <? minSolveGuess config) then
      w ← chooseWasteWord allValidGuesses constraints (useCommonFilter config);
      mret (fst w)
    else i ← randomIndex 2; mret (pick filteredAnswers i)
  else if bool_decide (difficulty = "easy") || bool_decide (topN config = None) then
    let pool := if (length filteredAnswers =? 0) then possibleAnswers
                else filteredAnswers in
    i ← randomIndex (length pool);
    let guess := pick pool i in
    waste ← wasteRoll config;
    g1 ← (if (waste : bool) then chooseWasteWord allValidGuesses constraints true
          else mret (guess, allValidGuesses));
    g2 ← (if (guessNumber <? minSolveGuess config)
          then chooseWasteWord (snd g1) constraints true
          else mret g1);
    mret (fst g2)
  else
    candidates ← sampleCandidates (Nat.min 500 (length allValidGuesses))
                   allValidGuesses filteredAnswers;
    topGuesses ← getBestGuessesByEntropy filteredAnswers candidates
                   (topN config) (noise config);
    let commonMatches := List.filter (fun g => isCommon (s_word g)) topGuesses in
    if useCommonFilter config && negb (length commonMatches =? 0) then
      i ← randomIndex (length commonMatches);
      mret (match commonMatches !! i with
            | Some g => Word (s_word g) | None => Throws end)
    else if decide (difficulty = "impossible") then
      mret (match topGuesses !! 0 with
            | Some g => Word (s_word g) | None => Throws end)
    else
      i ← randomIndex (length topGuesses);
      match topGuesses !! i with
      | None => mret Throws
      | Some g =>
          let guess := Word (s_word g) in
          waste ← wasteRoll config;
          g1 ← (if (waste : bool)
                then chooseWasteWord allValidGuesses constraints (useCommonFilter config)
                else mret (guess, allValidGuesses));
          g2 ← (if (guessNumber <? minSolveGuess config) && includes filteredAnswers (fst g1)
                then chooseWasteWord (snd g1) constraints (useCommonFilter config)
                else mret g1);
          mret (fst g2)
      end.

(** ** Bot instances *)

Record Bot := mkBot {
  difficulty : string;
  targetWord : string;
  possibleAnswers : list string;
  constraints : list Constraint;
  guessCount : nat
}.

Definition createBotInstance (difficulty targetWord : string) : Bot :=
  mkBot difficulty targetWord (WordService.getAllAnswers d) [] 0.

Definition getNextGuess (botInstance : Bot) : Rand (Picked * Z) :=
  let config := configOf (difficulty botInstance) in
  guess ← selectGuess (difficulty botInstance) (possibleAnswers botInstance)
            (constraints botInstance) (guessCount botInstance + 1);
  r ← random;
  mret (guess, Qfloor (r * inject_Z (delayMax config - delayMin config)
                       + inject_Z (delayMin config))).

Definition updateBotState (botInstance : Bot) (guess pattern : string) : Bot :=
  let constraints' := (constraints botInstance ++ [mkConstraint guess pattern])%list in
  mkBot (difficulty botInstance) (targetWord botInstance)
        (filterPossibleAnswers (possibleAnswers botInstance) constraints')
        constraints'
        (guessCount botInstance + 1).

(** The loop of [simulateGame], [fuel] iterations from index [i]; [None]
    when an iteration throws ([selectGuess] did, or returned [undefined],
    whose [split] is a [TypeError]). *)
Fixpoint simulateLoop (fuel i : nat) (targetWord difficulty : string)
    (botInstance : Bot) (history : list Constraint)
  : Rand (option (list Constraint)) :=
  match fuel with
  | 0 => mret (Some history)
  | S fuel' =>
      guess ← selectGuess difficulty (possibleAnswers botInstance)
                (constraints botInstance) (i + 1);
      match guess with
      | Word g =>
          let pattern := getPattern g targetWord in
          let history' := (history ++ [mkConstraint g pattern])%list in
          if bool_decide (pattern = "GGGGG") then mret (Some history')
          else simulateLoop fuel' (i + 1) targetWord difficulty
                 (updateBotState botInstance g pattern) history'
      | _ => mret None
      end
  end.

Definition simulateGame (targetWord difficulty : string)
  : Rand (option (list Constraint)) :=
  simulateLoop 6 0 targetWord difficulty (createBotInstance difficulty targetWord) [].

End Selection.

End BotService.


(* ===================================================================== *)
(** * MatchmakingService.createBotOpponent                                *)
(* ===================================================================== *)

(** A player as it is handed to [GameService.createGame]. *)
Record PlayerInfo := mkPlayerInfo {
  pi_id : string;
  pi_username : string;
  pi_elo : Z;
  pi_socketId : option string;
  pi_isBot : bool;
  pi_botDifficulty : option string
}.

Module MatchmakingService.

(** [uuid] is the value of [uuidv4()]. *)
Definition createBotOpponent (uuid : string) (playerElo : Z) : PlayerInfo :=
  let '(difficulty, botElo, botName) :=
    if (playerElo <? 900)%Z then ("easy", 800%Z, "WordBot Easy")
    else if (playerElo <? 1200)%Z then ("medium", 1100%Z, "WordBot Medium")
    else if (playerElo <? 1500)%Z then ("hard", 1400%Z, "WordBot Hard")
    else ("impossible", 1800%Z, "WordBot Impossible") in
  mkPlayerInfo ("bot_" ++ uuid) botName botElo None true (Some difficulty).

End MatchmakingService.

(* ===================================================================== *)
(** * Live match state                                                    *)
(* ===================================================================== *)

Record GuessRecord := mkGuessRecord {
  word : string;
  evaluation : list (option Cell);
  timestamp : Z;
  guessNumber : nat
}.

Record Player := mkPlayer {
  id : string;
  username : string;
  elo : Z;
  socketId : option string;
  guesses : list GuessRecord;
  isBot : bool;
  botDifficulty : option string
}.

Inductive ReplayEvent :=
| ReplayGuess (playerId : string) (data : GuessRecord)
| ReplayForfeit (playerId : string) (at_time : Z).

(** [GAME_STATES]. *)
Inductive Status := WAITING | ACTIVE | FINISHED.

(** The game object; [players] is the object keyed by player id, in key
    insertion order. *)
Record Game := mkGame {
  game_id : string;
  targetWord : string;
  status : Status;
  startTime : Z;
  players : list (string * Player);
  replayLog : list ReplayEvent;
  winner : option string;
  endTime : option Z
}.

(** The value of the win-lock key, [{ playerId, timestamp }]. *)
Record WinnerInfo := mkWinnerInfo { w_playerId : string; w_timestamp : Z }.

#[global] Instance GuessRecord_eq_dec : EqDecision GuessRecord.
Proof. solve_decision. Defined.
#[global] Instance Player_eq_dec : EqDecision Player.
Proof. solve_decision. Defined.
#[global] Instance ReplayEvent_eq_dec : EqDecision ReplayEvent.
Proof. solve_decision. Defined.
#[global] Instance Status_eq_dec : EqDecision Status.
Proof. solve_decision. Defined.
#[global] Instance Game_eq_dec : EqDecision Game.
Proof. solve_decision. Defined.

(** The own entry of [game.players] under [playerId], if there is one. *)
Fixpoint lookupPlayer (playerId : string) (ps : list (string * Player))
  : option Player :=
  match ps with
  | (k, p) :: ps' => if decide (k = playerId) then Some p else lookupPlayer playerId ps'
  | [] => None
  end.

(** In-place update of the object stored under [playerId]. *)
Fixpoint updatePlayer (playerId : string) (f : Player -> Player)
    (ps : list (string * Player)) : list (string * Player) :=
  match ps with
  | (k, p) :: ps' => if decide (k = playerId) then (k, f p) :: ps'
                     else (k, p) :: updatePlayer playerId f ps'
  | [] => []
  end.

(* ===================================================================== *)
(** * config/redis.js                                                     *)
(* ===================================================================== *)

Module Redis.

(** What [JSON.parse] finds under a key. *)
Inductive Value := VGame (g : Game) | VWinner (w : WinnerInfo).

(** A key holds a value until its expiry instant (milliseconds). *)
Record Entry := mkEntry { value : Value; expireAt : Z }.

Abbreviation Store := (gmap string Entry).

(** [GET key] at instant [now]. *)
Definition get (now : Z) (key : string) (s : Store) : option Value :=
  match s !! key with
  | Some e => if (now <? expireAt e)%Z then Some (value e) else None
  | None => None
  end.

(** [SETEX key ttl value]. *)
Definition setex (now : Z) (key : string) (ttlSeconds : Z) (v : Value)
    (s : Store) : Store :=
  <[key := mkEntry v (now + 1000 * ttlSeconds)]> s.

(** [SET key value NX EX ttl]: the reply is ["OK"] only when the key holds
    no live value. *)
Definition set_nx_ex (now : Z) (key : string) (v : Value) (ttlSeconds : Z)
    (s : Store) : bool * Store :=
  match get now key s with
  | Some _ => (false, s)
  | None => (true, <[key := mkEntry v (now + 1000 * ttlSeconds)]> s)
  end.

Definition gameKey (gameId : string) : string := "game:" ++ gameId.
Definition winnerKey (gameId : string) : string := "game:" ++ gameId ++ ":winner".

Definition setGameState (now : Z) (gameId : string) (state : Game)
    (ttlSeconds : Z) (s : Store) : Store :=
  setex now (gameKey gameId) ttlSeconds (VGame state) s.

Definition getGameState (now : Z) (gameId : string) (s : Store) : option Value :=
  get now (gameKey gameId) s.


(** [acquireWinLock(gameId, playerId)]: [dateNow] is the caller's
    [Date.now()], read before the [SET] is sent; [now] is the instant at
    which the store serves it. *)
Definition acquireWinLock (now : Z) (gameId playerId : string) (dateNow : Z)
    (s : Store) : bool * Store :=
  set_nx_ex now (winnerKey gameId) (VWinner (mkWinnerInfo playerId dateNow)) 60 s.

Definition getWinner (now : Z) (gameId : string) (s : Store) : option Value :=
  get now (winnerKey gameId) s.

(** ** The matchmaking queue

    The sorted set [matchmaking:queue] and the keys
    [matchmaking:player:<id>] live beside the game keys; their names never
    start with [game:], so they are kept in a store of their own. *)

(** [{ playerId, elo, socketId, timestamp }]. *)
Record QueueData := mkQueueData {
  q_playerId : string;
  q_elo : Z;
  q_socketId : string;
  q_timestamp : Z
}.

(** [queue] is the sorted set, as the list of its scores and members in the
    order of [ZRANGE]; [playerKeys] maps a player id to the member stored
    under [matchmaking:player:<id>] and its expiry instant. *)
Record Matchmaking := mkMatchmaking {
  queue : list (Z * QueueData);
  playerKeys : gmap string (QueueData * Z)
}.

Section Queue.

(** [JSON.stringify] on queue records: members of the sorted set are the
    texts, equal members are equal texts, and members of equal score are
    ordered by their texts. *)
Variable stringify : QueueData -> string.

Definition sameMember (a b : QueueData) : bool :=
  bool_decide (stringify a = stringify b).

(** [(score, member)] comes before [(score', member')] in the set. *)
Definition zbefore (x y : Z * QueueData) : bool :=
  (x.1 <? y.1)%Z || ((x.1 =? y.1)%Z && String.ltb (stringify x.2) (stringify y.2)).

Fixpoint zinsert (x : Z * QueueData) (l : list (Z * QueueData))
  : list (Z * QueueData) :=
  match l with
  | y :: l' => if zbefore y x then y :: zinsert x l' else x :: l
  | [] => [x]
  end.

(** [ZREM key member]. *)
Definition zrem (member : QueueData) (l : list (Z * QueueData))
  : list (Z * QueueData) :=
  List.filter (fun y => negb (sameMember y.2 member)) l.

(** [ZADD key score member]: a member already present takes the new score. *)
Definition zadd (score : Z) (member : QueueData) (l : list (Z * QueueData))
  : list (Z * QueueData) :=
  zinsert (score, member) (zrem member l).

(** [ZRANGEBYSCORE key min max], both bounds included. *)
Definition zrangebyscore (min max : Q) (l : list (Z * QueueData))
  : list QueueData :=
  map snd (List.filter (fun y => Qle_bool min (inject_Z y.1)
                                 && Qle_bool (inject_Z y.1) max) l).

(** [addToMatchmakingQueue]; [now] is the value of [Date.now()], [t] the
    instant of the [SETEX]. *)
Definition addToMatchmakingQueue (now t : Z) (playerId : string) (elo : Z)
    (socketId : string) (m : Matchmaking) : Matchmaking :=
  let queueData := mkQueueData playerId elo socketId now in
  mkMatchmaking (zadd elo queueData (queue m))
                (<[playerId := (queueData, (t + 1000 * 30)%Z)]> (playerKeys m)).

(** [removeFromMatchmakingQueue], at instant [now]. *)
Definition removeFromMatchmakingQueue (now : Z) (playerId : string)
    (m : Matchmaking) : Matchmaking :=
  match playerKeys m !! playerId with
  | Some (playerData, expireAt) =>
      if (now <? expireAt)%Z
      then mkMatchmaking (zrem playerData (queue m)) (delete playerId (playerKeys m))
      else m
  | None => m
  end.

(** [findMatch(playerId, elo, range)]. *)
Definition findMatch (playerId : string) (elo : Z) (range : Q) (m : Matchmaking)
  : option QueueData :=
  let candidates :=
    zrangebyscore (inject_Z elo - range) (inject_Z elo + range) (queue m) in
  List.find (fun data => negb (bool_decide (q_playerId data = playerId))) candidates.

End Queue.

End Redis.

(* ===================================================================== *)
(** * MatchmakingService.tryFindMatch                                     *)
(* ===================================================================== *)

Module MatchmakingSearch.

Definition INITIAL_ELO_RANGE : Q := 100.
Definition MAX_ELO_RANGE : Q := 400.

(** [Math.min] on two numbers. *)
Definition min (a b : Q) : Q := if Qle_bool a b then a else b.

(** The range searched after [elapsed] milliseconds; [timeout] is
    [MATCHMAKING_TIMEOUT] (15000 unless the environment sets it). *)
Definition currentRange (timeout elapsed : Z) : Q :=
  let rangeExpansion :=
    min (MAX_ELO_RANGE - INITIAL_ELO_RANGE)
        (inject_Z elapsed / inject_Z timeout * (MAX_ELO_RANGE - INITIAL_ELO_RANGE)) in
  INITIAL_ELO_RANGE + rangeExpansion.

(** [tryFindMatch(player)] at instant [now]; [startTime] is the start of the
    entry of the player in [activeSearches], if there is one. *)
Definition tryFindMatch (timeout now : Z) (startTime : option Z)
    (playerId : string) (elo : Z) (m : Redis.Matchmaking)
  : option Redis.QueueData :=
  let elapsed := match startTime with Some t0 => (now - t0)%Z | None => 0%Z end in
  Redis.findMatch playerId elo (currentRange timeout elapsed) m.

End MatchmakingSearch.

(* ===================================================================== *)
(** * GameService                                                         *)
(* ===================================================================== *)

Module GameService.

Definition MAX_GUESSES : nat := 6.

Record WinnerSummary := mkWinnerSummary {
  ws_playerId : string;
  ws_guessCount : nat;
  ws_timeMs : Z
}.

(** The object returned for an accepted guess. *)
Record Accepted := mkAccepted {
  r_guess : GuessRecord;
  r_isCorrect : bool;
  r_gameEnded : bool;
  r_winner : option WinnerSummary;
  r_remainingGuesses : Z
}.

(** [{ success: false, error }] or [{ success: true, ... }]. *)
Inductive GuessResult := Rejected (error : string) | Success (a : Accepted).

(** [player.guesses.length] for the player object stored under [playerId]. *)
Definition guessCountOf (playerId : string) (game : Game) : nat :=
  match lookupPlayer playerId (players game) with
  | Some p => length (guesses p)
  | None => 0
  end.

Definition withStatus (game : Game) (st : Status) (w : option string)
    (e : option Z) : Game :=
  mkGame (game_id game) (targetWord game) st (startTime game) (players game)
         (replayLog game) w e.

(** [player.guesses.push(guessRecord); game.replayLog.push(...)]. *)
Definition recordGuess (game : Game) (playerId : string) (rec : GuessRecord)
  : Game :=
  mkGame (game_id game) (targetWord game) (status game) (startTime game)
         (updatePlayer playerId
            (fun p => mkPlayer (id p) (username p) (elo p) (socketId p)
                               (guesses p ++ [rec]) (isBot p) (botDifficulty p))
            (players game))
         (replayLog game ++ [ReplayGuess playerId rec])
         (winner game) (endTime game).

(** The tail of [processGuess], from the "both players out of guesses"
    check to the returned object (the write to the store excluded). *)
Definition conclude (game : Game) (playerId : string) (rec : GuessRecord)
    (isCorrect gameEnded : bool) (winnerInfo : option WinnerSummary)
    (timestamp : Z) : Game * Accepted :=
  let allPlayersExhausted :=
    forallb (fun kp => MAX_GUESSES <=? length (guesses kp.2)) (players game) in
  let drawn := negb gameEnded && allPlayersExhausted in
  let game' := if drawn then withStatus game FINISHED None (Some timestamp)
               else game in
  (game',
   mkAccepted rec isCorrect (gameEnded || drawn) winnerInfo
     (Z.of_nat MAX_GUESSES - Z.of_nat (guessCountOf playerId game))).

(** ** processGuess, one store round trip at a time

    A call of [processGuess] is suspended at each [await]; between two
    awaits it runs without interruption.  A [Call] is the continuation of
    a call at its next store operation, the object it returned, or
    [Thrown] when it ended with a [TypeError]. *)
Inductive Call :=
| AtGetGame (gameId playerId guess : string)
| AtAcquire (gameId playerId : string) (game : Game) (rec : GuessRecord)
            (timestamp : Z)
| AtGetWinner (gameId playerId : string) (game : Game) (rec : GuessRecord)
              (timestamp : Z)
| AtSetState (gameId playerId : string) (game : Game) (result : Accepted)
| Returned (result : GuessResult)
| Thrown.

(** What a round trip did, as seen from the store. *)
Inductive Event :=
| EvRead
| EvAcquire (gameId playerId : string) (ok : bool)
| EvGetWinner
| EvWrite (gameId playerId : string) (game : Game) (result : Accepted)
| EvIdle.

Section Pipeline.

Variable d : WordService.Dict.

(** From the reply of [getGame] up to the next [await].

    [game.players[playerId]] is the own entry of that name; without one it
    is [undefined], unless [playerId] names an inherited property: its
    value passes the test [!player], and reading [player.guesses.length]
    after the two checks of the word is a [TypeError]. *)
Definition afterGetGame (now : Z) (gameId playerId guess : string)
    (reply : option Redis.Value) : Call :=
  match reply with
  | None => Returned (Rejected "Game not found")
  | Some (Redis.VWinner _) => Returned (Rejected "Game is not active")
  | Some (Redis.VGame game) =>
    if negb (bool_decide (status game = ACTIVE))
    then Returned (Rejected "Game is not active")
    else
      match lookupPlayer playerId (players game) with
      | None =>
        if bool_decide (playerId ∈ Js.inherited)
        then
          let guess := Js.trim (Js.toUpperCase guess) in
          if negb (Js.length guess =? 5)
          then Returned (Rejected "Guess must be 5 letters")
          else if negb (WordService.isValidGuess d guess)
          then Returned (Rejected "Not a valid word")
          else Thrown
        else Returned (Rejected "Player not in game")
      | Some player =>
        let guess := Js.trim (Js.toUpperCase guess) in
        if negb (Js.length guess =? 5)
        then Returned (Rejected "Guess must be 5 letters")
        else if negb (WordService.isValidGuess d guess)
        then Returned (Rejected "Not a valid word")
        else if (MAX_GUESSES <=? length (guesses player))
        then Returned (Rejected "No guesses remaining")
        else
          let evaluation := WordService.evaluateGuess guess (targetWord game) in
          let isCorrect := WordService.isCorrectGuess guess (targetWord game) in
          let timestamp := now in
          let guessRecord :=
            mkGuessRecord guess evaluation timestamp (length (guesses player) + 1) in
          let game1 := recordGuess game playerId guessRecord in
          if isCorrect
          then AtAcquire gameId playerId game1 guessRecord timestamp
          else
            let '(game2, result) :=
              conclude game1 playerId guessRecord isCorrect false None timestamp in
            AtSetState gameId playerId game2 result
      end
  end.

(** One round trip of a call, at instant [now]. *)
Definition step (now : Z) (s : Redis.Store) (c : Call)
  : Redis.Store * Call * Event :=
  match c with
  | AtGetGame gameId playerId guess =>
      (s, afterGetGame now gameId playerId guess (Redis.getGameState now gameId s),
       EvRead)
  | AtAcquire gameId playerId game rec timestamp =>
      let '(wonLock, s') := Redis.acquireWinLock now gameId playerId timestamp s in
      if wonLock then
        let game1 := withStatus game FINISHED (Some playerId) (Some timestamp) in
        let winnerInfo :=
          mkWinnerSummary playerId (guessCountOf playerId game)
                          (timestamp - startTime game) in
        let '(game2, result) :=
          conclude game1 playerId rec true true (Some winnerInfo) timestamp in
        (s', AtSetState gameId playerId game2 result, EvAcquire gameId playerId true)
      else
        (s', AtGetWinner gameId playerId game rec timestamp,
         EvAcquire gameId playerId false)
  | AtGetWinner gameId playerId game rec timestamp =>
      let '(game1, gameEnded) :=
        match Redis.getWinner now gameId s with
        | Some (Redis.VWinner existingWinner) =>
            (withStatus game FINISHED (Some (w_playerId existingWinner))
                        (Some (w_timestamp existingWinner)), true)
        | Some (Redis.VGame _) => (withStatus game FINISHED None None, true)
        | None => (game, false)
        end in
      let '(game2, result) :=
        conclude game1 playerId rec true gameEnded None timestamp in
      (s, AtSetState gameId playerId game2 result, EvGetWinner)
  | AtSetState gameId playerId game result =>
      (Redis.setGameState now gameId game 3600 s, Returned (Success result),
       EvWrite gameId playerId game result)
  | Returned r => (s, Returned r, EvIdle)
  | Thrown => (s, Thrown, EvIdle)
  end.

(** A call that runs alone: its round trips happen at the instants [times],
    in order. *)
Fixpoint run (times : list Z) (s : Redis.Store) (c : Call) : Redis.Store * Call :=
  match times with
  | [] => (s, c)
  | now :: times' => let '(s', c', _) := step now s c in run times' s' c'
  end.

(** [processGuess(gameId, playerId, guess)]; a call makes at most four
    round trips ([t1] .. [t4] are their instants). *)
Definition processGuess (t1 t2 t3 t4 : Z) (s : Redis.Store)
    (gameId playerId guess : string) : Redis.Store * Call :=
  run [t1; t2; t3; t4] s (AtGetGame gameId playerId guess).

(** ** Concurrent calls

    Several calls share the store.  A schedule names, for each round trip,
    the call that makes it and the instant at which the store serves it. *)
Definition System : Type := Redis.Store * list Call.

Definition sys_step (cfg : System) (e : nat * Z) : System * Event :=
  match cfg.2 !! e.1 with
  | Some c => let '(s', c', ev) := step e.2 cfg.1 c in ((s', <[e.1 := c']> cfg.2), ev)
  | None => (cfg, EvIdle)
  end.

Fixpoint sys_run (cfg : System) (schedule : list (nat * Z))
  : System * list Event :=
  match schedule with
  | [] => (cfg, [])
  | e :: schedule' =>
      let '(cfg1, ev) := sys_step cfg e in
      let '(cfg2, log) := sys_run cfg1 schedule' in
      (cfg2, ev :: log)
  end.

End Pipeline.

(** [getMaskedGuessForOpponent]. *)
Record MaskedGuess := mkMaskedGuess {
  m_colors : list Color;
  m_timestamp : Z;
  m_guessNumber : nat
}.

Definition getMaskedGuessForOpponent (guessRecord : GuessRecord)
  : option MaskedGuess :=
  colors ← colors_of (evaluation guessRecord);
  Some (mkMaskedGuess colors (timestamp guessRecord) (guessNumber guessRecord)).

(** ** forfeitGame

    [t1] is the instant of the read, [t2] of the write; the result is the
    returned game ([None] for [null]) and the store afterwards. *)
Definition forfeitGame (t1 t2 : Z) (s : Redis.Store)
    (gameId forfeitPlayerId : string) : option Game * Redis.Store :=
  match Redis.getGameState t1 gameId s with
  | Some (Redis.VGame game) =>
      if negb (bool_decide (status game = ACTIVE)) then (None, s)
      else
        let playerIds := map fst (players game) in
        let winnerId :=
          List.find (fun k => negb (bool_decide (k = forfeitPlayerId))) playerIds in
        let endTime := t1 in
        let game' :=
          mkGame (game_id game) (targetWord game) FINISHED (startTime game)
                 (players game)
                 (replayLog game ++ [ReplayForfeit forfeitPlayerId endTime])
                 winnerId (Some endTime) in
        (Some game', Redis.setGameState t2 gameId game' 3600 s)
  | _ => (None, s)
  end.

(** ** createGame, getGame, cleanupGame *)



Definition getGame (now : Z) (gameId : string) (s : Redis.Store)
  : option Redis.Value :=
  Redis.getGameState now gameId s.


(** ** getPlayerGameView *)

Record PlayerView := mkPlayerView {
  v_id : string;
  v_status : Status;
  v_startTime : Z;
  v_myGuesses : list GuessRecord;
  v_opponentProgress : list MaskedGuess;
  v_winner : option string;
  v_targetWord : option string
}.

(** What a call returns: [null], a view, or a [TypeError]. *)
Inductive ViewResult := ViewNull | ViewThrows | View (v : PlayerView).

(** [game.players[opponentId]] with [opponentId] possibly [undefined], which
    as a property key reads ["undefined"]. *)
Definition opponentOf (playerId : string) (game : Game) : option Player :=
  let playerIds := map fst (players game) in
  let opponentId :=
    List.find (fun k => negb (bool_decide (k = playerId))) playerIds in
  lookupPlayer (default "undefined" opponentId) (players game).

Definition getPlayerGameView (now : Z) (s : Redis.Store)
    (gameId playerId : string) : ViewResult :=
  match getGame now gameId s with
  | None => ViewNull
  | Some (Redis.VWinner _) => ViewThrows
  | Some (Redis.VGame game) =>
      let myGuesses :=
        match lookupPlayer playerId (players game) with
        | Some p => guesses p
        | None => []
        end in
      let opponentProgress :=
        match opponentOf playerId game with
        | Some o => mapM getMaskedGuessForOpponent (guesses o)
        | None => Some []
        end in
      match opponentProgress with
      | Some progress =>
          View (mkPlayerView (game_id game) (status game) (startTime game)
                  myGuesses progress (winner game)
                  (if bool_decide (status game = FINISHED)
                   then Some (targetWord game) else None))
      | None => ViewThrows
      end
  end.

(** [getGameDuration]; [now] is the value of [Date.now()]. *)
Definition getGameDuration (now : Z) (game : Game) : Z :=
  match endTime game with
  | Some e => if (e =? 0)%Z then now - startTime game else e - startTime game
  | None => now - startTime game
  end.

End GameService.

(* ===================================================================== *)
(** * EloService                                                          *)
(* ===================================================================== *)

(** JavaScript numbers are modelled by real numbers: [Math.pow(10, x)] is
    [Rpower 10 x] and [Math.round(x)] is the integer [floor (x + 1/2)].
    Ratings are integers.  The doubles of the code follow this arithmetic
    as long as the ratings are integers that a double holds and adds
    without loss, which ends near 2^53; the statements about all ratings
    stay within the range of the [elo] column. *)
Module EloService.

Open Scope R_scope.

Definition K_FACTOR : R := 32.
Definition MIN_RATING : Z := 100.
Definition DEFAULT_RATING : Z := 1200.
Definition SCALE_FACTOR : R := 400.

Definition round (x : R) : Z := Zfloor (x + / 2).

Definition calculateExpectedScore (playerRating opponentRating : Z) : R :=
  let exponent := (IZR opponentRating - IZR playerRating) / SCALE_FACTOR in
  1 / (1 + Rpower 10 exponent).

Definition calculateNewRating (currentRating : Z)
    (expectedScore actualScore kFactor : R) : Z :=
  let ratingDelta := kFactor * (actualScore - expectedScore) in
  let newRating := IZR currentRating + ratingDelta in
  Z.max (round newRating) MIN_RATING.

Record RatingChange := mkRatingChange {
  oldRating : Z;
  newRating : Z;
  delta : Z
}.

(** [{ winner: {...}, loser: {...} }]. *)
Record MatchRatings := mkMatchRatings {
  mr_winner : RatingChange;
  mr_loser : RatingChange
}.

Definition calculateMatchResult (winnerRating loserRating : Z) : MatchRatings :=
  let winnerExpected := calculateExpectedScore winnerRating loserRating in
  let loserExpected := calculateExpectedScore loserRating winnerRating in
  let winnerNewRating :=
    calculateNewRating winnerRating winnerExpected 1 K_FACTOR in
  let loserNewRating :=
    calculateNewRating loserRating loserExpected 0 K_FACTOR in
  mkMatchRatings
    (mkRatingChange winnerRating winnerNewRating (winnerNewRating - winnerRating)%Z)
    (mkRatingChange loserRating loserNewRating (loserNewRating - loserRating)%Z).

(** ** The persistent store *)

Record UserRow := mkUserRow {
  u_elo : Z;
  u_wins : Z;
  u_losses : Z;
  u_gamesPlayed : Z
}.

Record MatchRow := mkMatchRow {
  row_winnerId : option string;
  row_loserId : option string;
  row_winnerEloBefore : Z;
  row_winnerEloAfter : Z;
  row_loserEloBefore : Z;
  row_loserEloAfter : Z;
  row_targetWord : string;
  row_replayLog : list ReplayEvent;
  row_durationMs : Z;
  row_isBotMatch : bool;
  row_botDifficulty : option string
}.

Record Db := mkDb { users : gmap string UserRow; matches : list MatchRow }.

(** [tx.user.update({ where: { id }, data })]; a missing row makes the
    transaction throw ([None]). *)
Definition updateUser (userId : string) (f : UserRow -> UserRow) (db : Db)
  : option Db :=
  match users db !! userId with
  | Some u => Some (mkDb (<[userId := f u]> (users db)) (matches db))
  | None => None
  end.

Definition createMatch (row : MatchRow) (db : Db) : Db :=
  mkDb (users db) (matches db ++ [row]).

(** What the two update functions return: [ratings] for a match between
    humans, [player] for a bot match. *)
Record EloResult := mkEloResult {
  er_ratings : option MatchRatings;
  er_player : option RatingChange
}.

(** [updateRatingsAfterMatch]: [None] when the transaction throws (nothing
    is then written). *)
Definition updateRatingsAfterMatch (db : Db) (winnerId loserId : string)
    (winnerRating loserRating : Z) (targetWord : string)
    (replayLog : list ReplayEvent) (durationMs : Z) : option (Db * EloResult) :=
  let ratingResult := calculateMatchResult winnerRating loserRating in
  db1 ← updateUser winnerId
          (fun u => mkUserRow (newRating (mr_winner ratingResult))
                              (u_wins u + 1) (u_losses u) (u_gamesPlayed u + 1)) db;
  db2 ← updateUser loserId
          (fun u => mkUserRow (newRating (mr_loser ratingResult))
                              (u_wins u) (u_losses u + 1) (u_gamesPlayed u + 1)) db1;
  let row :=
    mkMatchRow (Some winnerId) (Some loserId)
               winnerRating (newRating (mr_winner ratingResult))
               loserRating (newRating (mr_loser ratingResult))
               targetWord replayLog durationMs false None in
  Some (createMatch row db2, mkEloResult (Some ratingResult) None).

(** [BOT_RATINGS[botDifficulty] || BOT_RATINGS.medium]. *)
Definition botRatingOf (botDifficulty : option string) : Z :=
  match botDifficulty with
  | Some "easy" => 800
  | Some "medium" => 1100
  | Some "hard" => 1400
  | Some "impossible" => 1800
  | _ => 1100
  end%Z.

Definition updateRatingAfterBotMatch (db : Db) (playerId : string)
    (playerRating : Z) (playerWon : bool) (botDifficulty : option string)
    (targetWord : string) (replayLog : list ReplayEvent) (durationMs : Z)
  : option (Db * EloResult) :=
  let botRating := botRatingOf botDifficulty in
  let botMatchKFactor := K_FACTOR * (1 / 2) in
  let expectedScore := calculateExpectedScore playerRating botRating in
  let actualScore := if playerWon then 1 else 0 in
  let newRating :=
    calculateNewRating playerRating expectedScore actualScore botMatchKFactor in
  let ratingDelta := (newRating - playerRating)%Z in
  db1 ← updateUser playerId
          (fun u => mkUserRow newRating
                              (if playerWon then u_wins u + 1 else u_wins u)
                              (if playerWon then u_losses u else u_losses u + 1)
                              (u_gamesPlayed u + 1)) db;
  let row :=
    mkMatchRow (if playerWon then Some playerId else None)
               (if playerWon then None else Some playerId)
               (if playerWon then playerRating else botRating)
               (if playerWon then newRating else botRating)
               (if playerWon then botRating else playerRating)
               (if playerWon then botRating else newRating)
               targetWord replayLog durationMs true botDifficulty in
  Some (createMatch row db1,
        mkEloResult None (Some (mkRatingChange playerRating newRating ratingDelta))).

End EloService.

(* ===================================================================== *)
(** * Socket handlers                                                     *)
(* ===================================================================== *)

(** JSON payloads of emitted events; [JUndefined] is a field whose value
    is [undefined]. *)
#[local] Unset Elimination Schemes.
Inductive Json :=
| JUndefined
| JNull
| JNum (z : Z)
| JStr (s : string)
| JBool (b : bool)
| JArr (items : list Json)
| JObj (fields : list (string * Json)).
#[local] Set Elimination Schemes.

(** [io.to(socketId).emit(event, payload)]. *)
Record Emit := mkEmit { to : string; event : string; payload : Json }.

Module SocketHandlers.

(** The two registries, [playerSockets] and [socketPlayers] (the latter in
    insertion order, as it is scanned). *)
Record Sockets := mkSockets {
  playerSockets : gmap string string;
  socketPlayers : list (string * string)
}.

Definition getPlayerSocketIds (reg : Sockets) (playerId : string) : list string :=
  let ids : list string :=
    match playerSockets reg !! playerId with
    | Some mapped => [mapped]
    | None => []
    end in
  foldl (fun (ids : list string) (sp : string * string) =>
           if bool_decide (sp.2 = playerId) && negb (bool_decide (sp.1 ∈ ids))
           then (ids ++ [sp.1])%list else ids)
        ids (socketPlayers reg).

(** The literal values of the colours. *)
Definition colorName (c : Color) : string :=
  match c with green => "green" | yellow => "yellow" | grey => "grey" end.

Definition colorsJson (cols : list Color) : Json :=
  JArr (map (fun c => JStr (colorName c)) cols).

(** Payload of [game:guess:result], for the guesser. *)
Definition guessResultPayload (result : GameService.Accepted) : option Json :=
  cols ← colors_of (evaluation (GameService.r_guess result));
  Some (JObj [("word", JStr (word (GameService.r_guess result)));
              ("colors", colorsJson cols);
              ("guessNumber", JNum (Z.of_nat (guessNumber (GameService.r_guess result))));
              ("isCorrect", JBool (GameService.r_isCorrect result));
              ("remainingGuesses", JNum (GameService.r_remainingGuesses result))]).

(** Payload of [game:opponent:guess], for the opponent. *)
Definition opponentGuessPayload (result : GameService.Accepted) : option Json :=
  cols ← colors_of (evaluation (GameService.r_guess result));
  Some (JObj [("colors", colorsJson cols);
              ("guessNumber", JNum (Z.of_nat (guessNumber (GameService.r_guess result))))]).

Definition errorEmit (socketId message : string) : Emit :=
  mkEmit socketId "error" (JObj [("message", JStr message)]).

(** The [game:guess] handler, up to and including the masked emit: the
    store afterwards, the events emitted, and the accepted result handed on
    to the end-of-game and bot steps.  [userId] is [socket.userData?.id];
    [t1] .. [t4] are the instants of the round trips of [processGuess], [t5]
    that of the second [getGame]. *)
Definition onGameGuess (d : WordService.Dict) (t1 t2 t3 t4 t5 : Z)
    (reg : Sockets) (socketId : string) (userId : option string)
    (s : Redis.Store) (gameId guess : string)
  : Redis.Store * list Emit * option GameService.Accepted :=
  match userId with
  | None => (s, [errorEmit socketId "Invalid guess data"], None)
  | Some playerId =>
    if bool_decide (playerId = "") || bool_decide (gameId = "")
       || bool_decide (guess = "")
    then (s, [errorEmit socketId "Invalid guess data"], None)
    else
      let '(s', c) := GameService.processGuess d t1 t2 t3 t4 s gameId playerId guess in
      match c with
      | GameService.Returned (GameService.Rejected err) =>
          (s', [mkEmit socketId "game:guess:invalid" (JObj [("error", JStr err)])], None)
      | GameService.Returned (GameService.Success result) =>
          match guessResultPayload result, opponentGuessPayload result with
          | Some full, Some masked =>
              let toGuesser := mkEmit socketId "game:guess:result" full in
              match Redis.getGameState t5 gameId s' with
              | Some (Redis.VGame game) =>
                  let opponentId :=
                    List.find (fun k => negb (bool_decide (k = playerId)))
                              (map fst (players game)) in
                  match opponentId ≫= (fun o => playerSockets reg !! o) with
                  | Some opponentSocketId =>
                      (s', [toGuesser;
                            mkEmit opponentSocketId "game:opponent:guess" masked],
                       Some result)
                  | None => (s', [toGuesser], Some result)
                  end
              | _ => (s', [toGuesser; errorEmit socketId "Failed to process guess"], None)
              end
          | _, _ => (s', [errorEmit socketId "Failed to process guess"], None)
          end
      | GameService.Thrown =>
          (s', [errorEmit socketId "Failed to process guess"], None)
      | _ => (s', [], None)
      end
  end.

(** The letter of a colour in a pattern string. *)
Definition patternLetter (c : Color) : ascii :=
  match c with green => "G"%char | yellow => "Y"%char | grey => "X"%char end.

(** The timer callback of [triggerBotGuess], up to and including the masked
    emit: the store and the bot instance afterwards, the events emitted, and
    the accepted result handed on.  [guess] is the word chosen by
    [getNextGuess]; [t0] is the instant of the callback's [getGame], [t1] ..
    [t4] those of the round trips of [processGuess]. *)
Definition onBotGuess (d : WordService.Dict) (t0 t1 t2 t3 t4 : Z)
    (reg : Sockets) (botInstance : BotService.Bot) (s : Redis.Store)
    (gameId guess : string)
  : Redis.Store * BotService.Bot * list Emit * option GameService.Accepted :=
  match Redis.getGameState t0 gameId s with
  | Some (Redis.VGame currentGame) =>
    if negb (bool_decide (status currentGame = ACTIVE))
    then (s, botInstance, [], None)
    else
      match List.find (fun kp : string * Player => isBot kp.2) (players currentGame) with
      | None => (s, botInstance, [], None)
      | Some (botId, _) =>
        if bool_decide (botId = "") then (s, botInstance, [], None) else
        let '(s', c) := GameService.processGuess d t1 t2 t3 t4 s gameId botId guess in
        match c with
        | GameService.Returned (GameService.Success result) =>
            match colors_of (evaluation (GameService.r_guess result)),
                  opponentGuessPayload result with
            | Some cols, Some masked =>
                let pattern := Js.join (map patternLetter cols) in
                let bot' := BotService.updateBotState botInstance guess pattern in
                let humanSocketIds :=
                  match List.find (fun kp : string * Player => negb (isBot kp.2))
                                  (players currentGame) with
                  | Some (humanId, _) => getPlayerSocketIds reg humanId
                  | None => []
                  end in
                (s', bot',
                 map (fun sid => mkEmit sid "game:opponent:guess" masked) humanSocketIds,
                 Some result)
            | _, _ => (s', botInstance, [], None)
            end
        | _ => (s', botInstance, [], None)
        end
      end
  | _ => (s, botInstance, [], None)
  end.

(** ** The registries *)

(** [map.set(k, v)] on a [Map] kept in insertion order: the value of an
    existing key is replaced in place, a new key goes last. *)
Fixpoint mapSet (k v : string) (m : list (string * string)) : list (string * string) :=
  match m with
  | (k', v') :: m' => if decide (k' = k) then (k', v) :: m' else (k', v') :: mapSet k v m'
  | [] => [(k, v)]
  end.

(** [map.get(k)]. *)
Fixpoint mapGet (k : string) (m : list (string * string)) : option string :=
  match m with
  | (k', v') :: m' => if decide (k' = k) then Some v' else mapGet k m'
  | [] => None
  end.

(** [map.delete(k)]. *)
Definition mapDelete (k : string) (m : list (string * string)) : list (string * string) :=
  List.filter (fun kv => negb (bool_decide (kv.1 = k))) m.

(** The [register] handler of the socket [socketId]; [userId] is
    [userData.id] ([None] when [userData] or its [id] is missing). *)
Definition onRegister (reg : Sockets) (socketId : string) (userId : option string)
  : Sockets :=
  match userId with
  | Some id =>
      if bool_decide (id = "") then reg
      else mkSockets (<[id := socketId]> (playerSockets reg))
                     (mapSet socketId id (socketPlayers reg))
  | None => reg
  end.

(** What the [disconnect] handler of the socket [socketId] does to the two
    registries. *)
Definition onDisconnect (reg : Sockets) (socketId : string) : Sockets :=
  match mapGet socketId (socketPlayers reg) with
  | Some playerId =>
      if bool_decide (playerId = "") then reg
      else mkSockets (delete playerId (playerSockets reg))
                     (mapDelete socketId (socketPlayers reg))
  | None => reg
  end.

(** ** game:rejoin *)

Definition notFound (socketId : string) : Emit :=
  mkEmit socketId "game:notfound" JUndefined.

(** One entry of [guesses] in the [game:rejoined] payload. *)
Definition ownGuessJson (g : GuessRecord) : option Json :=
  cols ← colors_of (evaluation g);
  Some (JObj [("word", JStr (word g)); ("colors", colorsJson cols);
              ("guessNumber", JNum (Z.of_nat (guessNumber g)))]).

(** One entry of [opponentProgress]. *)
Definition opponentGuessJson (g : GuessRecord) : option Json :=
  cols ← colors_of (evaluation g);
  Some (JObj [("colors", colorsJson cols);
              ("guessNumber", JNum (Z.of_nat (guessNumber g)))]).

(** The [game:rejoin] handler, up to and including its emit: the registries
    afterwards and the events emitted.  [now] is the instant of [getGame].
    A [playerId] that names an inherited property and no player passes the
    test [!game.players[playerId]]: the socket is registered, and building
    the payload throws. *)
Definition onGameRejoin (now : Z) (reg : Sockets) (socketId : string)
    (userId : option string) (s : Redis.Store) (gameId : string)
  : Sockets * list Emit :=
  match userId with
  | None => (reg, [notFound socketId])
  | Some playerId =>
    if bool_decide (playerId = "") || bool_decide (gameId = "")
    then (reg, [notFound socketId])
    else
      match GameService.getGame now gameId s with
      | Some (Redis.VGame game) =>
        if negb (bool_decide (status game = ACTIVE)) then (reg, [notFound socketId])
        else
          let reg' := mkSockets (<[playerId := socketId]> (playerSockets reg))
                                (mapSet socketId playerId (socketPlayers reg)) in
          match lookupPlayer playerId (players game) with
          | None =>
              if bool_decide (playerId ∈ Js.inherited)
              then (reg', [notFound socketId])
              else (reg, [notFound socketId])
          | Some playerData =>
            match mapM ownGuessJson (guesses playerData),
                  GameService.opponentOf playerId game with
            | Some own, Some opponentData =>
                match mapM opponentGuessJson (guesses opponentData) with
                | Some progress =>
                    (reg',
                     [mkEmit socketId "game:rejoined"
                        (JObj [("gameId", JStr (game_id game));
                               ("guesses", JArr own);
                               ("opponentProgress", JArr progress);
                               ("opponent",
                                JObj [("username", JStr (username opponentData));
                                      ("elo", JNum (elo opponentData));
                                      ("isBot", JBool (isBot opponentData))])])])
                | None => (reg', [notFound socketId])
                end
            | _, _ => (reg', [notFound socketId])
            end
          end
      | _ => (reg, [notFound socketId])
      end
  end.

(** [a || b] on optional numbers: [undefined] and [0] are falsy. *)
Definition orNum (a b : option Z) : option Z :=
  match a with
  | Some z => if (z =? 0)%Z then b else Some z
  | None => b
  end.

Definition numJson (x : option Z) : Json :=
  match x with Some z => JNum z | None => JUndefined end.

(** The [game:end] payload of [notifyGameEnd] for [player]. *)
Definition gameEndPayload (game : Game) (reason : string)
    (eloResult : option EloService.EloResult) (player opponent : Player) : Json :=
  let isWinner := bool_decide (winner game = Some (id player)) in
  let ofRatings (pick : EloService.MatchRatings -> EloService.RatingChange)
                (field : EloService.RatingChange -> Z) (r : EloService.EloResult) :=
    orNum (field <$> (pick <$> EloService.er_ratings r))
          (field <$> EloService.er_player r) in
  let side := if isWinner then EloService.mr_winner else EloService.mr_loser in
  JObj [("gameId", JStr (game_id game));
        ("result", JStr (match winner game with
                         | None => "draw"
                         | Some _ => if isWinner then "win" else "loss"
                         end));
        ("reason", JStr reason);
        ("targetWord", JStr (targetWord game));
        ("opponent", JObj [("username", JStr (username opponent));
                           ("guesses", JNum (Z.of_nat (length (guesses opponent))))]);
        ("myGuesses", JNum (Z.of_nat (length (guesses player))));
        ("eloChange", match eloResult with
                      | Some r => numJson (ofRatings side EloService.delta r)
                      | None => JNum 0
                      end);
        ("newElo", match eloResult with
                   | Some r => numJson (ofRatings side EloService.newRating r)
                   | None => JNum (elo player)
                   end)].

(** [notifyGameEnd]: one [game:end] per socket of each human player.  A
    player without opponent makes the loop throw; the flag tells whether it
    did, the events are those emitted before. *)
Fixpoint notifyLoop (reg : Sockets) (game : Game) (reason : string)
    (eloResult : option EloService.EloResult) (all todo : list Player)
  : list Emit * bool :=
  match todo with
  | [] => ([], false)
  | player :: rest =>
      if isBot player then notifyLoop reg game reason eloResult all rest
      else
        let socketIds := getPlayerSocketIds reg (id player) in
        if (length socketIds =? 0)%nat
        then notifyLoop reg game reason eloResult all rest
        else
          match List.find (fun p => negb (bool_decide (id p = id player))) all with
          | None => ([], true)
          | Some opponent =>
              let mine :=
                map (fun sid => mkEmit sid "game:end"
                                  (gameEndPayload game reason eloResult player opponent))
                    socketIds in
              let '(others, threw) := notifyLoop reg game reason eloResult all rest in
              ((mine ++ others)%list, threw)
          end
  end.

Definition notifyGameEnd (reg : Sockets) (game : Game) (reason : string)
    (eloResult : option EloService.EloResult) : list Emit * bool :=
  let players := map snd (players game) in
  notifyLoop reg game reason eloResult players players.

(** The [game:forfeit] handler: the store afterwards and the events of
    [notifyGameEnd(io, game, 'forfeit')] ([t1] and [t2] are the instants of
    the read and of the write of [forfeitGame]). *)
Definition onGameForfeit (t1 t2 : Z) (reg : Sockets) (userId : option string)
    (s : Redis.Store) (gameId : string) : Redis.Store * list Emit :=
  match userId with
  | None => (s, [])
  | Some playerId =>
      if bool_decide (playerId = "") || bool_decide (gameId = "") then (s, [])
      else
        match GameService.forfeitGame t1 t2 s gameId playerId with
        | (Some game, s') => (s', (notifyGameEnd reg game "forfeit" None).1)
        | (None, s') => (s', [])
        end
  end.

(** [handleGameEnd]; [now] is the value of [Date.now()].  The result is
    the persistent store afterwards and the events emitted. *)
Definition handleGameEnd (now : Z) (reg : Sockets) (db : EloService.Db)
    (game : Game) : EloService.Db * list Emit :=
  let players := map snd (players game) in
  let winnerP := List.find (fun p => bool_decide (Some (id p) = winner game)) players in
  let loserP :=
    List.find (fun p => negb (bool_decide (Some (id p) = winner game))) players in
  let isBotGame := existsb isBot players in
  let duration := GameService.getGameDuration now game in
  (** the [try] block up to [notifyGameEnd]: [None] when it throws *)
  let attempt : option (EloService.Db * option EloService.EloResult) :=
    if isBotGame then
      humanPlayer ← List.find (fun p => negb (isBot p)) players;
      bot ← List.find isBot players;
      r ← EloService.updateRatingAfterBotMatch db (id humanPlayer) (elo humanPlayer)
             (bool_decide (winner game = Some (id humanPlayer)))
             (botDifficulty bot) (targetWord game) (replayLog game) duration;
      Some (r.1, Some r.2)
    else
      match winnerP, loserP with
      | Some w, Some l =>
          r ← EloService.updateRatingsAfterMatch db (id w) (id l) (elo w) (elo l)
                 (targetWord game) (replayLog game) duration;
          Some (r.1, Some r.2)
      | _, _ => Some (db, None)
      end in
  match attempt with
  | Some (db', eloResult) =>
      let '(emits, threw) := notifyGameEnd reg game "complete" eloResult in
      if threw then (db', (emits ++ (notifyGameEnd reg game "complete" None).1)%list)
      else (db', emits)
  | None => (db, (notifyGameEnd reg game "complete" None).1)
  end.

End SocketHandlers.

(* ===================================================================== *)
(** * Notions used in the statements                                      *)
(* ===================================================================== *)

Open Scope list_scope.

(** ** Words and evaluations *)

(** A five-letter upper-case word. *)
Definition word5 (w : string) : Prop :=
  Js.length w = 5 /\ forallb Js.is_upper (Js.split w) = true.

(** The result array after the first loop, given the GREEN flags. *)
Definition green_cells (g : list ascii) (flags : list bool) : list (option Cell) :=
  zip_with (fun c (b : bool) => if b then Some (mkCell (Some c) green) else None)
           g flags.

(** The cells made of guess letters (paired with their GREEN flags) and
    colours. *)
Definition cells (todo : list (ascii * bool)) (cols : list Color)
  : list (option Cell) :=
  zip_with (fun (cb : ascii * bool) col => Some (mkCell (Some cb.1) col)) todo cols.

(** Unconsumed target positions that hold [c]. *)
Definition avail (c : ascii) (t : list ascii) (consumed : list bool) : nat :=
  length (List.filter (fun xb : ascii * bool => negb xb.2 && bool_decide (xb.1 = c))
                      (zip t consumed)).

(** Guess positions that hold [c] and whose GREEN flag is [flag]. *)
Definition count_flag (c : ascii) (flag : bool) (todo : list (ascii * bool)) : nat :=
  length (List.filter
            (fun xb : ascii * bool => bool_decide (xb.1 = c) && Bool.eqb xb.2 flag)
            todo).

(** ** The guess pipeline *)

(** The guess as [processGuess] normalises it. *)
Definition normalize (guess : string) : string := Js.trim (Js.toUpperCase guess).

(** The conditions under which [processGuess] has nothing to object. *)
Definition acceptable (d : WordService.Dict) (t1 : Z) (s : Redis.Store)
    (gameId playerId guess : string) : Prop :=
  exists game player,
    Redis.getGameState t1 gameId s = Some (Redis.VGame game) /\
    status game = ACTIVE /\
    lookupPlayer playerId (players game) = Some player /\
    Js.length (normalize guess) = 5 /\
    normalize guess ∈ WordService.validGuesses d /\
    length (guesses player) < GameService.MAX_GUESSES.

(** A call that passed validation and has store operations left. *)
Definition pending (c : GameService.Call) : Prop :=
  match c with
  | GameService.AtAcquire _ _ _ _ _ | GameService.AtGetWinner _ _ _ _ _
  | GameService.AtSetState _ _ _ _ => True
  | _ => False
  end.

(** [rec] holds the evaluation of the normalised [guess] against some
    target. *)
Definition evaluated (guess : string) (rec : GuessRecord) : Prop :=
  exists target,
    evaluation rec = WordService.evaluateGuess (normalize guess) target.

(** Every continuation of a call for [guess] carries its evaluation. *)
Definition carries (guess : string) (c : GameService.Call) : Prop :=
  match c with
  | GameService.AtGetGame _ _ _ => False
  | GameService.AtAcquire _ _ _ rec _ | GameService.AtGetWinner _ _ _ rec _ =>
      evaluated guess rec
  | GameService.AtSetState _ _ _ a => evaluated guess (GameService.r_guess a)
  | GameService.Returned (GameService.Success a) =>
      evaluated guess (GameService.r_guess a)
  | GameService.Returned (GameService.Rejected _) => True
  | GameService.Thrown => True
  end.

(** ** The bot *)

(** The bot state after the guesses [gs], each answered with its true
    pattern against [target]. *)
Definition botAfter (d : WordService.Dict) (difficulty target : string)
    (gs : list string) : BotService.Bot :=
  foldl (fun b g => BotService.updateBotState b g (BotService.getPattern g target))
        (BotService.createBotInstance d difficulty target) gs.

(** A constraint that records the pattern of its guess against [target]. *)
Definition truthful (target : string) (c : BotService.Constraint) : Prop :=
  BotService.c_pattern c = BotService.getPattern (BotService.c_guess c) target.

(** A picked word of the valid-guess set. *)
Definition validWord (d : WordService.Dict) (x : Picked) : Prop :=
  exists w, x = Word w /\ w ∈ WordService.validGuesses d.

(** [P] holds of the value of [m], whatever [Math.random()] returns. *)
Definition always {A} (m : Rand A) (P : A -> Prop) : Prop :=
  forall rnd n, P (m rnd n).1.

(** ** Ratings *)

(** The largest value of the [elo] column, an [INTEGER] of schema.sql.  Up
    to it, and far beyond, a double holds every integer, and the sum of a
    rating and a rating change is rounded by less than a millionth. *)
Definition INTEGER_MAX : Z := 2147483647.

(** The new ratings of winner and loser before rounding and floor. *)
Definition rawWinner (rw rl : Z) : R :=
  (IZR rw + EloService.K_FACTOR * (1 - EloService.calculateExpectedScore rw rl))%R.

Definition rawLoser (rw rl : Z) : R :=
  (IZR rl + EloService.K_FACTOR * (0 - EloService.calculateExpectedScore rl rw))%R.

(** ** Win arbitration *)

(** The win-lock claims of a log, in order: who asked, and the reply. *)
Definition acquires (log : list GameService.Event) : list (string * bool) :=
  omap (fun ev => match ev with
                  | GameService.EvAcquire _ p ok => Some (p, ok)
                  | _ => None
                  end) log.

(** The winner field of every match state written, in order. *)
Definition writtenWinners (log : list GameService.Event) : list (option string) :=
  omap (fun ev => match ev with
                  | GameService.EvWrite _ _ game _ => Some (winner game)
                  | _ => None
                  end) log.

(** [rec] is the last guess of [playerId]'s slot and the last entry of the
    replay log. *)
Definition recorded (playerId : string) (rec : GuessRecord) (game : Game) : Prop :=
  (exists pl, lookupPlayer playerId (players game) = Some pl /\
              last (guesses pl) = Some rec) /\
  last (replayLog game) = Some (ReplayGuess playerId rec).

(** A correct guess whose win claim failed. *)
Definition raceLost (a : GameService.Accepted) : Prop :=
  GameService.r_isCorrect a = true /\ GameService.r_winner a = None.

(** What the arbitration promises about the log of a run: the first claim
    succeeds and every later one fails; every match state written names no
    winner or the champion; the state written for a correct guess that lost
    the race is finished, names the champion and holds the guess. *)
Definition arbitrated (log : list GameService.Event) : Prop :=
  exists champion : option string,
    match champion with
    | None => acquires log = []
    | Some p => exists rest, acquires log = (p, true) :: rest /\
                             Forall (fun a => a.2 = false) rest
    end /\
    (forall g p game a, GameService.EvWrite g p game a ∈ log ->
       winner game = None \/ winner game = champion) /\
    (forall g p game a, GameService.EvWrite g p game a ∈ log -> raceLost a ->
       is_Some champion /\ status game = FINISHED /\ winner game = champion /\
       recorded p (GameService.r_guess a) game).

(** Invariants of the concurrent runs on match [gid] whose round trips all
    happen in the window [[T, T + 60000)]; [h] is the holder of the lock. *)
Section Arbitration.

Variable gid : string.
Variable T : Z.

Definition inWindow (now : Z) : Prop := (T <= now < T + 60000)%Z.

Definition okWinner (h w : option string) : Prop := w = None \/ w = h.

Definition lockInv (h : option string) (s : Redis.Store) : Prop :=
  match h with
  | None => s !! Redis.winnerKey gid = None
  | Some p => exists ts exp,
      s !! Redis.winnerKey gid
      = Some (Redis.mkEntry (Redis.VWinner (mkWinnerInfo p ts)) exp) /\
      (T + 60000 <= exp)%Z
  end.

Definition gameInv (h : option string) (s : Redis.Store) : Prop :=
  forall e g, s !! Redis.gameKey gid = Some e -> Redis.value e = Redis.VGame g ->
              okWinner h (winner g).

Definition lostInv (h : option string) (p : string) (game : Game)
    (a : GameService.Accepted) : Prop :=
  raceLost a ->
  is_Some h /\ status game = FINISHED /\ winner game = h /\
  recorded p (GameService.r_guess a) game.

Definition callInv (h : option string) (c : GameService.Call) : Prop :=
  match c with
  | GameService.AtGetGame g _ _ => g = gid
  | GameService.AtAcquire g p game rec _ =>
      g = gid /\ okWinner h (winner game) /\ recorded p rec game
  | GameService.AtGetWinner g p game rec _ =>
      g = gid /\ is_Some h /\ okWinner h (winner game) /\ recorded p rec game
  | GameService.AtSetState g p game a =>
      g = gid /\ okWinner h (winner game) /\ lostInv h p game a
  | GameService.Returned _ | GameService.Thrown => True
  end.

Definition Inv (h : option string) (cfg : GameService.System) : Prop :=
  lockInv h cfg.1 /\ gameInv h cfg.1 /\ Forall (callInv h) cfg.2.

(** The holder only changes from nobody to somebody. *)
Definition grows (h h' : option string) : Prop := h' = h \/ h = None.

Definition evRel (h h' : option string) (ev : GameService.Event) : Prop :=
  match ev with
  | GameService.EvAcquire _ p true => h = None /\ h' = Some p
  | GameService.EvAcquire _ p false => is_Some h /\ h' = h
  | GameService.EvWrite _ p game a =>
      h' = h /\ okWinner h (winner game) /\ lostInv h p game a
  | _ => h' = h
  end.

Definition logRel (h0 h1 : option string) (log : list GameService.Event) : Prop :=
  match h0 with
  | Some _ => Forall (fun a => a.2 = false) (acquires log)
  | None =>
      match h1 with
      | None => acquires log = []
      | Some p => exists rest, acquires log = (p, true) :: rest /\
                               Forall (fun a => a.2 = false) rest
      end
  end /\
  forall g p game a, GameService.EvWrite g p game a ∈ log ->
    okWinner h1 (winner game) /\ lostInv h1 p game a.

End Arbitration.

(** ** Notions of the further properties *)

(** A pattern letter stands for a cell. *)
Definition letterOf (ch : ascii) (cell : option Cell) : Prop :=
  ch = match cell with
       | Some c => SocketHandlers.patternLetter (color c)
       | None => "X"%char
       end.

(** The two pairs of loops in lock step, before index [k] of the second
    pass. *)
Definition patSim (k : nat) (p : BotService.PatState) (e : WordService.EvalState)
  : Prop :=
  p.2 = e.2 /\ Forall2 letterOf p.1 e.1 /\
  forall i c, k <= i -> e.1 !! i = Some (Some c) -> color c = green.

(** The record of an accepted guess. *)
Definition guessRecordOf (now : Z) (guess : string) (game : Game) (player : Player)
  : GuessRecord :=
  mkGuessRecord (normalize guess)
    (WordService.evaluateGuess (normalize guess) (targetWord game))
    now (length (guesses player) + 1).

(** Every player of the game has at most six guesses, numbered from 1. *)
Definition numbered (kp : string * Player) : Prop :=
  length (guesses kp.2) <= 6 /\
  map guessNumber (guesses kp.2) = seq 1 (length (guesses kp.2)).

Definition capped (game : Game) : Prop := Forall numbered (players game).

Definition storeCapped (s : Redis.Store) : Prop :=
  forall k e g, s !! k = Some e -> Redis.value e = Redis.VGame g -> capped g.

Definition callCapped (c : GameService.Call) : Prop :=
  match c with
  | GameService.AtAcquire _ _ game _ _ | GameService.AtGetWinner _ _ game _ _
  | GameService.AtSetState _ _ game _ => capped game
  | _ => True
  end.

(** A guess with its word and letters blanked; the colours, the instant and
    the ordinal are kept. *)
Definition redactGuess (r : GuessRecord) : GuessRecord :=
  mkGuessRecord "" (map (fmap (fun c => mkCell None (color c))) (evaluation r))
                (timestamp r) (guessNumber r).

Definition redactPlayer (p : Player) : Player :=
  mkPlayer (id p) (username p) (elo p) (socketId p) (map redactGuess (guesses p))
           (isBot p) (botDifficulty p).

(** The game as [playerId] may know it: the guesses of the others blanked,
    the replay log dropped, and the target blanked unless the game is
    finished. *)
Definition redact (playerId : string) (game : Game) : Game :=
  mkGame (game_id game)
         (if bool_decide (status game = FINISHED) then targetWord game else "")
         (status game) (startTime game)
         (map (fun kp : string * Player =>
                 if bool_decide (kp.1 = playerId) then kp
                 else (kp.1, redactPlayer kp.2))
              (players game))
         [] (winner game) (endTime game).

(** Every row satisfies [wins + losses = gamesPlayed]. *)
Definition tally (db : EloService.Db) : Prop :=
  forall k u, EloService.users db !! k = Some u ->
    (EloService.u_wins u + EloService.u_losses u = EloService.u_gamesPlayed u)%Z.

(** The bot state after the updates [steps], each a guess and the pattern
    it was answered with. *)
Definition botUpdates (d : WordService.Dict) (difficulty target : string)
    (steps : list (string * string)) : BotService.Bot :=
  foldl (fun b gp => BotService.updateBotState b gp.1 gp.2)
        (BotService.createBotInstance d difficulty target) steps.

(** No entry of the history but the last is all green. *)
Definition stopsAtGreen (h : list BotService.Constraint) : Prop :=
  forall i c, h !! i = Some c -> S i < length h -> BotService.c_pattern c <> "GGGGG".

(* ===================================================================== *)
(** * Concrete matches                                                    *)
(* ===================================================================== *)

Module Scenario.

(** A small dictionary. *)
Definition dict : WordService.Dict :=
  WordService.initialize ["crane"; "slate"; "alloy"; "llama"; "about"]
                         ["salet"; "trace"; "crate"; "zones"].

(** [Math.random()] returning 0.37 at every call; [floor (0.37 * 657)] is
    243. *)
Definition draws (k : nat) : Draw := mkDraw (37 # 100) eq_refl.

Definition p1 : Player := mkPlayer "p1" "alice" 1200 (Some "sock-1") [] false None.
Definition p2 : Player := mkPlayer "p2" "bob" 1200 (Some "sock-2") [] false None.

(** A fresh match between two humans, target CRANE. *)
Definition game : Game :=
  mkGame "g1" "CRANE" ACTIVE 0 [("p1", p1); ("p2", p2)] [] None None.

Definition store : Redis.Store :=
  {[ Redis.gameKey "g1" := Redis.mkEntry (Redis.VGame game) 3600000 ]}.

(** The same match, won by [p1]. *)
Definition finishedStore : Redis.Store :=
  {[ Redis.gameKey "g1" :=
       Redis.mkEntry
         (Redis.VGame (GameService.withStatus game FINISHED (Some "p1") (Some 5%Z)))
         3600000 ]}.

Definition registry : SocketHandlers.Sockets :=
  SocketHandlers.mkSockets {[ "p1" := "sock-1"; "p2" := "sock-2" ]}
                           [("sock-1", "p1"); ("sock-2", "p2")].

(** Both players submit the target at the same instant. *)
Definition calls : list GameService.Call :=
  [GameService.AtGetGame "g1" "p1" "crane"; GameService.AtGetGame "g1" "p2" "crane"].

(** Both calls read the active match before either writes; [p1] claims
    first, [p2] loses the race. *)
Definition promptSchedule : list (nat * Z) :=
  [(0, 0%Z); (1, 0%Z); (0, 1%Z); (0, 2%Z); (1, 3%Z); (1, 4%Z); (1, 5%Z)].

(** [p1] submits the target while [p2] submits a wrong word; seventy
    seconds later [p2] submits the target. *)
Definition lateCalls : list GameService.Call :=
  [GameService.AtGetGame "g1" "p1" "crane"; GameService.AtGetGame "g1" "p2" "slate";
   GameService.AtGetGame "g1" "p2" "crane"].

(** The first two calls read the active match together; [p1] claims the
    win and writes the finished match, then the write of [p2]'s wrong guess
    (computed from the match as read) lands on top of it.  The third call
    starts after the lock key has expired. *)
Definition lateSchedule : list (nat * Z) :=
  [(0, 0%Z); (1, 0%Z); (0, 1%Z); (0, 2%Z); (1, 3%Z);
   (2, 70000%Z); (2, 70001%Z); (2, 70002%Z)].

Definition rec (target w : string) (n : nat) : GuessRecord :=
  mkGuessRecord w (WordService.evaluateGuess w target) (1000 * Z.of_nat n) n.

Definition sixGuesses (target w : string) : list GuessRecord :=
  map (rec target w) [1; 2; 3; 4; 5; 6].

(** A match against a hard bot that ended in a draw: both sides used their
    six guesses, nobody found CRANE. *)
Definition botDraw : Game :=
  mkGame "g1" "CRANE" FINISHED 0
    [("h", mkPlayer "h" "alice" 1400 (Some "sock-h") (sixGuesses "CRANE" "SLATE")
                    false None);
     ("bot_1", mkPlayer "bot_1" "WordBot Hard" 1400 None (sixGuesses "CRANE" "TRACE")
                        true (Some "hard"))]
    (map (ReplayGuess "h") (sixGuesses "CRANE" "SLATE")
     ++ map (ReplayGuess "bot_1") (sixGuesses "CRANE" "TRACE"))
    None (Some 6000%Z).

Definition sockets : SocketHandlers.Sockets :=
  SocketHandlers.mkSockets {[ "h" := "sock-h" ]} [("sock-h", "h")].

Definition db : EloService.Db :=
  EloService.mkDb {[ "h" := EloService.mkUserRow 1400 3 2 5 ]} [].

(** An active match of [h] against a hard bot, target CRANE. *)
Definition botGame : Game :=
  mkGame "g1" "CRANE" ACTIVE 0
    [("h", mkPlayer "h" "alice" 1400 (Some "sock-h") [] false None);
     ("bot_1", mkPlayer "bot_1" "WordBot Hard" 1400 None [] true (Some "hard"))]
    [] None None.

Definition botStore : Redis.Store :=
  {[ Redis.gameKey "g1" := Redis.mkEntry (Redis.VGame botGame) 3600000 ]}.

End Scenario.

(* ===================================================================== *)
(** * Proofs                                                              *)
(* ===================================================================== *)

(* ===================================================================== *)
(** * Colour evaluation *)
(* ===================================================================== *)

Ltac list5 l H :=
  do 5 (destruct l as [|? l]; [discriminate H|]); destruct l; [|discriminate H]; clear H.

Lemma first_pass_refines (g t : list ascii) :
  length g = 5 -> length t = 5 ->
  WordService.first_pass g t 5
  = (green_cells g (EvalSpec.first_pass g t), EvalSpec.first_pass g t).
Proof.
  intros Hg Ht. list5 g Hg. list5 t Ht.
  unfold WordService.first_pass, EvalSpec.first_pass, green_cells. simpl.
  unfold WordService.first_pass_step. simpl.
  repeat (case_bool_decide; simpl); try reflexivity; try congruence.
Qed.

Lemma find_unmatched_leftmost (g t : list ascii) (m : list bool) (i : nat) (c : ascii) :
  length t = 5 -> length m = 5 -> g !! i = Some c ->
  WordService.find_unmatched g t m i = EvalSpec.leftmost c t m.
Proof.
  intros Ht Hm Hg. list5 t Ht. list5 m Hm.
  unfold WordService.find_unmatched. rewrite Hg.
  assert (E : forall x : ascii, bool_decide (Some c = Some x) = bool_decide (x = c)).
  { intros x. apply bool_decide_ext. split; congruence. }
  cbn [seq List.find lookup list_lookup default from_option id EvalSpec.leftmost].
  unfold Datatypes.id. rewrite !E.
  repeat match goal with
         | |- context [negb ?b && bool_decide (?x = c)] =>
             destruct (negb b && bool_decide (x = c)); cbn [fmap option_fmap option_map]
         end; reflexivity.
Qed.

Lemma second_pass_loop (g t : list ascii) :
  length t = 5 ->
  forall (todo : list (ascii * bool)) (k : nat) (st : WordService.EvalState),
    length st.2 = 5 ->
    length st.1 = k + length todo ->
    (forall i c (b : bool), todo !! i = Some (c, b) ->
       g !! (k + i) = Some c /\
       st.1 !! (k + i) = Some (if b then Some (mkCell (Some c) green) else None)) ->
    (foldl (WordService.second_pass_step g t) st (seq k (length todo))).1
    = take k st.1 ++ cells todo (EvalSpec.second_pass t todo st.2).
Proof.
  intros Ht todo. induction todo as [|[c b] todo IH]; intros k st Hm Hlen Hcells.
  - simpl. rewrite take_ge by (simpl in Hlen; lia). by rewrite app_nil_r.
  - destruct (Hcells 0 c b eq_refl) as [Hg Hk]. rewrite Nat.add_0_r in Hg, Hk.
    assert (Hshift : forall l' : list (option Cell),
      (forall j, j ≠ k -> l' !! j = st.1 !! j) ->
      forall i c' (b' : bool), todo !! i = Some (c', b') ->
        g !! (S k + i) = Some c' /\
        l' !! (S k + i) = Some (if b' then Some (mkCell (Some c') green) else None)).
    { intros l' Hsame i c' b' Hi. destruct (Hcells (S i) c' b' Hi) as [H1 H2].
      replace (k + S i) with (S k + i) in H1, H2 by lia.
      split; [done|]. rewrite Hsame by lia. done. }
    cbn [length seq foldl]. simpl in Hlen.
    unfold WordService.second_pass_step at 2. rewrite Hk, Hg.
    destruct b.
    + rewrite IH; [| done | lia | by apply Hshift].
      rewrite (take_S_r _ _ _ Hk). cbn. by rewrite <- app_assoc.
    + rewrite (find_unmatched_leftmost g t st.2 k c) by done.
      cbn [EvalSpec.second_pass].
      destruct (EvalSpec.leftmost c t st.2) as [j|].
      * rewrite IH; cbn [fst snd].
        -- rewrite (take_S_r _ _ (Some (mkCell (Some c) yellow))).
           ++ rewrite take_insert_ge by lia. cbn. by rewrite <- app_assoc.
           ++ apply list_lookup_insert_eq. lia.
        -- by rewrite length_insert.
        -- rewrite length_insert. lia.
        -- apply Hshift. intros j' Hj'. by apply list_lookup_insert_ne.
      * rewrite IH; cbn [fst snd].
        -- rewrite (take_S_r _ _ (Some (mkCell (Some c) grey))).
           ++ rewrite take_insert_ge by lia. cbn. by rewrite <- app_assoc.
           ++ apply list_lookup_insert_eq. lia.
        -- done.
        -- rewrite length_insert. lia.
        -- apply Hshift. intros j' Hj'. by apply list_lookup_insert_ne.
Qed.

Lemma evaluate_refines (g t : list ascii) :
  length g = 5 -> length t = 5 ->
  (WordService.second_pass g t 5).1
  = cells (zip g (EvalSpec.first_pass g t)) (EvalSpec.evaluate g t).
Proof.
  intros Hg Ht. unfold WordService.second_pass.
  rewrite first_pass_refines by done.
  assert (Hf : length (EvalSpec.first_pass g t) = 5).
  { unfold EvalSpec.first_pass. rewrite length_zip_with. lia. }
  assert (Hz : length (zip g (EvalSpec.first_pass g t)) = 5).
  { rewrite length_zip_with. lia. }
  rewrite <- Hz at 1.
  rewrite (second_pass_loop g t Ht); cbn [fst snd].
  - by rewrite take_0.
  - done.
  - unfold green_cells. rewrite length_zip_with. lia.
  - intros i c b Hi. apply lookup_zip_Some in Hi as [H1 H2]. cbn.
    split; [done|]. unfold green_cells. rewrite lookup_zip_with, H1, H2. done.
Qed.

Lemma avail_cons c x t b m :
  avail c (x :: t) (b :: m)
  = (if negb b && bool_decide (x = c) then 1 else 0) + avail c t m.
Proof. unfold avail. cbn. by destruct (negb b && bool_decide (x = c)). Qed.

Lemma leftmost_None c t m : EvalSpec.leftmost c t m = None -> avail c t m = 0.
Proof.
  revert m. induction t as [|x t IH]; intros [|b m] H; try reflexivity.
  cbn in H. rewrite avail_cons.
  destruct (negb b && bool_decide (x = c)); [discriminate|].
  destruct (EvalSpec.leftmost c t m) eqn:E; [discriminate|].
  by apply IH.
Qed.

Lemma leftmost_Some c t m j :
  EvalSpec.leftmost c t m = Some j ->
  avail c t (<[j := true]> m) + 1 = avail c t m /\
  forall c', c' ≠ c -> avail c' t (<[j := true]> m) = avail c' t m.
Proof.
  revert m j. induction t as [|x t IH]; intros [|b m] j H; try discriminate.
  cbn in H. destruct (negb b && bool_decide (x = c)) eqn:E.
  - injection H as <-. apply andb_true_iff in E as [Eb Ex].
    apply negb_true_iff in Eb. apply bool_decide_eq_true in Ex. subst.
    change (<[0:=true]> (false :: m)) with (true :: m).
    split.
    + rewrite !avail_cons. rewrite bool_decide_eq_true_2 by done.
      cbn [negb andb]. lia.
    + intros c' Hc'. rewrite !avail_cons.
      rewrite bool_decide_eq_false_2 by congruence. done.
  - destruct (EvalSpec.leftmost c t m) as [j'|] eqn:El; [|discriminate].
    injection H as <-. destruct (IH m j' El) as [H1 H2].
    change (<[S j':=true]> (b :: m)) with (b :: <[j':=true]> m).
    rewrite !avail_cons, E. split.
    + lia.
    + intros c' Hc'. rewrite !avail_cons. rewrite (H2 c' Hc'). done.
Qed.

Lemma count_flag_cons L flag x (b : bool) todo :
  count_flag L flag ((x, b) :: todo)
  = (if bool_decide (x = L) && eqb b flag then 1 else 0) + count_flag L flag todo.
Proof. unfold count_flag. cbn. by destruct (bool_decide (x = L) && eqb b flag). Qed.

Lemma count_marked_cons L x col l :
  EvalSpec.count_marked L (Some (mkCell (Some x) col) :: l)
  = (if bool_decide (x = L) && match col with grey => false | _ => true end
     then 1 else 0)
    + EvalSpec.count_marked L l.
Proof.
  unfold EvalSpec.count_marked. cbn.
  assert (Ec : bool_decide (Some x = Some L) = bool_decide (x = L)).
  { apply bool_decide_ext. split; congruence. }
  rewrite Ec. by destruct (bool_decide (x = L)), col.
Qed.

Lemma count_letter_cons L x w :
  EvalSpec.count_letter L (x :: w)
  = (if bool_decide (x = L) then 1 else 0) + EvalSpec.count_letter L w.
Proof. unfold EvalSpec.count_letter. cbn. by destruct (bool_decide (x = L)). Qed.

#[local] Arguments avail : simpl never.
#[local] Arguments count_flag : simpl never.
#[local] Arguments EvalSpec.count_marked : simpl never.
#[local] Arguments EvalSpec.count_letter : simpl never.

Lemma count_marked_second_pass (L : ascii) (t : list ascii) todo m :
  EvalSpec.count_marked L (cells todo (EvalSpec.second_pass t todo m))
  = count_flag L true todo + Nat.min (count_flag L false todo) (avail L t m).
Proof.
  revert m. induction todo as [|[c b] todo IH]; intros m; [reflexivity|].
  rewrite !count_flag_cons. destruct b; cbn [EvalSpec.second_pass].
  - change (cells ((c, true) :: todo) (green :: ?l))
      with (Some (mkCell (Some c) green) :: cells todo l).
    rewrite count_marked_cons, IH.
    destruct (bool_decide (c = L)); cbn [andb eqb negb]; lia.
  - destruct (EvalSpec.leftmost c t m) as [j|] eqn:El.
    + change (cells ((c, false) :: todo) (yellow :: ?l))
        with (Some (mkCell (Some c) yellow) :: cells todo l).
      rewrite count_marked_cons, IH.
      destruct (leftmost_Some _ _ _ _ El) as [H1 H2].
      case_bool_decide as Hc; cbn [andb eqb negb].
      * subst c. lia.
      * rewrite H2 by congruence. lia.
    + change (cells ((c, false) :: todo) (grey :: ?l))
        with (Some (mkCell (Some c) grey) :: cells todo l).
      rewrite count_marked_cons, IH.
      apply leftmost_None in El.
      case_bool_decide as Hc; cbn [andb eqb negb].
      * subst c. rewrite El. lia.
      * lia.
Qed.

Lemma count_guess_split (L : ascii) (g t : list ascii) :
  length g = length t ->
  EvalSpec.count_letter L g
  = count_flag L true (zip g (EvalSpec.first_pass g t))
    + count_flag L false (zip g (EvalSpec.first_pass g t)).
Proof.
  revert t. induction g as [|x g IH]; intros [|y t] H; try discriminate; [reflexivity|].
  injection H as H. specialize (IH t H).
  change (zip (x :: g) (EvalSpec.first_pass (x :: g) (y :: t)))
    with ((x, bool_decide (x = y)) :: zip g (EvalSpec.first_pass g t)).
  rewrite !count_flag_cons, count_letter_cons.
  destruct (bool_decide (x = L)), (bool_decide (x = y)); cbn [andb eqb]; lia.
Qed.

Lemma count_target_split (L : ascii) (g t : list ascii) :
  length g = length t ->
  EvalSpec.count_letter L t
  = count_flag L true (zip g (EvalSpec.first_pass g t))
    + avail L t (EvalSpec.first_pass g t).
Proof.
  revert t. induction g as [|x g IH]; intros [|y t] H; try discriminate; [reflexivity|].
  injection H as H. specialize (IH t H).
  change (zip (x :: g) (EvalSpec.first_pass (x :: g) (y :: t)))
    with ((x, bool_decide (x = y)) :: zip g (EvalSpec.first_pass g t)).
  change (EvalSpec.first_pass (x :: g) (y :: t))
    with (bool_decide (x = y) :: EvalSpec.first_pass g t).
  rewrite count_flag_cons, count_letter_cons, avail_cons.
  destruct (decide (x = y)) as [<-|Hxy].
  - rewrite (bool_decide_eq_true_2 (x = x)) by done.
    destruct (bool_decide (x = L)); cbn [andb eqb negb]; lia.
  - rewrite (bool_decide_eq_false_2 (x = y)) by done.
    destruct (bool_decide (x = L)), (bool_decide (y = L)); cbn [andb eqb negb]; lia.
Qed.

Lemma evaluate_counts (L : ascii) (g t : list ascii) :
  length g = length t ->
  EvalSpec.count_marked L (cells (zip g (EvalSpec.first_pass g t)) (EvalSpec.evaluate g t))
  = Nat.min (EvalSpec.count_letter L g) (EvalSpec.count_letter L t).
Proof.
  intros H. unfold EvalSpec.evaluate. rewrite count_marked_second_pass.
  rewrite (count_guess_split L g t H), (count_target_split L g t H). lia.
Qed.

Lemma second_pass_length t todo m :
  length (EvalSpec.second_pass t todo m) = length todo.
Proof.
  revert m. induction todo as [|[c b] todo IH]; intros m; [done|].
  cbn [EvalSpec.second_pass]. destruct b; [cbn; by rewrite IH|].
  destruct (EvalSpec.leftmost c t m); cbn; by rewrite IH.
Qed.

Lemma evaluate_length (g t : list ascii) :
  length g = length t -> length (EvalSpec.evaluate g t) = length g.
Proof.
  intros H. unfold EvalSpec.evaluate. rewrite second_pass_length.
  unfold EvalSpec.first_pass. rewrite !length_zip_with. lia.
Qed.

Lemma upper_char_upper c : Js.is_upper c = true -> Js.upper_char c = c.
Proof.
  unfold Js.is_upper, Js.upper_char, Js.is_lower. intros H.
  apply andb_true_iff in H as [H1 H2].
  apply Nat.leb_le in H1, H2.
  destruct (97 <=? nat_of_ascii c) eqn:E; [|done].
  apply Nat.leb_le in E. lia.
Qed.

Lemma split_join l : Js.split (Js.join l) = l.
Proof. apply list_ascii_of_string_of_list_ascii. Qed.

Lemma join_split s : Js.join (Js.split s) = s.
Proof. apply string_of_list_ascii_of_string. Qed.

Lemma split_length s : length (Js.split s) = Js.length s.
Proof. induction s; cbn; [done|]. unfold Js.length in *. cbn. by f_equal. Qed.

Lemma toUpperCase_upper w :
  forallb Js.is_upper (Js.split w) = true -> Js.toUpperCase w = w.
Proof.
  intros H. unfold Js.toUpperCase.
  rewrite <- (join_split w) at 2. f_equal.
  induction (Js.split w) as [|c l IH]; [done|].
  cbn in *. apply andb_true_iff in H as [Hc Hl].
  by rewrite upper_char_upper, IH.
Qed.

Lemma cells_zip g flags cols :
  length g = length flags ->
  cells (zip g flags) cols
  = zip_with (fun c col => Some (mkCell (Some c) col)) g cols.
Proof.
  revert flags cols. induction g as [|c g IH]; intros [|b flags] [|col cols] H;
    try discriminate; try reflexivity.
  injection H as H. cbn. f_equal. by apply IH.
Qed.

Lemma colors_of_cells (g : list ascii) cols :
  length g = length cols ->
  colors_of (zip_with (fun c col => Some (mkCell (Some c) col)) g cols) = Some cols.
Proof.
  revert cols. induction g as [|c g IH]; intros [|col cols] H;
    try discriminate; try reflexivity.
  injection H as H. unfold colors_of in *. cbn. rewrite (IH cols H). done.
Qed.

(** C1.  For five-letter upper-case words, [evaluateGuess] returns five
    cells that carry the guess letters and the colours of the two-pass
    rule as the specification words it ([EvalSpec.evaluate]: GREEN where
    guess and target agree, those target positions consumed; then, left to
    right, YELLOW when an unconsumed target position holds the letter, the
    leftmost such position being consumed, else GREY).  Hence for every
    letter the number of non-GREY positions that hold it in the guess is the
    minimum of its occurrences in guess and target; and LLAMA against ALLOY
    gives YELLOW, GREEN, YELLOW, GREY, GREY. *)
Theorem evaluateGuess_two_pass_rule (guess target : string) :
  word5 guess -> word5 target ->
  let g := Js.split guess in
  let t := Js.split target in
  let result := WordService.evaluateGuess guess target in
  length result = 5 /\
  result = zip_with (fun c col => Some (mkCell (Some c) col)) g (EvalSpec.evaluate g t) /\
  colors_of result = Some (EvalSpec.evaluate g t) /\
  (forall L : ascii,
     EvalSpec.count_marked L result
     = Nat.min (EvalSpec.count_letter L g) (EvalSpec.count_letter L t)) /\
  colors_of (WordService.evaluateGuess "LLAMA" "ALLOY")
  = Some [yellow; green; yellow; grey; grey].
Proof.
  intros [Hg Ug] [Ht Ut] g t result.
  assert (Lg : length g = 5) by (unfold g; by rewrite split_length).
  assert (Lt : length t = 5) by (unfold t; by rewrite split_length).
  assert (Le : length (EvalSpec.evaluate g t) = 5)
    by (rewrite evaluate_length; congruence).
  assert (Lf : length (EvalSpec.first_pass g t) = 5).
  { unfold EvalSpec.first_pass. rewrite length_zip_with. lia. }
  assert (R : result = cells (zip g (EvalSpec.first_pass g t)) (EvalSpec.evaluate g t)).
  { unfold result, WordService.evaluateGuess.
    rewrite (toUpperCase_upper guess Ug), (toUpperCase_upper target Ut).
    by apply evaluate_refines. }
  assert (R' : result = zip_with (fun c col => Some (mkCell (Some c) col)) g
                                 (EvalSpec.evaluate g t)).
  { rewrite R. apply cells_zip. congruence. }
  split; [|split; [|split; [|split]]].
  - rewrite R', length_zip_with. lia.
  - exact R'.
  - rewrite R'. apply colors_of_cells. congruence.
  - intros L. rewrite R. apply evaluate_counts. congruence.
  - reflexivity.
Qed.

(** The hypotheses of C1 hold for LLAMA and ALLOY. *)
Lemma evaluateGuess_two_pass_rule_witness :
  word5 "LLAMA" /\ word5 "ALLOY" /\
  colors_of (WordService.evaluateGuess "LLAMA" "ALLOY")
  = Some (EvalSpec.evaluate (Js.split "LLAMA") (Js.split "ALLOY")).
Proof.
  assert (H1 : word5 "LLAMA") by (split; reflexivity).
  assert (H2 : word5 "ALLOY") by (split; reflexivity).
  split; [exact H1|]. split; [exact H2|].
  exact (proj1 (proj2 (proj2 (evaluateGuess_two_pass_rule "LLAMA" "ALLOY" H1 H2)))).
Defined.

(* ===================================================================== *)
(** * The constraint filter keeps the target *)
(* ===================================================================== *)

Lemma matchesConstraints_truthful target cs :
  Forall (truthful target) cs -> BotService.matchesConstraints target cs = true.
Proof.
  induction 1 as [|c cs Hc _ IH]; [done|].
  unfold BotService.matchesConstraints in *. cbn [forallb].
  rewrite IH, andb_true_r. apply bool_decide_eq_true. by rewrite Hc.
Qed.

Lemma botAfter_invariant d difficulty target gs :
  target ∈ WordService.answers d ->
  Forall (truthful target) (BotService.constraints (botAfter d difficulty target gs)) /\
  target ∈ BotService.possibleAnswers (botAfter d difficulty target gs).
Proof.
  intros Hin. unfold botAfter.
  induction gs as [|g gs IH] using rev_ind.
  - cbn. split; [constructor | exact Hin].
  - rewrite foldl_app. cbn [foldl]. destruct IH as [Hc Hp].
    set (b := foldl _ _ gs) in *.
    assert (Hc' : Forall (truthful target)
                    (BotService.constraints b
                     ++ [BotService.mkConstraint g (BotService.getPattern g target)])).
    { apply Forall_app. split; [done|]. by repeat constructor. }
    split; [exact Hc'|]. cbn.
    unfold BotService.filterPossibleAnswers.
    apply list_elem_of_In, filter_In. split.
    + by apply list_elem_of_In.
    + by apply matchesConstraints_truthful.
Qed.

(** C8.  For a target of the answer list and any difficulty, a fresh bot
    instance holds the whole answer list, and after any number of updates,
    each with an arbitrary guess and its true pattern against the target,
    the target is still among the possible answers. *)
Theorem target_stays_possible (d : WordService.Dict)
    (difficulty target : string) (gs : list string) :
  target ∈ WordService.answers d ->
  BotService.possibleAnswers (BotService.createBotInstance d difficulty target)
  = WordService.answers d /\
  forall prefix, prefix `prefix_of` gs ->
    target ∈ BotService.possibleAnswers (botAfter d difficulty target prefix).
Proof.
  intros Hin. split; [reflexivity|]. intros p _.
  by apply botAfter_invariant.
Qed.

(** C8 at target ALLOY, after the guesses SALET and LLAMA. *)
Lemma target_stays_possible_witness :
  "ALLOY" ∈ BotService.possibleAnswers (botAfter Scenario.dict "hard" "ALLOY" ["SALET"; "LLAMA"]).
Proof.
  refine (proj2 (target_stays_possible Scenario.dict "hard" "ALLOY" ["SALET"; "LLAMA"] _) _ _).
  - vm_compute. apply list_elem_of_In. cbn. tauto.
  - done.
Defined.

(* ===================================================================== *)
(** * Bot fallback *)
(* ===================================================================== *)

Lemma draw_bounds (r : Draw) : (0 <= draw r)%Q /\ (draw r < 1)%Q.
Proof.
  pose proof (draw_range r) as H. apply andb_true_iff in H as [H1 H2].
  apply Qle_bool_iff in H1. split; [done|].
  apply negb_true_iff in H2. apply Qnot_le_lt. intros H.
  apply Qle_bool_iff in H. congruence.
Qed.

Lemma random_index_lt (r : Draw) (n : nat) :
  0 < n -> Js.random_index (draw r) n < n.
Proof.
  intros Hn. destruct (draw_bounds r) as [H0 H1]. unfold Js.random_index.
  set (q := (draw r * inject_Z (Z.of_nat n))%Q).
  assert (Hq : (q < inject_Z (Z.of_nat n))%Q).
  { unfold q. rewrite <- (Qmult_1_l (inject_Z (Z.of_nat n))) at 2.
    apply Qmult_lt_compat_r; [|done].
    change 0%Q with (inject_Z 0). rewrite <- Zlt_Qlt. lia. }
  assert (Hf : (Qfloor q < Z.of_nat n)%Z).
  { rewrite Zlt_Qlt. eapply Qle_lt_trans; [apply Qfloor_le | exact Hq]. }
  lia.
Qed.

Lemma first_guess_opener (d : WordService.Dict) (log2 : Q -> Q)
    (difficulty : string) (possibleAnswers : list string)
    (rnd : nat -> Draw) (n : nat) :
  difficulty <> "easy" ->
  exists w,
    (BotService.selectGuess d log2 difficulty possibleAnswers [] 1 rnd n).1 = Word w /\
    w ∈ BotService.OPTIMAL_FIRST_GUESSES.
Proof.
  intros Hne. unfold BotService.selectGuess. cbn [Nat.eqb length andb].
  destruct (decide (difficulty = "easy")) as [|_]; [done|].
  unfold randomIndex, random, mbind, Rand_bind, mret, Rand_ret. cbn.
  set (i := Js.random_index (draw (rnd n)) 5).
  assert (Hi : i < 5) by (apply random_index_lt; lia).
  unfold pick.
  destruct i as [|[|[|[|[|i]]]]]; try lia; cbn; eexists; (split; [reflexivity|]);
    apply list_elem_of_In; cbn; tauto.
Qed.

(** C9.  [createBotOpponent] follows the table: below 900 an easy bot rated
    800, 900 to 1199 a medium bot rated 1100, 1200 to 1499 a hard bot rated
    1400, from 1500 an impossible bot rated 1800; and for every difficulty
    other than easy, the guess selected for guess number 1 without
    constraints is one of SALET, CRANE, SLATE, TRACE, CRATE, whatever
    [Math.random()] returns. *)
Theorem bot_fallback_table (d : WordService.Dict) (log2 : Q -> Q)
    (uuid : string) (playerElo : Z) (difficulty : string)
    (possibleAnswers : list string) (rnd : nat -> Draw) (n : nat) :
  let bot := MatchmakingService.createBotOpponent uuid playerElo in
  pi_isBot bot = true /\
  ((playerElo < 900)%Z ->
     pi_botDifficulty bot = Some "easy" /\ pi_elo bot = 800%Z) /\
  ((900 <= playerElo <= 1199)%Z ->
     pi_botDifficulty bot = Some "medium" /\ pi_elo bot = 1100%Z) /\
  ((1200 <= playerElo <= 1499)%Z ->
     pi_botDifficulty bot = Some "hard" /\ pi_elo bot = 1400%Z) /\
  ((1500 <= playerElo)%Z ->
     pi_botDifficulty bot = Some "impossible" /\ pi_elo bot = 1800%Z) /\
  (difficulty <> "easy" ->
   exists w,
     (BotService.selectGuess d log2 difficulty possibleAnswers [] 1 rnd n).1 = Word w /\
     w ∈ BotService.OPTIMAL_FIRST_GUESSES).
Proof.
  intros bot. unfold bot, MatchmakingService.createBotOpponent.
  destruct (playerElo <? 900)%Z eqn:E1; [apply Z.ltb_lt in E1|apply Z.ltb_ge in E1];
  (destruct (playerElo <? 1200)%Z eqn:E2; [apply Z.ltb_lt in E2|apply Z.ltb_ge in E2]);
  (destruct (playerElo <? 1500)%Z eqn:E3; [apply Z.ltb_lt in E3|apply Z.ltb_ge in E3]);
  cbn [pi_isBot pi_botDifficulty pi_elo];
  (split; [reflexivity|]);
  (split; [intros ?; first [by split | lia]|]);
  (split; [intros ?; first [by split | lia]|]);
  (split; [intros ?; first [by split | lia]|]);
  (split; [intros ?; first [by split | lia]|]).
  all: by apply first_guess_opener.
Qed.

(** C9 for a player rated 1350. *)
Lemma bot_fallback_table_witness :
  (1200 <= 1350 <= 1499)%Z /\ "hard" <> "easy" /\
  pi_botDifficulty (MatchmakingService.createBotOpponent "u" 1350) = Some "hard" /\
  pi_elo (MatchmakingService.createBotOpponent "u" 1350) = 1400%Z /\
  exists w,
    (BotService.selectGuess Scenario.dict (fun q => q) "hard" [] [] 1 Scenario.draws 0).1 = Word w /\
    w ∈ BotService.OPTIMAL_FIRST_GUESSES.
Proof.
  assert (H1 : (1200 <= 1350 <= 1499)%Z) by lia.
  assert (H2 : "hard" <> "easy") by discriminate.
  pose proof (bot_fallback_table Scenario.dict (fun q => q) "u" 1350 "hard" [] Scenario.draws 0) as T.
  destruct T as (_ & _ & _ & T3 & _ & T5).
  split; [exact H1|]. split; [exact H2|].
  split; [exact (proj1 (T3 H1))|]. split; [exact (proj2 (T3 H1))|].
  exact (T5 H2).
Defined.

(** C10.  When the stored match is absent or not ACTIVE (a finished match
    in particular), [forfeitGame] returns [null] and leaves the store as it
    was: no write, and the recorded winner stays. *)
Theorem forfeit_inactive_is_noop (t1 t2 : Z) (s : Redis.Store)
    (gameId forfeitPlayerId : string) :
  (Redis.getGameState t1 gameId s = None \/
   exists game, Redis.getGameState t1 gameId s = Some (Redis.VGame game) /\
                status game <> ACTIVE) ->
  GameService.forfeitGame t1 t2 s gameId forfeitPlayerId = (None, s).
Proof.
  unfold GameService.forfeitGame. intros [-> | (game & -> & Hst)]; [done|].
  rewrite bool_decide_eq_false_2 by done. done.
Qed.

(* ===================================================================== *)
(** * Guess selection *)
(* ===================================================================== *)

Lemma stable_insert_perm {A} (before : A -> A -> bool) x l :
  stable_insert before x l ≡ₚ x :: l.
Proof.
  induction l as [|y l IH]; cbn; [done|].
  destruct (before y x); [|done]. rewrite IH. apply Permutation_swap.
Qed.

Lemma stable_sort_perm {A} (before : A -> A -> bool) l :
  stable_sort before l ≡ₚ l.
Proof.
  unfold stable_sort. induction l as [|x l IH]; cbn; [done|].
  by rewrite stable_insert_perm, IH.
Qed.

Lemma pick_in (arr : list string) i :
  i < length arr -> exists w, pick arr i = Word w /\ w ∈ arr.
Proof.
  intros Hi. unfold pick. destruct (arr !! i) as [w|] eqn:E.
  - exists w. split; [done|]. by eapply list_elem_of_lookup_2.
  - apply lookup_ge_None in E. lia.
Qed.

Lemma randomIndex_lt (k : nat) rnd n :
  0 < k -> (randomIndex k rnd n).1 < k.
Proof.
  intros Hk. unfold randomIndex, random, mbind, Rand_bind, mret, Rand_ret.
  cbv beta iota. unfold fst. by apply random_index_lt.
Qed.

Lemma chooseWasteWord_valid (vg : list string) cs common rnd n :
  vg <> [] ->
  let r := (BotService.chooseWasteWord vg cs common rnd n).1 in
  (exists w, r.1 = Word w /\ w ∈ vg) /\ r.2 ≡ₚ vg.
Proof.
  intros Hne. unfold BotService.chooseWasteWord.
  unfold randomIndex, random, mbind, Rand_bind, mret, Rand_ret.
  set (pool0 := if common then _ else _).
  set (pool1 := BotService.filterPossibleAnswers pool0 cs).
  assert (H0 : forall w, w ∈ pool0 -> w ∈ vg).
  { intros w. unfold pool0. destruct common; [|done].
    rewrite !list_elem_of_In, filter_In. tauto. }
  assert (H1 : forall w, w ∈ pool1 -> w ∈ vg).
  { intros w Hw. apply H0. unfold pool1, BotService.filterPossibleAnswers in Hw.
    rewrite !list_elem_of_In, filter_In in *. tauto. }
  set (pool2 := if length pool1 =? 0 then vg else pool1).
  assert (H2 : (forall w, w ∈ pool2 -> w ∈ vg) /\ pool2 <> []).
  { unfold pool2. destruct (length pool1 =? 0) eqn:E; [done|].
    split; [done|]. apply Nat.eqb_neq in E. by destruct pool1. }
  destruct H2 as [H2 Hne2].
  set (pool := stable_sort _ pool2).
  assert (Hp : pool ≡ₚ pool2) by apply stable_sort_perm.
  set (top := take _ pool).
  assert (Htop : 0 < length top).
  { unfold top. rewrite length_take.
    assert (0 < length pool); [|lia].
    rewrite Hp. destruct pool2; [done | cbn; lia]. }
  cbv beta iota zeta. unfold fst, snd.
  set (i := Js.random_index (draw (rnd n)) (length top)).
  assert (Hi : i < length top) by (by apply random_index_lt).
  destruct (pick_in top i Hi) as (w & Hw & Hin). split.
  - exists w. split; [done|]. apply H2. rewrite <- Hp.
    unfold top in Hin. apply elem_of_take in Hin as (j & Hj & _).
    by eapply list_elem_of_lookup_2.
  - destruct (length pool1 =? 0) eqn:E; [|done].
    rewrite Hp. unfold pool2. by rewrite ?E.
Qed.

Lemma always_ret {A} (a : A) (P : A -> Prop) : P a -> always (mret a) P.
Proof. intros H rnd n. exact H. Qed.

Lemma always_bind {A B} (m : Rand A) (k : A -> Rand B) (Q : A -> Prop)
    (P : B -> Prop) :
  always m Q -> (forall a, Q a -> always (k a) P) -> always (m ≫= k) P.
Proof.
  intros Hm Hk rnd n. unfold mbind, Rand_bind.
  specialize (Hm rnd n). destruct (m rnd n) as [a n']. by apply Hk.
Qed.

Lemma always_weaken {A} (m : Rand A) (P Q : A -> Prop) :
  always m P -> (forall a, P a -> Q a) -> always m Q.
Proof. intros H HPQ rnd n. apply HPQ, H. Qed.

Lemma always_true {A} (m : Rand A) : always m (fun _ => True).
Proof. by intros rnd n. Qed.

Lemma always_randomIndex k : 0 < k -> always (randomIndex k) (fun i => i < k).
Proof. intros Hk rnd n. by apply randomIndex_lt. Qed.

Lemma always_chooseWasteWord vg cs common :
  vg <> [] ->
  always (BotService.chooseWasteWord vg cs common)
         (fun r => (exists w, r.1 = Word w /\ w ∈ vg) /\ r.2 ≡ₚ vg).
Proof. intros Hne rnd n. by apply chooseWasteWord_valid. Qed.

Lemma always_sampleCandidates k vg cands :
  always (BotService.sampleCandidates k vg cands)
         (fun r => (forall w, w ∈ r -> w ∈ cands \/ w ∈ vg) /\ (cands <> [] -> r <> [])).
Proof.
  revert cands. induction k as [|k IH]; intros cands.
  - apply always_ret. split; [auto | done].
  - cbn [BotService.sampleCandidates].
    eapply always_bind; [apply always_true|]. intros idx _.
    eapply always_weaken; [apply IH|]. cbn beta.
    intros r [H1 H2]. split.
    + intros w Hw. destruct (H1 w Hw) as [Hc|Hv]; [|by right].
      destruct (vg !! idx) as [x|] eqn:E; [|by left].
      case_bool_decide; [by left|].
      apply elem_of_app in Hc as [Hc|Hc]; [by left|].
      apply list_elem_of_singleton in Hc as ->. right.
      by eapply list_elem_of_lookup_2.
    + intros Hne. apply H2.
      destruct (vg !! idx); [|done]. case_bool_decide; [done|].
      by destruct cands.
Qed.

Lemma always_scoreAll log2 pa vgs noise :
  always (BotService.scoreAll log2 pa vgs noise)
         (fun scores => map BotService.s_word scores = vgs).
Proof.
  induction vgs as [|g vgs IH]; cbn [BotService.scoreAll].
  - by apply always_ret.
  - eapply always_bind; [apply always_true|]. intros jitter _.
    eapply always_bind; [apply IH|]. intros scores Hs.
    apply always_ret. cbn. by rewrite Hs.
Qed.

Lemma always_getBest log2 pa vgs k noise :
  always (BotService.getBestGuessesByEntropy log2 pa vgs (Some (S k)) noise)
         (fun top => (forall g, g ∈ top -> BotService.s_word g ∈ vgs) /\
                     (vgs <> [] -> top <> [])).
Proof.
  unfold BotService.getBestGuessesByEntropy.
  eapply always_bind; [apply always_scoreAll|]. intros scores Hs.
  apply always_ret. cbn [default from_option id].
  set (sorted := stable_sort _ scores).
  assert (Hp : sorted ≡ₚ scores) by apply stable_sort_perm.
  split.
  - intros g Hg. apply elem_of_take in Hg as (j & Hj & _).
    apply list_elem_of_lookup_2 in Hj. rewrite Hp in Hj.
    rewrite <- Hs. by apply list_elem_of_fmap_2.
  - intros Hne. assert (Hl : 0 < length sorted).
    { rewrite Hp. rewrite <- (length_map BotService.s_word), Hs.
      destruct vgs; [done | cbn; lia]. }
    destruct sorted; [cbn in Hl; lia | done].
Qed.

Lemma topN_positive difficulty t :
  BotService.topN (BotService.configOf difficulty) = Some t -> exists k, t = S k.
Proof.
  unfold BotService.configOf, BotService.DIFFICULTIES.
  repeat case_decide; cbn; intros [= <-]; eauto.
Qed.

Lemma pick_valid d (arr : list string) i :
  (forall w, w ∈ arr -> w ∈ WordService.validGuesses d) ->
  i < length arr -> validWord d (pick arr i).
Proof.
  intros Hsub Hi. destruct (pick_in arr i Hi) as (w & Hw & Hin).
  exists w. split; [done | by apply Hsub].
Qed.

Lemma always_waste d vg cs common :
  vg <> [] -> vg ≡ₚ WordService.validGuesses d ->
  always (BotService.chooseWasteWord vg cs common)
         (fun r => validWord d r.1 /\ r.2 ≡ₚ WordService.validGuesses d).
Proof.
  intros Hne Hp. eapply always_weaken; [by apply always_chooseWasteWord|].
  cbn beta. intros r [(w & Hw & Hin) Hr]. split.
  - exists w. split; [done|]. by rewrite <- Hp.
  - by rewrite Hr.
Qed.

Lemma perm_nonempty {A} (l k : list A) : l ≡ₚ k -> k <> [] -> l <> [].
Proof. intros Hp Hk ->. apply Permutation_nil in Hp. done. Qed.

(** After the opening guess, and at the opening guess of every bot but the
    easy one, [selectGuess] returns a valid guess: provided some answer is
    still possible, the possible answers are valid guesses, and so are the
    five openers. *)
Lemma selectGuess_valid_after_opening (d : WordService.Dict) (log2 : Q -> Q)
    (difficulty : string) (pa : list string) (cs : list BotService.Constraint)
    (gn : nat) :
  pa <> [] ->
  (forall w, w ∈ pa -> w ∈ WordService.validGuesses d) ->
  (forall w, w ∈ BotService.OPTIMAL_FIRST_GUESSES -> w ∈ WordService.validGuesses d) ->
  ~ (difficulty = "easy" /\ gn = 1 /\ cs = []) ->
  always (BotService.selectGuess d log2 difficulty pa cs gn) (validWord d).
Proof.
  intros Hpa Hsub Hopen Hnot.
  assert (Hvg : WordService.validGuesses d <> []).
  { destruct pa as [|w pa]; [done|]. intros E.
    specialize (Hsub w (list_elem_of_here _ _)). rewrite E in Hsub.
    by apply elem_of_nil in Hsub. }
  unfold BotService.selectGuess, WordService.getAllValidGuesses.
  set (cfg := BotService.configOf difficulty).
  set (vg := WordService.validGuesses d) in *.
  set (fa := if BotService.useCommonFilter cfg then _ else pa).
  assert (Hfa : fa <> [] /\ forall w, w ∈ fa -> w ∈ vg).
  { unfold fa. destruct (BotService.useCommonFilter cfg); [|done].
    destruct (length (List.filter BotService.isCommon pa) =? 0) eqn:E; [done|].
    apply Nat.eqb_neq in E. split; [by destruct (List.filter _ pa)|].
    intros w Hw. apply Hsub. rewrite !list_elem_of_In, filter_In in *. tauto. }
  destruct Hfa as [Hfa Hfasub].
  assert (Hlen : 0 < length fa) by (destruct fa; [done | cbn; lia]).
  assert (Hwaste : forall common,
    always (w ← BotService.chooseWasteWord vg cs common; mret (fst w)) (validWord d)).
  { intros common.
    eapply (always_bind _ _ (fun r => validWord d r.1 /\ r.2 ≡ₚ vg));
      [by apply always_waste|].
    intros r [Hr _]. by apply always_ret. }
  destruct ((gn =? 1) && (length cs =? 0)) eqn:Efirst.
  { apply andb_true_iff in Efirst as [E1 E2].
    apply Nat.eqb_eq in E1, E2. destruct cs; [|done].
    destruct (decide (difficulty = "easy")) as [He|He]; [by destruct Hnot|].
    eapply always_bind; [apply always_randomIndex; cbn; lia|].
    intros i Hi. cbn beta in Hi. apply always_ret. by apply pick_valid. }
  destruct (length fa =? 1) eqn:E1.
  { destruct (gn <? BotService.minSolveGuess cfg); [apply Hwaste|].
    apply always_ret. apply pick_valid; [done | lia]. }
  destruct (length fa =? 2) eqn:E2.
  { destruct (gn <? BotService.minSolveGuess cfg); [apply Hwaste|].
    apply Nat.eqb_eq in E2.
    eapply always_bind; [apply (always_randomIndex 2); lia|].
    intros i Hi. cbn beta in Hi. apply always_ret. apply pick_valid; [done | lia]. }
  assert (Hstage : forall (guess : Picked) (waste : bool) (common : bool) (again : Picked -> bool),
    validWord d guess ->
    always (g1 ← (if waste then BotService.chooseWasteWord vg cs common
                  else mret (guess, vg));
            g2 ← (if again (fst g1)
                  then BotService.chooseWasteWord (snd g1) cs common
                  else mret g1);
            mret (fst g2)) (validWord d)).
  { intros guess waste common again Hg.
    eapply (always_bind _ _ (fun r => validWord d r.1 /\ r.2 ≡ₚ vg)).
    - destruct waste; [by apply always_waste | by apply always_ret].
    - intros g1 [Hg1 Hp1].
      eapply (always_bind _ _ (fun r => validWord d r.1 /\ r.2 ≡ₚ vg)).
      + destruct (again (fst g1)); [|by apply always_ret].
        apply always_waste; [by eapply perm_nonempty | done].
      + intros g2 [Hg2 _]. by apply always_ret. }
  destruct (bool_decide (difficulty = "easy") || bool_decide (BotService.topN cfg = None))
    eqn:Eeasy.
  { set (pool := if length fa =? 0 then pa else fa).
    assert (Hpool : 0 < length pool /\ forall w, w ∈ pool -> w ∈ vg).
    { unfold pool. destruct (length fa =? 0); [|done].
      split; [destruct pa; [done | cbn; lia] | done]. }
    destruct Hpool as [Hpl Hpsub].
    eapply always_bind; [by apply always_randomIndex|]. intros i Hi. cbn beta in Hi.
    eapply always_bind; [apply always_true|]. intros waste _.
    apply (Hstage (pick pool i) waste true
             (fun _ => gn <? BotService.minSolveGuess cfg)).
    by apply pick_valid. }
  apply orb_false_iff in Eeasy as [_ Etop].
  apply bool_decide_eq_false in Etop.
  destruct (BotService.topN cfg) as [t|] eqn:Et; [|done].
  destruct (topN_positive difficulty t Et) as [k ->].
  eapply always_bind; [apply always_sampleCandidates|]. intros cands [Hc1 Hc2].
  assert (Hcsub : forall w, w ∈ cands -> w ∈ vg).
  { intros w Hw. destruct (Hc1 w Hw); auto. }
  eapply always_bind; [apply always_getBest|]. intros top [Ht1 Ht2].
  specialize (Ht2 (Hc2 Hfa)).
  assert (Htop : forall (l : list BotService.Score) i,
    (forall g, g ∈ l -> g ∈ top) -> i < length l ->
    exists g, l !! i = Some g /\ validWord d (Word (BotService.s_word g))).
  { intros l i Hl Hi. destruct (l !! i) as [g|] eqn:E.
    - exists g. split; [done|]. exists (BotService.s_word g). split; [done|].
      apply Hcsub, Ht1, Hl. by eapply list_elem_of_lookup_2.
    - apply lookup_ge_None in E. lia. }
  set (cm := List.filter _ top).
  destruct (BotService.useCommonFilter cfg && negb (length cm =? 0)) eqn:Ecm.
  { apply andb_true_iff in Ecm as [_ Ecm]. apply negb_true_iff, Nat.eqb_neq in Ecm.
    eapply always_bind; [apply always_randomIndex; lia|]. intros i Hi. cbn beta in Hi.
    apply always_ret. destruct (Htop cm i) as (g & -> & Hg); [|done|done].
    intros g Hg. unfold cm in Hg. rewrite !list_elem_of_In, filter_In in *. tauto. }
  assert (Hl : 0 < length top) by (destruct top; [done | cbn; lia]).
  destruct (decide (difficulty = "impossible")).
  { apply always_ret. by destruct (Htop top 0) as (g & -> & Hg). }
  eapply always_bind; [by apply always_randomIndex|]. intros i Hi. cbn beta in Hi.
  destruct (Htop top i) as (g & -> & Hg); [done | done |].
  eapply always_bind; [apply always_true|]. intros waste _.
  apply (Hstage (Word (BotService.s_word g)) waste (BotService.useCommonFilter cfg)
           (fun x => (gn <? BotService.minSolveGuess cfg) && BotService.includes fa x)).
  exact Hg.
Qed.

Lemma setOf_elem (l : list string) (x : string) : x ∈ WordService.setOf l <-> x ∈ l.
Proof.
  unfold WordService.setOf.
  assert (H : forall acc, x ∈ foldl (fun acc y => if bool_decide (y ∈ acc) then acc
                                                  else acc ++ [y]) acc l
                          <-> x ∈ acc \/ x ∈ l).
  { induction l as [|y l IH]; intros acc; cbn [foldl].
    - rewrite elem_of_nil. tauto.
    - rewrite IH, elem_of_cons. case_bool_decide as Hy.
      + split; [tauto|]. intros [?|[->|?]]; auto.
      + rewrite elem_of_app, list_elem_of_singleton. tauto. }
  rewrite H, elem_of_nil. tauto.
Qed.

Lemma initialize_answers_valid (answersJson guessesJson : list string) (w : string) :
  let d := WordService.initialize answersJson guessesJson in
  w ∈ WordService.answers d -> w ∈ WordService.validGuesses d.
Proof.
  intros d Hw. unfold d, WordService.initialize in *. cbn in *.
  apply setOf_elem, elem_of_app. by right.
Qed.

Lemma botAfter_shape d difficulty target gs :
  length (BotService.constraints (botAfter d difficulty target gs)) = length gs /\
  forall w, w ∈ BotService.possibleAnswers (botAfter d difficulty target gs) ->
            w ∈ WordService.answers d.
Proof.
  unfold botAfter. induction gs as [|g gs IH] using rev_ind.
  - cbn. done.
  - rewrite foldl_app. cbn [foldl]. destruct IH as [Hl Hs].
    set (b := foldl _ _ gs) in *. cbn. split.
    + rewrite !length_app, Hl. done.
    + intros w Hw. apply Hs. unfold BotService.filterPossibleAnswers in Hw.
      rewrite !list_elem_of_In, filter_In in *. tauto.
Qed.

(** For a bot that plays against a target of the answer list, every guess
    selected is a valid guess, the opening guess of the easy bot excepted
    (answers and openers being valid guesses). *)
Lemma reachable_guess_valid (d : WordService.Dict) (log2 : Q -> Q)
    (difficulty target : string) (gs : list string) (gn : nat) :
  target ∈ WordService.answers d ->
  (forall w, w ∈ WordService.answers d -> w ∈ WordService.validGuesses d) ->
  (forall w, w ∈ BotService.OPTIMAL_FIRST_GUESSES -> w ∈ WordService.validGuesses d) ->
  ~ (difficulty = "easy" /\ gn = 1 /\ gs = []) ->
  let bot := botAfter d difficulty target gs in
  always (BotService.selectGuess d log2 difficulty (BotService.possibleAnswers bot)
            (BotService.constraints bot) gn)
         (validWord d).
Proof.
  intros Ht Hans Hopen Hnot bot.
  destruct (botAfter_shape d difficulty target gs) as [Hl Hs].
  destruct (botAfter_invariant d difficulty target gs Ht) as [_ Hin].
  apply selectGuess_valid_after_opening.
  - fold bot in Hin. intros E. rewrite E in Hin. by apply elem_of_nil in Hin.
  - intros w Hw. by apply Hans, Hs.
  - exact Hopen.
  - intros (He & Hg & Hc). apply Hnot. split_and!; try done.
    unfold bot in Hc. rewrite Hc in Hl. by destruct gs.
Qed.

(* ===================================================================== *)
(** * Validation of guesses *)
(* ===================================================================== *)

Lemma upper_char_idem c : Js.upper_char (Js.upper_char c) = Js.upper_char c.
Proof. destruct c as [[] [] [] [] [] [] [] []]; reflexivity. Qed.

Lemma trim_start_Forall (P : ascii -> Prop) l : Forall P l -> Forall P (Js.trim_start l).
Proof.
  induction 1 as [|c l Hc Hl IH]; cbn; [constructor|].
  destruct (Js.is_space c); [done | by constructor].
Qed.

Lemma toUpperCase_fixed l :
  Forall (fun c => Js.upper_char c = c) l -> Js.toUpperCase (Js.join l) = Js.join l.
Proof.
  intros H. unfold Js.toUpperCase. rewrite split_join. f_equal.
  induction H as [|c l Hc _ IH]; cbn; [done|]. by rewrite Hc, IH.
Qed.

Lemma toUpperCase_normalize guess :
  Js.toUpperCase (normalize guess) = normalize guess.
Proof.
  unfold normalize, Js.trim. apply toUpperCase_fixed.
  apply Forall_rev, trim_start_Forall, Forall_rev, trim_start_Forall.
  unfold Js.toUpperCase. rewrite split_join.
  apply Forall_forall. intros c Hc. apply list_elem_of_In, in_map_iff in Hc as (x & <- & _).
  apply upper_char_idem.
Qed.

Lemma afterGetGame_accepts d now s gameId playerId guess :
  acceptable d now s gameId playerId guess ->
  match GameService.afterGetGame d now gameId playerId guess
          (Redis.getGameState now gameId s) with
  | GameService.AtAcquire _ _ _ _ _ | GameService.AtSetState _ _ _ _ => True
  | _ => False
  end.
Proof.
  intros (game & player & -> & Hst & Hp & Hlen & Hv & Hg).
  unfold GameService.afterGetGame. fold (normalize guess).
  rewrite (bool_decide_eq_true_2 _ Hst), Hp, Hlen. cbn [negb Nat.eqb].
  unfold WordService.isValidGuess. rewrite toUpperCase_normalize.
  rewrite (bool_decide_eq_true_2 _ Hv). cbn [negb].
  destruct (GameService.MAX_GUESSES <=? length (guesses player)) eqn:E.
  { apply Nat.leb_le in E. lia. }
  destruct (WordService.isCorrectGuess _ _); [done|].
  by destruct (GameService.conclude _ _ _ _ _ _ _).
Qed.

Lemma afterGetGame_rejects d now s gameId playerId guess :
  playerId ∉ Js.inherited ->
  ~ acceptable d now s gameId playerId guess ->
  exists err,
    GameService.afterGetGame d now gameId playerId guess
      (Redis.getGameState now gameId s) = GameService.Returned (GameService.Rejected err).
Proof.
  intros Hk Hn. unfold GameService.afterGetGame. fold (normalize guess).
  destruct (Redis.getGameState now gameId s) as [[game|w]|] eqn:Hs; [|by eexists..].
  case_bool_decide as Hst; cbn [negb]; [|by eexists].
  destruct (lookupPlayer playerId (players game)) as [player|] eqn:Hp.
  2:{ rewrite (bool_decide_eq_false_2 _ Hk). by eexists. }
  destruct (Js.length (normalize guess) =? 5) eqn:Hlen; cbn [negb]; [|by eexists].
  apply Nat.eqb_eq in Hlen.
  unfold WordService.isValidGuess. rewrite toUpperCase_normalize.
  case_bool_decide as Hv; cbn [negb]; [|by eexists].
  destruct (GameService.MAX_GUESSES <=? length (guesses player)) eqn:E; [by eexists|].
  apply Nat.leb_gt in E. exfalso. apply Hn. by exists game, player.
Qed.

(** Without the six conditions a call never gets as far as a store
    operation: it returns an error or throws. *)
Lemma afterGetGame_refuses d now s gameId playerId guess :
  ~ acceptable d now s gameId playerId guess ->
  (exists err,
     GameService.afterGetGame d now gameId playerId guess
       (Redis.getGameState now gameId s) = GameService.Returned (GameService.Rejected err)) \/
  GameService.afterGetGame d now gameId playerId guess
    (Redis.getGameState now gameId s) = GameService.Thrown.
Proof.
  intros Hn. destruct (decide (playerId ∈ Js.inherited)) as [Hk|Hk];
    [|left; by apply afterGetGame_rejects].
  unfold GameService.afterGetGame. fold (normalize guess).
  destruct (Redis.getGameState now gameId s) as [[game|w]|] eqn:Hs; [|left; by eexists..].
  case_bool_decide as Hst; cbn [negb]; [|left; by eexists].
  destruct (lookupPlayer playerId (players game)) as [player|] eqn:Hp.
  2:{ rewrite (bool_decide_eq_true_2 _ Hk).
      destruct (negb (Js.length (normalize guess) =? 5)); [left; by eexists|].
      destruct (negb (WordService.isValidGuess d (normalize guess)));
        [left; by eexists|by right]. }
  destruct (Js.length (normalize guess) =? 5) eqn:Hlen; cbn [negb]; [|left; by eexists].
  apply Nat.eqb_eq in Hlen.
  unfold WordService.isValidGuess. rewrite toUpperCase_normalize.
  case_bool_decide as Hv; cbn [negb]; [|left; by eexists].
  destruct (GameService.MAX_GUESSES <=? length (guesses player)) eqn:E;
    [left; by eexists|].
  apply Nat.leb_gt in E. exfalso. apply Hn. by exists game, player.
Qed.

Lemma run_cons d t times s c :
  GameService.run d (t :: times) s c
  = let '(s', c', _) := GameService.step d t s c in GameService.run d times s' c'.
Proof. reflexivity. Qed.

Lemma run_returned d times s r :
  GameService.run d times s (GameService.Returned r) = (s, GameService.Returned r).
Proof. induction times as [|t times IH]; [done|]. cbn. apply IH. Qed.

Lemma run_thrown d times s :
  GameService.run d times s GameService.Thrown = (s, GameService.Thrown).
Proof. induction times as [|t times IH]; [done|]. cbn. apply IH. Qed.

(** A pending call returns an accepted result within three round trips. *)
Lemma run_pending d (ta tb tc : Z) s c :
  pending c ->
  exists s' a, GameService.run d [ta; tb; tc] s c
               = (s', GameService.Returned (GameService.Success a)).
Proof.
  intros Hc. destruct c as [| gid pid game rec ts | gid pid game rec ts
                            | gid pid game a | | ]; try done.
  - cbn [GameService.run GameService.step].
    destruct (Redis.acquireWinLock ta gid pid ts s) as [[] s1].
    + destruct (GameService.conclude _ _ _ _ _ _ _) as [g2 a]. cbn. by eexists _, _.
    + cbn [GameService.run GameService.step].
      destruct (Redis.getWinner tb gid s1) as [[?|?]|];
        destruct (GameService.conclude _ _ _ _ _ _ _) as [g2 a]; cbn; by eexists _, _.
  - cbn [GameService.run GameService.step].
    destruct (Redis.getWinner ta gid s) as [[?|?]|];
      destruct (GameService.conclude _ _ _ _ _ _ _) as [g2 a]; cbn; by eexists _, _.
  - cbn. by eexists _, _.
Qed.

Lemma processGuess_accepts d t1 t2 t3 t4 s gameId playerId guess :
  acceptable d t1 s gameId playerId guess ->
  exists s' a, GameService.processGuess d t1 t2 t3 t4 s gameId playerId guess
               = (s', GameService.Returned (GameService.Success a)).
Proof.
  intros H. apply afterGetGame_accepts in H.
  unfold GameService.processGuess.
  rewrite run_cons. cbn [GameService.step].
  apply run_pending. by destruct (GameService.afterGetGame _ _ _ _ _ _).
Qed.

Lemma processGuess_rejects d t1 t2 t3 t4 s gameId playerId guess :
  playerId ∉ Js.inherited ->
  ~ acceptable d t1 s gameId playerId guess ->
  exists err, GameService.processGuess d t1 t2 t3 t4 s gameId playerId guess
              = (s, GameService.Returned (GameService.Rejected err)).
Proof.
  intros Hk H. apply afterGetGame_rejects in H as [err H]; [|done].
  unfold GameService.processGuess.
  rewrite run_cons. cbn [GameService.step]. rewrite H.
  exists err. apply run_returned.
Qed.

Lemma processGuess_refuses d t1 t2 t3 t4 s gameId playerId guess :
  ~ acceptable d t1 s gameId playerId guess ->
  (exists err, GameService.processGuess d t1 t2 t3 t4 s gameId playerId guess
               = (s, GameService.Returned (GameService.Rejected err))) \/
  GameService.processGuess d t1 t2 t3 t4 s gameId playerId guess
  = (s, GameService.Thrown).
Proof.
  intros H. unfold GameService.processGuess. rewrite run_cons. cbn [GameService.step].
  apply afterGetGame_refuses in H as [[err H]|H]; rewrite H.
  - left. exists err. apply run_returned.
  - right. apply run_thrown.
Qed.

Lemma acceptable_dec d t1 s gameId playerId guess :
  acceptable d t1 s gameId playerId guess \/ ~ acceptable d t1 s gameId playerId guess.
Proof.
  unfold acceptable.
  destruct (Redis.getGameState t1 gameId s) as [[game|w]|];
    [| right; by intros (?&?&?&_) ..].
  destruct (decide (status game = ACTIVE)) as [Hst|Hst];
    [| right; intros (?&?&?&?&_); by simplify_eq].
  destruct (lookupPlayer playerId (players game)) as [player|] eqn:Hp;
    [| right; intros (?&?&?&?&?&_); by simplify_eq].
  destruct (decide (Js.length (normalize guess) = 5)) as [Hl|Hl];
    [| right; intros (?&?&?&?&?&?&_); by simplify_eq].
  destruct (decide (normalize guess ∈ WordService.validGuesses d)) as [Hv|Hv];
    [| right; intros (?&?&?&?&?&?&?&_); by simplify_eq].
  destruct (decide (length (guesses player) < GameService.MAX_GUESSES)) as [Hg|Hg];
    [| right; intros (?&?&?&?&?&?&?&?); by simplify_eq].
  left. by exists game, player.
Qed.

(** The validation of [processGuess], for a text of ASCII characters.  For a
    stored ACTIVE match that contains the player, with fewer than six
    guesses recorded for that player, the word is accepted exactly when,
    upper-cased and trimmed, it has length 5 and belongs to the valid-guess
    set.  A call that fails one of the conditions writes nothing; it
    returns an error, unless [playerId] names an inherited property and no
    player: then it may throw. *)
Lemma processGuess_validation (d : WordService.Dict) (t1 t2 t3 t4 : Z)
    (s : Redis.Store) (gameId playerId guess : string) :
  Js.ascii_only guess ->
  let outcome := GameService.processGuess d t1 t2 t3 t4 s gameId playerId guess in
  (forall game player,
     Redis.getGameState t1 gameId s = Some (Redis.VGame game) ->
     status game = ACTIVE ->
     lookupPlayer playerId (players game) = Some player ->
     length (guesses player) < 6 ->
     ((exists s' a, outcome = (s', GameService.Returned (GameService.Success a)))
      <-> Js.length (normalize guess) = 5 /\
          normalize guess ∈ WordService.validGuesses d)) /\
  (~ acceptable d t1 s gameId playerId guess ->
   (playerId ∉ Js.inherited ->
    exists err, outcome = (s, GameService.Returned (GameService.Rejected err))) /\
   outcome.1 = s /\
   forall s' a, outcome <> (s', GameService.Returned (GameService.Success a))) /\
  (forall s' err,
     outcome = (s', GameService.Returned (GameService.Rejected err)) -> s' = s) /\
  (outcome = (s, GameService.Thrown) \/ exists s' r, outcome = (s', GameService.Returned r)).
Proof.
  intros _ outcome. split; [|split; [|split]].
  - intros game player Hs Hst Hp Hg. split.
    + intros (s' & a & Ha).
      destruct (acceptable_dec d t1 s gameId playerId guess) as [Hacc|Hn].
      * destruct Hacc as (g' & p' & ? & ? & ? & ? & ? & ?). done.
      * apply (processGuess_refuses d t1 t2 t3 t4) in Hn as [[err Hn]|Hn];
          unfold outcome in Ha; congruence.
    + intros [Hl Hv]. apply processGuess_accepts. by exists game, player.
  - intros Hn. split; [intros Hk; by apply processGuess_rejects|].
    apply (processGuess_refuses d t1 t2 t3 t4) in Hn as [[err Hn]|Hn];
      unfold outcome; rewrite Hn; split; [done|congruence|done|congruence].
  - intros s' err Hr.
    destruct (acceptable_dec d t1 s gameId playerId guess) as [Hacc|Hn].
    + apply (processGuess_accepts d t1 t2 t3 t4) in Hacc as (s1 & a & Ha).
      unfold outcome in Hr. congruence.
    + apply (processGuess_refuses d t1 t2 t3 t4) in Hn as [[err' Hn]|Hn];
        unfold outcome in Hr; congruence.
  - destruct (acceptable_dec d t1 s gameId playerId guess) as [Hacc|Hn].
    + apply (processGuess_accepts d t1 t2 t3 t4) in Hacc as (s1 & a & Ha).
      right. by eexists _, _.
    + apply (processGuess_refuses d t1 t2 t3 t4) in Hn as [[err' Hn]|Hn];
        [right; by eexists _, _|by left].
Qed.

(** C3.  A submission under a [playerId] that names a property every
    object inherits ([constructor], [toString], ...), in an ACTIVE match
    that has no player of that name, is not answered with the error
    "Player not in game": the inherited value passes the test [!player],
    and once the word (ASCII text) has passed its two checks the read of
    [player.guesses.length] ends the call with a [TypeError].  Nothing is
    written; the [game:guess] handler catches the exception and sends the
    originating socket an [error] event, not [game:guess:invalid]. *)
Theorem inherited_player_id_throws (d : WordService.Dict) (t1 t2 t3 t4 t5 : Z)
    (s : Redis.Store) (gameId playerId guess : string) (game : Game)
    (reg : SocketHandlers.Sockets) (socketId : string) :
  Redis.getGameState t1 gameId s = Some (Redis.VGame game) ->
  status game = ACTIVE ->
  lookupPlayer playerId (players game) = None ->
  playerId ∈ Js.inherited ->
  Js.ascii_only guess ->
  Js.length (normalize guess) = 5 ->
  normalize guess ∈ WordService.validGuesses d ->
  ~ acceptable d t1 s gameId playerId guess /\
  GameService.processGuess d t1 t2 t3 t4 s gameId playerId guess
  = (s, GameService.Thrown) /\
  (gameId <> "" ->
   SocketHandlers.onGameGuess d t1 t2 t3 t4 t5 reg socketId (Some playerId) s gameId guess
   = (s, [mkEmit socketId "error" (JObj [("message", JStr "Failed to process guess")])],
      None)).
Proof.
  intros Hs Hst Hp Hk _ Hl Hv.
  assert (Hrun : GameService.processGuess d t1 t2 t3 t4 s gameId playerId guess
                 = (s, GameService.Thrown)).
  { unfold GameService.processGuess. rewrite run_cons. cbn [GameService.step].
    rewrite Hs. unfold GameService.afterGetGame. fold (normalize guess).
    rewrite (bool_decide_eq_true_2 _ Hst), Hp, (bool_decide_eq_true_2 _ Hk), Hl.
    cbn [negb Nat.eqb].
    unfold WordService.isValidGuess. rewrite toUpperCase_normalize.
    rewrite (bool_decide_eq_true_2 _ Hv). cbn [negb]. apply run_thrown. }
  split; [|split; [exact Hrun|]].
  - intros (g' & p' & Hs' & _ & Hp' & _). rewrite Hs in Hs'. injection Hs' as <-.
    rewrite Hp in Hp'. discriminate Hp'.
  - intros Hg. unfold SocketHandlers.onGameGuess.
    assert (Hpid : playerId <> "").
    { intros ->. revert Hk. rewrite list_elem_of_In. cbn. intuition discriminate. }
    assert (Hgu : guess <> "") by (intros ->; discriminate Hl).
    rewrite (bool_decide_eq_false_2 _ Hpid), (bool_decide_eq_false_2 _ Hg),
      (bool_decide_eq_false_2 _ Hgu). cbn [orb].
    rewrite Hrun. reflexivity.
Qed.

(* ===================================================================== *)
(** * Masked fan-out *)
(* ===================================================================== *)

Lemma first_pass_length g t k : length (WordService.first_pass g t k).1 = 5.
Proof.
  unfold WordService.first_pass. induction k as [|k IH]; [done|].
  rewrite seq_S, foldl_app. cbn [foldl Nat.add].
  unfold WordService.first_pass_step at 1.
  case_bool_decide; [|done]. cbn [fst]. by rewrite length_insert.
Qed.

Lemma second_pass_filled g t k :
  k <= 5 ->
  length (WordService.second_pass g t k).1 = 5 /\
  forall i, i < k ->
    exists cell, (WordService.second_pass g t k).1 !! i = Some (Some cell).
Proof.
  unfold WordService.second_pass. induction k as [|k IH]; intros Hk.
  - cbn [seq foldl]. split; [apply first_pass_length | lia].
  - destruct IH as [Hlen Hset]; [lia|].
    rewrite seq_S, foldl_app. cbn [foldl Nat.add].
    set (st := foldl _ _ (seq 0 k)) in *.
    assert (Hstep : forall cell m,
      length (<[k := Some cell]> st.1, m).1 = 5 /\
      forall i, i < S k ->
        exists cell', (<[k := Some cell]> st.1, m : list bool).1 !! i = Some (Some cell')).
    { intros cell m. cbn [fst]. split; [by rewrite length_insert|].
      intros i Hi. destruct (decide (i = k)) as [->|Hne].
      - exists cell. apply list_lookup_insert_eq. lia.
      - rewrite list_lookup_insert_ne by done. apply Hset. lia. }
    unfold WordService.second_pass_step.
    destruct (st.1 !! k) as [[cell|]|] eqn:Ek.
    + split; [done|]. intros i Hi. destruct (decide (i = k)) as [->|Hne].
      * by exists cell.
      * apply Hset. lia.
    + destruct (WordService.find_unmatched g t st.2 k); apply Hstep.
    + destruct (WordService.find_unmatched g t st.2 k); apply Hstep.
Qed.

Lemma evaluateGuess_colors (guess target : string) :
  exists cols,
    colors_of (WordService.evaluateGuess guess target) = Some cols /\ length cols = 5.
Proof.
  unfold WordService.evaluateGuess.
  set (g := Js.split _). set (t := Js.split _).
  destruct (second_pass_filled g t 5) as [Hlen Hset]; [lia|].
  destruct (Hset 0) as [c0 H0]; [lia|]. destruct (Hset 1) as [c1 H1]; [lia|].
  destruct (Hset 2) as [c2 H2]; [lia|]. destruct (Hset 3) as [c3 H3]; [lia|].
  destruct (Hset 4) as [c4 H4]; [lia|].
  destruct (WordService.second_pass g t 5).1 as [|x0 [|x1 [|x2 [|x3 [|x4 [|]]]]]];
    try discriminate.
  cbn in H0, H1, H2, H3, H4. simplify_eq.
  eexists. split; reflexivity.
Qed.

Lemma afterGetGame_carries d now gameId playerId guess reply :
  carries guess (GameService.afterGetGame d now gameId playerId guess reply).
Proof.
  unfold GameService.afterGetGame. fold (normalize guess).
  destruct reply as [[game|w]|]; try done.
  destruct (negb (bool_decide (status game = ACTIVE))); [done|].
  destruct (lookupPlayer playerId (players game)) as [player|];
    [|by repeat case_match].
  destruct (negb (Js.length (normalize guess) =? 5)); [done|].
  destruct (negb (WordService.isValidGuess d (normalize guess))); [done|].
  destruct (GameService.MAX_GUESSES <=? length (guesses player)); [done|].
  destruct (WordService.isCorrectGuess _ _); [by eexists|].
  unfold GameService.conclude. cbn. by eexists.
Qed.

Lemma step_carries d now s guess c :
  carries guess c -> carries guess (GameService.step d now s c).1.2.
Proof.
  destruct c as [| gid pid game rec ts | gid pid game rec ts | gid pid game a | [|a] |];
    try done; intros H; cbn [GameService.step].
  - destruct (Redis.acquireWinLock now gid pid ts s) as [[] s1]; [|done].
    destruct (GameService.conclude _ _ _ _ _ _ _) as [g2 a] eqn:E. cbn.
    unfold GameService.conclude in E. by injection E as <- <-.
  - destruct (Redis.getWinner now gid s) as [[?|?]|];
      destruct (GameService.conclude _ _ _ _ _ _ _) as [g2 a] eqn:E; cbn;
      unfold GameService.conclude in E; by injection E as <- <-.
Qed.

Lemma run_carries d times s guess c :
  carries guess c -> carries guess (GameService.run d times s c).2.
Proof.
  revert s c. induction times as [|t times IH]; intros s c H; [done|].
  rewrite run_cons. pose proof (step_carries d t s guess c H) as H'.
  destruct (GameService.step d t s c) as [[s' c'] ev]. by apply IH.
Qed.

Lemma processGuess_record d t1 t2 t3 t4 s gameId playerId guess s' a :
  GameService.processGuess d t1 t2 t3 t4 s gameId playerId guess
  = (s', GameService.Returned (GameService.Success a)) ->
  evaluated guess (GameService.r_guess a).
Proof.
  unfold GameService.processGuess. rewrite run_cons. cbn [GameService.step].
  intros H.
  pose proof (run_carries d [t2; t3; t4] s guess _
                (afterGetGame_carries d t1 gameId playerId guess
                   (Redis.getGameState t1 gameId s))) as H2.
  rewrite H in H2. exact H2.
Qed.

(** [getMaskedGuessForOpponent] keeps the colours, the instant and the
    ordinal of a guess, and nothing of its word. *)
Lemma masked_guess_hides_word (r1 r2 : GuessRecord) :
  colors_of (evaluation r1) = colors_of (evaluation r2) ->
  timestamp r1 = timestamp r2 -> guessNumber r1 = guessNumber r2 ->
  GameService.getMaskedGuessForOpponent r1 = GameService.getMaskedGuessForOpponent r2.
Proof.
  intros Hc Ht Hn. unfold GameService.getMaskedGuessForOpponent.
  by rewrite Hc, Ht, Hn.
Qed.

(** The masked payload of an accepted guess: its colours and its ordinal. *)
Lemma opponentGuessPayload_shape d t1 t2 t3 t4 s gameId playerId guess s' a :
  GameService.processGuess d t1 t2 t3 t4 s gameId playerId guess
  = (s', GameService.Returned (GameService.Success a)) ->
  exists cols,
    colors_of (evaluation (GameService.r_guess a)) = Some cols /\ length cols = 5 /\
    SocketHandlers.opponentGuessPayload a
    = Some (JObj [("colors", JArr (map (fun c => JStr (SocketHandlers.colorName c)) cols));
                  ("guessNumber", JNum (Z.of_nat (guessNumber (GameService.r_guess a))))]) /\
    is_Some (SocketHandlers.guessResultPayload a).
Proof.
  intros Hp.
  destruct (processGuess_record _ _ _ _ _ _ _ _ _ _ _ Hp) as [target Ht].
  destruct (evaluateGuess_colors (normalize guess) target) as (cols & Hc & Hl).
  exists cols. unfold SocketHandlers.opponentGuessPayload, SocketHandlers.guessResultPayload.
  rewrite Ht, Hc. cbn [mbind option_bind]. split_and!; [done|done|done|by eexists].
Qed.

(** Whatever the [game:guess] handler sends to a socket other than the
    guesser's own is the masked event of an accepted guess. *)
Lemma onGameGuess_to_others d t1 t2 t3 t4 t5 reg socketId userId s gameId guess e :
  e ∈ (SocketHandlers.onGameGuess d t1 t2 t3 t4 t5 reg socketId userId
         s gameId guess).1.2 ->
  to e <> socketId ->
  exists a cols,
    (SocketHandlers.onGameGuess d t1 t2 t3 t4 t5 reg socketId userId
       s gameId guess).2 = Some a /\
    colors_of (evaluation (GameService.r_guess a)) = Some cols /\
    length cols = 5 /\
    event e = "game:opponent:guess" /\
    payload e
    = JObj [("colors", JArr (map (fun c => JStr (SocketHandlers.colorName c)) cols));
            ("guessNumber", JNum (Z.of_nat (guessNumber (GameService.r_guess a))))].
Proof.
  unfold SocketHandlers.onGameGuess.
  destruct userId as [playerId|]; [|by intros ->%list_elem_of_singleton].
  destruct (_ || _); [by intros ->%list_elem_of_singleton|].
  destruct (GameService.processGuess d t1 t2 t3 t4 s gameId playerId guess)
    as [s' c] eqn:Hp.
  destruct c as [| | | | [err|a] |];
    try (intros He; by apply elem_of_nil in He);
    try (by intros ->%list_elem_of_singleton).
  destruct (opponentGuessPayload_shape _ _ _ _ _ _ _ _ _ _ _ Hp)
    as (cols & Hc & Hl & -> & [full ->]).
  destruct (Redis.getGameState t5 gameId s') as [[game|w]|].
  - destruct (_ ≫= _) as [osid|]; cbn [fst snd].
    + intros He Hto. apply elem_of_cons in He as [->|He]; [done|].
      apply list_elem_of_singleton in He as ->. by exists a, cols.
    + by intros ->%list_elem_of_singleton.
  - cbn [fst snd]. intros He Hto.
    apply elem_of_cons in He as [->|He]; [done|].
    by apply list_elem_of_singleton in He as ->.
  - cbn [fst snd]. intros He Hto.
    apply elem_of_cons in He as [->|He]; [done|].
    by apply list_elem_of_singleton in He as ->.
Qed.

(** When the guess is accepted and the opponent has a registered socket,
    that socket is sent the masked event. *)
Lemma onGameGuess_delivers d t1 t2 t3 t4 t5 reg socketId playerId s gameId guess
    s' a game opponentId opponentSocketId :
  playerId <> "" -> gameId <> "" -> guess <> "" ->
  GameService.processGuess d t1 t2 t3 t4 s gameId playerId guess
  = (s', GameService.Returned (GameService.Success a)) ->
  Redis.getGameState t5 gameId s' = Some (Redis.VGame game) ->
  List.find (fun k => negb (bool_decide (k = playerId))) (map fst (players game))
  = Some opponentId ->
  SocketHandlers.playerSockets reg !! opponentId = Some opponentSocketId ->
  exists masked,
    SocketHandlers.opponentGuessPayload a = Some masked /\
    mkEmit opponentSocketId "game:opponent:guess" masked
    ∈ (SocketHandlers.onGameGuess d t1 t2 t3 t4 t5 reg socketId (Some playerId)
         s gameId guess).1.2.
Proof.
  intros Hp1 Hg1 Hw1 Hp Hs Ho Hsock. unfold SocketHandlers.onGameGuess.
  rewrite (bool_decide_eq_false_2 _ Hp1), (bool_decide_eq_false_2 _ Hg1),
    (bool_decide_eq_false_2 _ Hw1). cbn [orb]. rewrite Hp.
  destruct (opponentGuessPayload_shape _ _ _ _ _ _ _ _ _ _ _ Hp)
    as (cols & Hc & Hl & Hm & [full Hf]).
  rewrite Hm, Hf, Hs, Ho. cbn [mbind option_bind]. rewrite Hsock. cbn [fst snd].
  eexists. split; [reflexivity|]. apply list_elem_of_further, list_elem_of_here.
Qed.

(** C4.  Of the events the [game:guess] handler emits for a guess (a text
    of ASCII characters) up to its end-of-game step, every one addressed to
    a socket other than the guesser's own is a [game:opponent:guess] event
    of an accepted guess, and its payload is exactly the five colours of
    that guess and its ordinal: two fields, no word, no letter; so is every
    event of that name.  When the guess is accepted and the opponent has a
    registered socket, this event is sent to it.  Hence, in any two runs
    whose accepted guesses have the same colours and the same ordinal, the
    sockets other than the guessers' are sent the same events with the same
    payloads, whatever the words.  The same holds of everything the bot's
    timer callback emits for a guess of the bot. *)
Theorem opponent_sees_colors_only (d : WordService.Dict) (t1 t2 t3 t4 t5 : Z)
    (reg : SocketHandlers.Sockets) (socketId : string) (userId : option string)
    (s : Redis.Store) (gameId guess : string) (botInstance : BotService.Bot) :
  Js.ascii_only guess ->
  let out :=
    SocketHandlers.onGameGuess d t1 t2 t3 t4 t5 reg socketId userId s gameId guess in
  let masked (a : GameService.Accepted) (cols : list Color) :=
    JObj [("colors", JArr (map (fun c => JStr (SocketHandlers.colorName c)) cols));
          ("guessNumber", JNum (Z.of_nat (guessNumber (GameService.r_guess a))))] in
  (forall e, e ∈ out.1.2 -> to e <> socketId \/ event e = "game:opponent:guess" ->
     exists a cols,
       out.2 = Some a /\
       colors_of (evaluation (GameService.r_guess a)) = Some cols /\
       length cols = 5 /\
       event e = "game:opponent:guess" /\ payload e = masked a cols) /\
  (forall playerId s' a game opponentId opponentSocketId,
     userId = Some playerId -> playerId <> "" -> gameId <> "" -> guess <> "" ->
     GameService.processGuess d t1 t2 t3 t4 s gameId playerId guess
     = (s', GameService.Returned (GameService.Success a)) ->
     Redis.getGameState t5 gameId s' = Some (Redis.VGame game) ->
     List.find (fun k => negb (bool_decide (k = playerId))) (map fst (players game))
     = Some opponentId ->
     SocketHandlers.playerSockets reg !! opponentId = Some opponentSocketId ->
     exists cols,
       colors_of (evaluation (GameService.r_guess a)) = Some cols /\
       mkEmit opponentSocketId "game:opponent:guess" (masked a cols) ∈ out.1.2) /\
  (forall d' u1 u2 u3 u4 u5 reg' socketId' userId' s' gameId' guess' a a',
     let out' :=
       SocketHandlers.onGameGuess d' u1 u2 u3 u4 u5 reg' socketId' userId' s'
         gameId' guess' in
     Js.ascii_only guess' ->
     out.2 = Some a -> out'.2 = Some a' ->
     colors_of (evaluation (GameService.r_guess a))
     = colors_of (evaluation (GameService.r_guess a')) ->
     guessNumber (GameService.r_guess a) = guessNumber (GameService.r_guess a') ->
     forall e e', e ∈ out.1.2 -> e' ∈ out'.1.2 ->
       to e <> socketId -> to e' <> socketId' ->
       event e = event e' /\ payload e = payload e') /\
  (forall e,
     e ∈ (SocketHandlers.onBotGuess d t1 t2 t3 t4 t5 reg botInstance
            s gameId guess).1.2 ->
     exists a cols,
       (SocketHandlers.onBotGuess d t1 t2 t3 t4 t5 reg botInstance
          s gameId guess).2 = Some a /\
       colors_of (evaluation (GameService.r_guess a)) = Some cols /\
       length cols = 5 /\
       event e = "game:opponent:guess" /\ payload e = masked a cols).
Proof.
  intros _ out masked. split; [|split; [|split]].
  - intros e He [Hto|Hev]; [by apply onGameGuess_to_others|].
    destruct (decide (to e = socketId)) as [Heq|Hne];
      [|by apply onGameGuess_to_others].
    revert He. unfold out, SocketHandlers.onGameGuess.
    destruct userId as [playerId|];
      [|intros ->%list_elem_of_singleton; discriminate Hev].
    destruct (_ || _); [intros ->%list_elem_of_singleton; discriminate Hev|].
    destruct (GameService.processGuess d t1 t2 t3 t4 s gameId playerId guess)
      as [s' c] eqn:Hp.
    destruct c as [| | | | [err|a] |];
      try (intros He; by apply elem_of_nil in He);
      try (intros ->%list_elem_of_singleton; discriminate Hev).
    destruct (opponentGuessPayload_shape _ _ _ _ _ _ _ _ _ _ _ Hp)
      as (cols & Hc & Hl & -> & [full ->]).
    destruct (Redis.getGameState t5 gameId s') as [[game|w]|].
    + destruct (_ ≫= _) as [osid|]; cbn [fst snd].
      * intros He. apply elem_of_cons in He as [->|He]; [discriminate Hev|].
        apply list_elem_of_singleton in He as ->. by exists a, cols.
      * intros ->%list_elem_of_singleton. discriminate Hev.
    + cbn [fst snd]. intros He.
      apply elem_of_cons in He as [->|He]; [discriminate Hev|].
      apply list_elem_of_singleton in He as ->. discriminate Hev.
    + cbn [fst snd]. intros He.
      apply elem_of_cons in He as [->|He]; [discriminate Hev|].
      apply list_elem_of_singleton in He as ->. discriminate Hev.
  - intros playerId s' a game opponentId osid -> Hp1 Hg1 Hw1 Hp Hs Ho Hsock.
    destruct (opponentGuessPayload_shape _ _ _ _ _ _ _ _ _ _ _ Hp)
      as (cols & Hc & Hl & Hm & _).
    destruct (onGameGuess_delivers d t1 t2 t3 t4 t5 reg socketId playerId s gameId guess
                s' a game opponentId osid Hp1 Hg1 Hw1 Hp Hs Ho Hsock)
      as (m & Hm' & Hin).
    exists cols. split; [done|]. rewrite Hm in Hm'. injection Hm' as <-. exact Hin.
  - intros d' u1 u2 u3 u4 u5 reg' socketId' userId' s' gameId' guess' a a' out'
      _ Ha Ha' Hc Hn e e' He He' Hto Hto'.
    destruct (onGameGuess_to_others _ _ _ _ _ _ _ _ _ _ _ _ _ He Hto)
      as (b & cols & Hb & Hcols & _ & Hev & Hpay).
    destruct (onGameGuess_to_others _ _ _ _ _ _ _ _ _ _ _ _ _ He' Hto')
      as (b' & cols' & Hb' & Hcols' & _ & Hev' & Hpay').
    fold out in Hb. fold out' in Hb'.
    rewrite Ha in Hb. injection Hb as <-. rewrite Ha' in Hb'. injection Hb' as <-.
    rewrite Hev, Hev', Hpay, Hpay'. split; [done|].
    rewrite Hc, Hcols' in Hcols. injection Hcols as <-. by rewrite Hn.
  - unfold SocketHandlers.onBotGuess.
    destruct (Redis.getGameState t1 gameId s) as [[currentGame|w]|];
      try (intros e He; by apply elem_of_nil in He).
    destruct (negb _); [intros e He; by apply elem_of_nil in He|].
    destruct (List.find _ (players currentGame)) as [[botId bot]|];
      [|intros e He; by apply elem_of_nil in He].
    destruct (bool_decide (botId = "")); [intros e He; by apply elem_of_nil in He|].
    destruct (GameService.processGuess d t2 t3 t4 t5 s gameId botId guess)
      as [s' c] eqn:Hp.
    destruct c as [| | | | [err|a] |];
      try (intros e He; by apply elem_of_nil in He).
    destruct (opponentGuessPayload_shape _ _ _ _ _ _ _ _ _ _ _ Hp)
      as (cols & Hc & Hl & Hm & _).
    rewrite Hc, Hm. cbn [fst snd].
    intros e (sid & -> & _)%list_elem_of_fmap.
    by exists a, cols.
Qed.

(* ===================================================================== *)
(** * Rating arithmetic *)
(* ===================================================================== *)

Section EloFacts.
Import EloService.
Open Scope R_scope.

Lemma expected_pos a b : 0 < calculateExpectedScore a b < 1.
Proof.
  unfold calculateExpectedScore.
  set (p := Rpower 10 _).
  assert (Hp : 0 < p) by apply exp_pos.
  split.
  - apply Rdiv_lt_0_compat; lra.
  - apply Rmult_lt_reg_r with (1 + p); [lra|]. field_simplify; lra.
Qed.

Lemma expected_sum a b :
  calculateExpectedScore a b + calculateExpectedScore b a = 1.
Proof.
  unfold calculateExpectedScore, SCALE_FACTOR.
  replace ((IZR a - IZR b) / 400) with (- ((IZR b - IZR a) / 400)) by lra.
  rewrite Rpower_Ropp.
  set (p := Rpower 10 _).
  assert (Hp : 0 < p) by apply exp_pos.
  field. split; lra.
Qed.

Lemma expected_equal a : calculateExpectedScore a a = 1 / 2.
Proof.
  unfold calculateExpectedScore, SCALE_FACTOR.
  replace ((IZR a - IZR a) / 400) with 0 by lra.
  rewrite Rpower_O by lra. lra.
Qed.

Lemma round_IZR (z : Z) : round (IZR z) = z.
Proof. unfold round. apply Zfloor_eq. lra. Qed.

Lemma round_bounds x : IZR (round x) - / 2 <= x < IZR (round x) + / 2.
Proof. unfold round. pose proof (Zfloor_bound (x + / 2)). lra. Qed.

Lemma raw_sum rw rl : rawWinner rw rl + rawLoser rw rl = IZR rw + IZR rl.
Proof.
  unfold rawWinner, rawLoser, K_FACTOR.
  pose proof (expected_sum rw rl). lra.
Qed.

Lemma rounded_sum rw rl :
  (0 <= round (rawWinner rw rl) + round (rawLoser rw rl) - (rw + rl) <= 1)%Z.
Proof.
  pose proof (round_bounds (rawWinner rw rl)) as Hw.
  pose proof (round_bounds (rawLoser rw rl)) as Hl.
  pose proof (raw_sum rw rl) as Hs.
  set (a := round (rawWinner rw rl)) in *. set (b := round (rawLoser rw rl)) in *.
  assert (H1 : IZR (a + b - (rw + rl)) < 2) by (rewrite minus_IZR, !plus_IZR; lra).
  assert (H2 : -1 < IZR (a + b - (rw + rl))) by (rewrite minus_IZR, !plus_IZR; lra).
  apply lt_IZR in H1, H2. lia.
Qed.

Lemma newRating_unclamped (r : Z) (e a k : R) :
  (MIN_RATING <= round (IZR r + k * (a - e)))%Z ->
  calculateNewRating r e a k = round (IZR r + k * (a - e)).
Proof. unfold calculateNewRating. lia. Qed.

Lemma matchResult_equal (r : Z) :
  newRating (mr_winner (calculateMatchResult r r)) = Z.max (r + 16) MIN_RATING /\
  newRating (mr_loser (calculateMatchResult r r)) = Z.max (r - 16) MIN_RATING.
Proof.
  unfold calculateMatchResult, calculateNewRating, K_FACTOR. cbn [newRating mr_winner mr_loser].
  rewrite expected_equal.
  replace (IZR r + 32 * (1 - 1 / 2)) with (IZR (r + 16)) by (rewrite plus_IZR; lra).
  replace (IZR r + 32 * (0 - 1 / 2)) with (IZR (r - 16)) by (rewrite minus_IZR; lra).
  by rewrite !round_IZR.
Qed.

(** C6, as amended.  For ratings within the range of the [elo] column
    (at most [INTEGER_MAX]), when the rating floor binds for neither player
    (the rounded new ratings are at least [MIN_RATING]), the new ratings of
    [calculateMatchResult] keep the sum of the ratings up to 2 (in fact up
    to 1, see [rounded_sum]). *)
Theorem rating_sum_preserved (rw rl : Z) :
  (rw <= INTEGER_MAX)%Z -> (rl <= INTEGER_MAX)%Z ->
  (MIN_RATING <= round (rawWinner rw rl))%Z ->
  (MIN_RATING <= round (rawLoser rw rl))%Z ->
  let r := calculateMatchResult rw rl in
  (Z.abs (newRating (mr_winner r) + newRating (mr_loser r) - (rw + rl)) <= 2)%Z.
Proof.
  intros _ _ Hw Hl r. unfold r, calculateMatchResult. cbn [newRating mr_winner mr_loser].
  rewrite !newRating_unclamped by assumption.
  pose proof (rounded_sum rw rl) as H. unfold rawWinner, rawLoser in H. lia.
Qed.

Lemma floor_inactive (rw rl : Z) :
  (100 <= rw)%Z -> (132 <= rl)%Z ->
  (MIN_RATING <= round (rawWinner rw rl))%Z /\
  (MIN_RATING <= round (rawLoser rw rl))%Z.
Proof.
  intros Hw Hl.
  pose proof (round_bounds (rawWinner rw rl)) as Bw.
  pose proof (round_bounds (rawLoser rw rl)) as Bl.
  pose proof (expected_pos rw rl) as Ew. pose proof (expected_pos rl rw) as El.
  apply IZR_le in Hw, Hl.
  unfold rawWinner, rawLoser, K_FACTOR, MIN_RATING in *.
  split.
  - assert (H : IZR 99 < IZR (round (IZR rw + 32 * (1 - calculateExpectedScore rw rl))))
      by lra.
    apply lt_IZR in H. lia.
  - assert (H : IZR 99 < IZR (round (IZR rl + 32 * (0 - calculateExpectedScore rl rw))))
      by lra.
    apply lt_IZR in H. lia.
Qed.

(** C6 at 1200 against 1200. *)
Lemma rating_sum_preserved_witness :
  let r := calculateMatchResult 1200 1200 in
  (Z.abs (newRating (mr_winner r) + newRating (mr_loser r) - (1200 + 1200)) <= 2)%Z.
Proof.
  apply rating_sum_preserved;
    [unfold INTEGER_MAX; lia | unfold INTEGER_MAX; lia
    | apply (floor_inactive 1200 1200); lia | apply (floor_inactive 1200 1200); lia].
Defined.

(** C6 as stated fails at the floor: 100 against 100 gives 116 and 100,
    sixteen points more than before. *)
Lemma rating_sum_floor_counterexample :
  let r := calculateMatchResult 100 100 in
  ~ (Z.abs (newRating (mr_winner r) + newRating (mr_loser r) - (100 + 100)) <= 2)%Z.
Proof.
  intros r. destruct (matchResult_equal 100) as [Hw Hl].
  unfold r. rewrite Hw, Hl. unfold MIN_RATING. lia.
Qed.
End EloFacts.

(* ===================================================================== *)
(** * End of a drawn match *)
(* ===================================================================== *)

Lemma botMatch_loss_equal_rating (r : Z) :
  EloService.calculateNewRating r (EloService.calculateExpectedScore r r) 0
    (EloService.K_FACTOR * (1 / 2))
  = Z.max (r - 8) EloService.MIN_RATING.
Proof.
  unfold EloService.calculateNewRating, EloService.K_FACTOR.
  rewrite expected_equal.
  replace (IZR r + 32 * (1 / 2) * (0 - 1 / 2))%R with (IZR (r - 8))
    by (rewrite minus_IZR; lra).
  by rewrite round_IZR.
Qed.

#[local] Arguments EloService.calculateNewRating : simpl never.
#[local] Arguments EloService.calculateExpectedScore : simpl never.

Lemma botMatch_draw_hard (db : EloService.Db) (playerId : string)
    (u : EloService.UserRow) (tw : string) (rl : list ReplayEvent) (dur : Z) :
  EloService.users db !! playerId = Some u ->
  EloService.updateRatingAfterBotMatch db playerId 1400 false (Some "hard") tw rl dur
  = Some (EloService.mkDb
            (<[playerId := EloService.mkUserRow 1392 (EloService.u_wins u)
                             (EloService.u_losses u + 1)
                             (EloService.u_gamesPlayed u + 1)]> (EloService.users db))
            (EloService.matches db
             ++ [EloService.mkMatchRow None (Some playerId) 1400 1400 1400 1392
                   tw rl dur true (Some "hard")]),
          EloService.mkEloResult None (Some (EloService.mkRatingChange 1400 1392 (-8)))).
Proof.
  intros Hu. unfold EloService.updateRatingAfterBotMatch, EloService.updateUser.
  rewrite Hu. cbn [EloService.botRatingOf mbind option_bind].
  change (EloService.botRatingOf (Some "hard")) with 1400%Z.
  rewrite (botMatch_loss_equal_rating 1400). reflexivity.
Qed.

(** The sibling path: a draw between two humans writes nothing to the
    persistent store, and without a rating result [game:end] carries
    [eloChange] 0. *)
Lemma human_draw_keeps_ratings (now : Z) (reg : SocketHandlers.Sockets)
    (db : EloService.Db) (game : Game) :
  winner game = None ->
  existsb isBot (map snd (players game)) = false ->
  (SocketHandlers.handleGameEnd now reg db game).1 = db.
Proof.
  intros Hw Hbot. unfold SocketHandlers.handleGameEnd. cbv zeta. rewrite Hbot, Hw.
  match goal with
  | |- context [match List.find ?f ?l with Some w => _ | None => Some (db, None) end] =>
      assert (Hfind : List.find f l = None)
  end.
  { clear Hbot. induction (map snd (players game)) as [|p ps IH]; [done|].
    cbn [List.find]. rewrite bool_decide_eq_false_2 by done. exact IH. }
  rewrite Hfind.
  destruct (List.find _ _);
    by destruct (SocketHandlers.notifyGameEnd reg game "complete" None) as [emits []].
Qed.

Lemma draw_payload_without_result (game : Game) (player opponent : Player) :
  winner game = None ->
  exists front,
    SocketHandlers.gameEndPayload game "complete" None player opponent
    = JObj (front ++ [("eloChange", JNum 0); ("newElo", JNum (elo player))]) /\
    front !! 1 = Some ("result", JStr "draw").
Proof.
  intros Hw. unfold SocketHandlers.gameEndPayload. rewrite Hw.
  eexists [_; _; _; _; _; _]. split; reflexivity.
Qed.

(** C5, at a drawn match against a hard bot (human rated 1400): the
    [game:end] event says "draw", yet the rating of the human is persisted
    as 1392 with one more loss, and the event carries [eloChange] -8. *)
Theorem bot_draw_changes_rating :
  let '(db', emits) :=
    SocketHandlers.handleGameEnd 7000 Scenario.sockets Scenario.db Scenario.botDraw in
  winner Scenario.botDraw = None /\
  EloService.users Scenario.db !! "h" = Some (EloService.mkUserRow 1400 3 2 5) /\
  EloService.users db' !! "h" = Some (EloService.mkUserRow 1392 3 3 6) /\
  emits = [mkEmit "sock-h" "game:end"
             (JObj [("gameId", JStr "g1"); ("result", JStr "draw");
                    ("reason", JStr "complete"); ("targetWord", JStr "CRANE");
                    ("opponent", JObj [("username", JStr "WordBot Hard");
                                       ("guesses", JNum 6)]);
                    ("myGuesses", JNum 6);
                    ("eloChange", JNum (-8)); ("newElo", JNum 1392)])].
Proof.
  unfold SocketHandlers.handleGameEnd.
  cbn -[SocketHandlers.notifyGameEnd].
  replace (bool_decide (None = Some "h")) with false by reflexivity.
  rewrite (botMatch_draw_hard _ _ (EloService.mkUserRow 1400 3 2 5)) by reflexivity.
  vm_compute. repeat split.
Qed.

(* ===================================================================== *)
(** * Win arbitration *)
(* ===================================================================== *)

Lemma string_length_app (a b : string) :
  String.length (a ++ b) = String.length a + String.length b.
Proof. induction a as [|c a IH]; simpl; [done | by f_equal]. Qed.

Lemma keys_differ gid : Redis.gameKey gid <> Redis.winnerKey gid.
Proof.
  unfold Redis.gameKey, Redis.winnerKey. intros H.
  apply (f_equal String.length) in H.
  rewrite !string_length_app in H. cbn in H. lia.
Qed.

Lemma lookupPlayer_update p f ps pl :
  lookupPlayer p ps = Some pl -> lookupPlayer p (updatePlayer p f ps) = Some (f pl).
Proof.
  induction ps as [|[k q] ps IH]; cbn; [done|].
  destruct (decide (k = p)) as [->|Hne]; cbn.
  - intros [= ->]. by rewrite decide_True.
  - intros H. rewrite decide_False by done. by apply IH.
Qed.

Lemma recorded_recordGuess game p rec player :
  lookupPlayer p (players game) = Some player ->
  recorded p rec (GameService.recordGuess game p rec).
Proof.
  intros Hp. split; cbn.
  - eexists. split; [by apply lookupPlayer_update|]. cbn. apply last_snoc.
  - apply last_snoc.
Qed.

Lemma recorded_withStatus p rec game st w e :
  recorded p rec game -> recorded p rec (GameService.withStatus game st w e).
Proof. by intros [H1 H2]. Qed.

Section ArbitrationProofs.

Variable d : WordService.Dict.
Variable gid : string.
Variable T : Z.

Lemma okWinner_grows h h' w : grows h h' -> okWinner h w -> okWinner h' w.
Proof. intros [->| ->] [->|Hw]; unfold okWinner; auto. Qed.

Lemma lostInv_grows h h' p game a :
  grows h h' -> lostInv h p game a -> lostInv h' p game a.
Proof.
  intros [->| ->]; [done|]. intros H Hl. destruct (H Hl) as [[x Hx] _]. done.
Qed.

Lemma callInv_grows h h' c : grows h h' -> callInv gid h c -> callInv gid h' c.
Proof.
  intros Hg. destruct c as [| g p game rec ts | g p game rec ts | g p game a | r |]; cbn;
    try done.
  - intros (? & ? & ?). split_and!; eauto using okWinner_grows.
  - intros (? & Hs & ? & ?). split_and!; eauto using okWinner_grows.
    destruct Hg as [->| ->]; [done | by destruct Hs].
  - intros (? & ? & ?). split_and!; eauto using okWinner_grows, lostInv_grows.
Qed.

Lemma conclude_game game p rec ic ge wi ts :
  let game' := (GameService.conclude game p rec ic ge wi ts).1 in
  players game' = players game /\ replayLog game' = replayLog game /\
  ((winner game' = winner game /\ status game' = status game) \/
   (ge = false /\ winner game' = None)).
Proof.
  unfold GameService.conclude. cbn.
  destruct (negb ge && _) eqn:E; cbn; [|auto].
  repeat split. right. split; [|done]. by destruct ge.
Qed.

Lemma afterGetGame_inv h now p w reply :
  (forall g, reply = Some (Redis.VGame g) -> okWinner h (winner g)) ->
  callInv gid h (GameService.afterGetGame d now gid p w reply).
Proof.
  intros Hr. unfold GameService.afterGetGame.
  destruct reply as [[game|?]|]; try done.
  destruct (negb (bool_decide (status game = ACTIVE))); [done|].
  destruct (lookupPlayer p (players game)) as [player|] eqn:Hp;
    [|by repeat case_match].
  destruct (negb (Js.length _ =? 5)); [done|].
  destruct (negb (WordService.isValidGuess d _)); [done|].
  destruct (GameService.MAX_GUESSES <=? length (guesses player)); [done|].
  set (rec := mkGuessRecord _ _ _ _).
  destruct (WordService.isCorrectGuess _ _).
  - cbn. split; [done|]. split; [by apply Hr|]. by eapply recorded_recordGuess.
  - destruct (GameService.conclude _ _ _ _ _ _ _) as [g2 a] eqn:E.
    pose proof (conclude_game (GameService.recordGuess game p rec) p rec false false None now)
      as (_ & _ & Hw).
    rewrite E in Hw. cbn in Hw. cbn. split; [done|]. split.
    + destruct Hw as [[-> _]|[_ ->]]; [by apply Hr | by left].
    + intros [Hc _]. unfold GameService.conclude in E. injection E as <- <-. done.
Qed.

Lemma step_inv h s c now :
  inWindow T now -> lockInv gid T h s -> gameInv gid h s -> callInv gid h c ->
  exists h',
    grows h h' /\
    lockInv gid T h' (GameService.step d now s c).1.1 /\
    gameInv gid h' (GameService.step d now s c).1.1 /\
    callInv gid h' (GameService.step d now s c).1.2 /\
    evRel h h' (GameService.step d now s c).2.
Proof.
  intros Hnow Hlock Hgame Hc.
  destruct c as [ g p w | g p game rec ts | g p game rec ts | g p game a | r | ].
  - (* getGame *)
    cbn in Hc. subst g. exists h. cbn [GameService.step fst snd].
    split_and!; [by left | done | done | | done].
    apply afterGetGame_inv. intros game Hr.
    unfold Redis.getGameState, Redis.get in Hr.
    destruct (s !! Redis.gameKey gid) as [e|] eqn:He; [|done].
    destruct (now <? Redis.expireAt e)%Z; [|done].
    injection Hr as Hr. by eapply Hgame.
  - (* acquireWinLock *)
    destruct Hc as (-> & Hw & Hrec).
    cbn [GameService.step]. unfold Redis.acquireWinLock, Redis.set_nx_ex, Redis.get.
    destruct h as [q|]; cbn in Hlock.
    + destruct Hlock as (ts' & exp & Hl & Hexp). rewrite Hl. cbn [Redis.expireAt].
      destruct (now <? exp)%Z eqn:E; [|apply Z.ltb_ge in E; unfold inWindow in Hnow; lia].
      exists (Some q). cbn [fst snd].
      split_and!; [by left | by exists ts', exp | done | | ].
      * cbn. split_and!; [done | by eexists | done | done].
      * cbn. split; [by eexists | done].
    + rewrite Hlock.
      destruct (GameService.conclude _ _ _ _ _ _ _) as [g2 a] eqn:E.
      unfold GameService.conclude in E. cbn in E. injection E as <- <-.
      exists (Some p). cbn [fst snd]. split_and!.
      * by right.
      * cbn. eexists _, _. split; [apply lookup_insert_eq|].
        unfold inWindow in Hnow. lia.
      * intros e g He Hv. rewrite lookup_insert_ne in He by (symmetry; apply keys_differ).
        eapply okWinner_grows; [by right | by eapply Hgame].
      * cbn. split; [done|]. split; [by right|]. intros [_ Hn]. done.
      * done.
  - (* getWinner *)
    destruct Hc as (-> & [q ->] & Hw & Hrec).
    cbn [GameService.step]. unfold Redis.getWinner, Redis.get.
    destruct Hlock as (ts' & exp & Hl & Hexp). rewrite Hl. cbn [Redis.expireAt Redis.value].
    destruct (now <? exp)%Z eqn:E; [|apply Z.ltb_ge in E; unfold inWindow in Hnow; lia].
    destruct (GameService.conclude _ _ _ _ _ _ _) as [g2 a] eqn:Ec.
    unfold GameService.conclude in Ec. cbn in Ec. injection Ec as <- <-.
    exists (Some q). cbn [fst snd].
    split_and!; [by left | by exists ts', exp | done | | done].
    cbn. split; [done|]. split; [by right|]. intros _. cbn.
    split_and!; [by eexists | done | done | by apply recorded_withStatus].
  - (* setGameState *)
    destruct Hc as (-> & Hw & Hlost).
    exists h. cbn [GameService.step fst snd]. unfold Redis.setGameState, Redis.setex.
    split_and!; [ | | | done | done].
    + by left.
    + destruct h as [q|]; cbn in *.
      * destruct Hlock as (ts' & exp & Hl & Hexp). exists ts', exp.
        by rewrite lookup_insert_ne by apply keys_differ.
      * by rewrite lookup_insert_ne by apply keys_differ.
    + intros e g He Hv. rewrite lookup_insert_eq in He. injection He as <-.
      cbn in Hv. by injection Hv as <-.
  - exists h. cbn. split_and!; [by left | done..].
  - exists h. cbn. split_and!; [by left | done..].
Qed.

Lemma sys_step_inv h cfg e :
  inWindow T e.2 -> Inv gid T h cfg ->
  exists h',
    grows h h' /\ Inv gid T h' (GameService.sys_step d cfg e).1 /\
    evRel h h' (GameService.sys_step d cfg e).2.
Proof.
  intros Hnow (Hlock & Hgame & Hcalls). unfold GameService.sys_step.
  destruct (cfg.2 !! e.1) as [c|] eqn:Hc.
  - assert (Hci : callInv gid h c) by (eapply Forall_lookup_1; eauto).
    destruct (step_inv h cfg.1 c e.2 Hnow Hlock Hgame Hci)
      as (h' & Hg & Hl' & Hg' & Hc' & Hev).
    destruct (GameService.step d e.2 cfg.1 c) as [[s' c'] ev]. cbn in *.
    exists h'. split; [done|]. split; [|done].
    unfold Inv. cbn [fst snd]. split_and!; [done | done |].
    apply Forall_insert; [|done].
    eapply Forall_impl; [exact Hcalls|]. intros c0. by apply callInv_grows.
  - exists h. cbn. split; [by left|]. by split.
Qed.

Lemma grows_trans h0 h1 h2 : grows h0 h1 -> grows h1 h2 -> grows h0 h2.
Proof. intros [->| ->] [->| ->]; unfold grows; auto. Qed.

Lemma logRel_cons h0 h1 h2 ev log :
  evRel h0 h1 ev -> grows h1 h2 -> logRel h1 h2 log -> logRel h0 h2 (ev :: log).
Proof.
  intros Hev Hg [Hacq Hwr]. split.
  - destruct ev as [| g p [] | | g p game a |]; cbn in Hev |- *.
    + subst h1. exact Hacq.
    + destruct Hev as [-> ->]. unfold acquires. cbn. fold (acquires log).
      destruct Hg as [->|[=]]. exists (acquires log). by split.
    + destruct Hev as [[q ->] ->]. unfold acquires. cbn. fold (acquires log).
      constructor; [done | exact Hacq].
    + subst h1. exact Hacq.
    + destruct Hev as (-> & _). exact Hacq.
    + subst h1. exact Hacq.
  - intros g p game a Hin. apply elem_of_cons in Hin as [<-|Hin]; [|by eapply Hwr].
    cbn in Hev. destruct Hev as (-> & Hw & Hl).
    split; [by eapply okWinner_grows | by eapply lostInv_grows].
Qed.

Lemma sys_run_inv schedule : forall h0 cfg,
  Forall (fun e => inWindow T e.2) schedule -> Inv gid T h0 cfg ->
  exists h1,
    grows h0 h1 /\ Inv gid T h1 (GameService.sys_run d cfg schedule).1 /\
    logRel h0 h1 (GameService.sys_run d cfg schedule).2.
Proof.
  induction schedule as [|e schedule IH]; intros h0 cfg Hw Hinv.
  - exists h0. cbn. split; [by left|]. split; [done|]. split.
    + by destruct h0.
    + intros g p game a Hin. by apply elem_of_nil in Hin.
  - apply Forall_cons in Hw as [He Hw].
    destruct (sys_step_inv h0 cfg e He Hinv) as (h1 & Hg1 & Hinv1 & Hev).
    cbn [GameService.sys_run].
    destruct (GameService.sys_step d cfg e) as [cfg1 ev]. cbn in Hinv1, Hev.
    destruct (IH h1 cfg1 Hw Hinv1) as (h2 & Hg2 & Hinv2 & Hlog).
    destruct (GameService.sys_run d cfg1 schedule) as [cfg2 log]. cbn in *.
    exists h2. split; [by eapply grows_trans|]. split; [done|]. by eapply logRel_cons.
Qed.

End ArbitrationProofs.

(** While the lock key lives the arbitration works.  Take any number of
    [processGuess] calls on one match, interleaved in any way, whose store
    round trips all happen within one life span of the win lock (60 s),
    starting without a lock and with no winner stored.  Then the first win
    claim succeeds and every later one fails; every match state written
    names no winner or the one claimant; and the state written for a
    correct guess whose claim failed is FINISHED, names the claimant as
    winner, and has the guess at the end of the guesser's slot and of the
    replay log. *)
Lemma win_arbitration_within_lock_window (d : WordService.Dict) (gid : string)
    (T : Z) (s0 : Redis.Store) (calls : list GameService.Call)
    (schedule : list (nat * Z)) :
  s0 !! Redis.winnerKey gid = None ->
  (forall e g, s0 !! Redis.gameKey gid = Some e -> Redis.value e = Redis.VGame g ->
               winner g = None) ->
  Forall (fun c => exists p w, c = GameService.AtGetGame gid p w) calls ->
  Forall (fun e => (T <= e.2 < T + 60000)%Z) schedule ->
  arbitrated (GameService.sys_run d (s0, calls) schedule).2.
Proof.
  intros Hlock Hgame Hcalls Hw.
  destruct (sys_run_inv d gid T schedule None (s0, calls)) as (h1 & _ & _ & Hacq & Hwr).
  - exact Hw.
  - unfold Inv. split_and!; cbn.
    + exact Hlock.
    + intros e g He Hv. left. by eapply Hgame.
    + eapply Forall_impl; [exact Hcalls|]. by intros c (p & w & ->).
  - exists h1. cbn in Hacq. split_and!.
    + exact Hacq.
    + intros g p game a Hin. by destruct (Hwr g p game a Hin).
    + intros g p game a Hin Hl. destruct (Hwr g p game a Hin) as [_ H]. by apply H.
Qed.

(* ===================================================================== *)
(** * Openers, schedules and witnesses *)
(* ===================================================================== *)

(** C7, at the first guess of an easy bot when [Math.random()] returns
    0.37: the word selected is HERO, the four-letter entry of
    [COMMON_WORDS], which is in no dictionary of five-letter words. *)
Theorem easy_opener_outside_dictionary (d : WordService.Dict) (log2 : Q -> Q)
    (possibleAnswers : list string) :
  Forall (fun w => Js.length w = 5) (WordService.validGuesses d) ->
  (BotService.selectGuess d log2 "easy" possibleAnswers [] 1 Scenario.draws 0).1
  = Word "HERO" /\
  ("HERO" ∉ WordService.validGuesses d) /\
  Js.length (normalize "HERO") = 4 /\
  WordService.isValidGuess d "HERO" = false.
Proof.
  intros Hall.
  assert (Hn : "HERO" ∉ WordService.validGuesses d).
  { intros Hin. eapply Forall_forall in Hall; [|exact Hin]. discriminate Hall. }
  split; [|split; [exact Hn|split; [reflexivity|]]].
  - unfold BotService.selectGuess. cbn [Nat.eqb length andb].
    rewrite decide_True by done.
    vm_compute. reflexivity.
  - unfold WordService.isValidGuess. apply bool_decide_eq_false.
    change (Js.toUpperCase "HERO") with "HERO". exact Hn.
Qed.

(** C7 with the small dictionary. *)
Lemma easy_opener_outside_dictionary_witness :
  (BotService.selectGuess Scenario.dict (fun q => q) "easy" [] [] 1 Scenario.draws 0).1
  = Word "HERO" /\
  ("HERO" ∉ WordService.validGuesses Scenario.dict).
Proof.
  assert (H : Forall (fun w => Js.length w = 5) (WordService.validGuesses Scenario.dict)).
  { vm_compute. repeat constructor. }
  destruct (easy_opener_outside_dictionary Scenario.dict (fun q => q) [] H) as (H1 & H2 & _).
  split; assumption.
Defined.

(** C2.  Two winners of one match.  [p1] submits the target while [p2]
    submits a wrong word, and both calls read the ACTIVE match before
    either writes.  [p1] takes the win lock and writes the FINISHED match;
    then the write of [p2]'s call, computed from the match as it was read,
    lands on top of it: the match is ACTIVE again, without winner and
    without [p1]'s guess.  Seventy seconds later the lock key has expired,
    [p2] submits the target, takes the lock as well and is written as the
    winner.  Both calls return a winner summary, and the log of the run is
    not one the arbitration promises. *)
Theorem stale_write_admits_second_winner :
  let d := Scenario.dict in
  let start : GameService.System := (Scenario.store, Scenario.lateCalls) in
  let reopened := (GameService.sys_run d start (take 5 Scenario.lateSchedule)).1 in
  let final := (GameService.sys_run d start Scenario.lateSchedule).1 in
  let log := (GameService.sys_run d start Scenario.lateSchedule).2 in
  (exists g, GameService.getGame 4 "g1" reopened.1 = Some (Redis.VGame g) /\
             status g = ACTIVE /\ winner g = None /\
             (guesses <$> lookupPlayer "p1" (players g)) = Some [] /\
             length (replayLog g) = 1) /\
  (exists a0 a1 a2,
     final.2 = [GameService.Returned (GameService.Success a0);
                GameService.Returned (GameService.Success a1);
                GameService.Returned (GameService.Success a2)] /\
     GameService.r_winner a0 = Some (GameService.mkWinnerSummary "p1" 1 0) /\
     GameService.r_winner a1 = None /\ GameService.r_gameEnded a1 = false /\
     GameService.r_winner a2 = Some (GameService.mkWinnerSummary "p2" 2 70000)) /\
  (exists g, GameService.getGame 70003 "g1" final.1 = Some (Redis.VGame g) /\
             status g = FINISHED /\ winner g = Some "p2" /\
             (guesses <$> lookupPlayer "p1" (players g)) = Some []) /\
  acquires log = [("p1", true); ("p2", true)] /\
  writtenWinners log = [Some "p1"; None; Some "p2"] /\
  ~ arbitrated log.
Proof.
  intros d start reopened final log.
  assert (Ha : acquires log = [("p1", true); ("p2", true)]) by (vm_compute; reflexivity).
  split_and!.
  - eexists. split; [vm_compute; reflexivity|]. vm_compute. repeat split.
  - eexists _, _, _. split; [vm_compute; reflexivity|]. vm_compute. repeat split.
  - eexists. split; [vm_compute; reflexivity|]. vm_compute. repeat split.
  - exact Ha.
  - vm_compute. reflexivity.
  - intros (champion & H1 & _). rewrite Ha in H1.
    destruct champion as [p|]; [|discriminate].
    destruct H1 as (rest & [= <- <-] & HF).
    apply Forall_cons in HF as [HF _]. discriminate HF.
Qed.

(** Within the window: both players submit the target together. *)
Example win_arbitration_prompt_run :
  let log :=
    (GameService.sys_run Scenario.dict (Scenario.store, Scenario.calls)
       Scenario.promptSchedule).2 in
  acquires log = [("p1", true); ("p2", false)] /\
  writtenWinners log = [Some "p1"; Some "p1"] /\
  arbitrated log.
Proof.
  intros log. split; [vm_compute; reflexivity|]. split; [vm_compute; reflexivity|].
  apply (win_arbitration_within_lock_window Scenario.dict "g1" 0).
  - vm_compute. reflexivity.
  - intros e g He Hv. vm_compute in He. injection He as <-.
    cbn in Hv. injection Hv as <-. reflexivity.
  - repeat constructor; by eexists _, _.
  - repeat constructor; cbn; lia.
Qed.

(** C3 for the fresh match: the guess "slate" submitted under the name
    [constructor]. *)
Lemma inherited_player_id_throws_witness :
  GameService.processGuess Scenario.dict 0 1 2 3 Scenario.store "g1" "constructor" "slate"
  = (Scenario.store, GameService.Thrown).
Proof.
  apply (inherited_player_id_throws Scenario.dict 0 1 2 3 4 Scenario.store "g1"
           "constructor" "slate" Scenario.game Scenario.registry "sock-9").
  - vm_compute. reflexivity.
  - reflexivity.
  - reflexivity.
  - apply list_elem_of_here.
  - repeat constructor; cbn; lia.
  - reflexivity.
  - vm_compute. apply list_elem_of_In. cbn. tauto.
Defined.

(** The same guess of [p1] is accepted. *)
Example processGuess_accepts_slate :
  exists s' a,
    GameService.processGuess Scenario.dict 0 1 2 3 Scenario.store "g1" "p1" " slate "
    = (s', GameService.Returned (GameService.Success a)).
Proof.
  apply processGuess_accepts. exists Scenario.game, Scenario.p1.
  split; [vm_compute; reflexivity|]. split; [reflexivity|]. split; [reflexivity|].
  split; [reflexivity|]. split; [|vm_compute; lia].
  vm_compute. apply list_elem_of_In. cbn. tauto.
Qed.

(** C4 for the guess SLATE of [p1]: the event addressed to the socket of
    [p2] carries the colours and the ordinal. *)
Lemma opponent_sees_colors_only_witness :
  exists a cols,
    (SocketHandlers.onGameGuess Scenario.dict 0 1 2 3 4 Scenario.registry "sock-1" (Some "p1")
       Scenario.store "g1" "slate").2 = Some a /\
    colors_of (evaluation (GameService.r_guess a)) = Some cols /\
    length cols = 5 /\
    "game:opponent:guess" = "game:opponent:guess" /\
    JObj [("colors", JArr [JStr "grey"; JStr "grey"; JStr "green"; JStr "grey"; JStr "green"]);
          ("guessNumber", JNum 1)]
    = JObj [("colors", JArr (map (fun c => JStr (SocketHandlers.colorName c)) cols));
            ("guessNumber", JNum (Z.of_nat (guessNumber (GameService.r_guess a))))].
Proof.
  assert (Hascii : Js.ascii_only "slate") by (repeat constructor; cbn; lia).
  apply (proj1 (opponent_sees_colors_only Scenario.dict 0 1 2 3 4 Scenario.registry "sock-1"
                  (Some "p1") Scenario.store "g1" "slate"
                  (BotService.mkBot "easy" "CRANE" [] [] 0) Hascii)
           (mkEmit "sock-2" "game:opponent:guess"
              (JObj [("colors", JArr [JStr "grey"; JStr "grey"; JStr "green";
                                      JStr "grey"; JStr "green"]);
                     ("guessNumber", JNum 1)]))).
  - vm_compute. apply list_elem_of_further, list_elem_of_here.
  - left. discriminate.
Defined.

(** C10 for a forfeit of [p2] after [p1] has won. *)
Lemma forfeit_inactive_is_noop_witness :
  GameService.forfeitGame 10 11 Scenario.finishedStore "g1" "p2" = (None, Scenario.finishedStore).
Proof.
  apply forfeit_inactive_is_noop. right.
  exists (GameService.withStatus Scenario.game FINISHED (Some "p1") (Some 5%Z)).
  split; [vm_compute; reflexivity | discriminate].
Defined.

(* ===================================================================== *)
(** * Examples *)
(* ===================================================================== *)

Example evaluateGuess_crane_react :
  colors_of (WordService.evaluateGuess "CRANE" "REACT")
  = Some [yellow; yellow; green; grey; yellow].
Proof. reflexivity. Qed.

Example evaluateGuess_same_word :
  colors_of (WordService.evaluateGuess "CRANE" "crane")
  = Some [green; green; green; green; green].
Proof. reflexivity. Qed.

Example getPattern_llama_alloy : BotService.getPattern "LLAMA" "ALLOY" = "YGYXX".
Proof. reflexivity. Qed.

Example equal_ratings_1200 :
  EloService.newRating (EloService.mr_winner (EloService.calculateMatchResult 1200 1200))
  = 1216%Z /\
  EloService.newRating (EloService.mr_loser (EloService.calculateMatchResult 1200 1200))
  = 1184%Z.
Proof. exact (matchResult_equal 1200). Qed.

(* ===================================================================== *)
(** * Further properties of the services *)
(* ===================================================================== *)

Lemma foldl_seq_sim {A B} (f : A -> nat -> A) (h : B -> nat -> B)
    (I : nat -> A -> B -> Prop) (n : nat) :
  (forall k a b, I k a b -> I (S k) (f a k) (h b k)) ->
  forall start a b, I start a b ->
    I (start + n) (foldl f a (seq start n)) (foldl h b (seq start n)).
Proof.
  intros Hstep. induction n as [|n IH]; intros start a b H; cbn [seq foldl].
  - by rewrite Nat.add_0_r.
  - replace (start + S n) with (S start + n) by lia. apply IH, Hstep, H.
Qed.

Lemma patSim_first g t p e i :
  patSim 0 p e ->
  patSim 0 (BotService.pat_first_step g t p i) (WordService.first_pass_step g t e i).
Proof.
  intros (Hm & Hl & Hg).
  unfold BotService.pat_first_step, WordService.first_pass_step.
  case_bool_decide; [|done].
  split; [|split]; cbn [fst snd].
  - by rewrite Hm.
  - by apply Forall2_insert.
  - intros j c _ Hj. apply list_lookup_insert_Some in Hj as [(-> & Hc & _)|(_ & Hj)].
    + by injection Hc as <-.
    + by apply (Hg j c); [lia|].
Qed.

Lemma patSim_second g t p e i :
  patSim i p e ->
  patSim (S i) (BotService.pat_second_step g t p i)
               (WordService.second_pass_step g t e i).
Proof.
  intros (Hm & Hl & Hg).
  unfold BotService.pat_second_step, WordService.second_pass_step.
  destruct (e.1 !! i) as [[c|]|] eqn:Hi.
  - (* already green *)
    assert (Hc : color c = green) by (by apply (Hg i c)).
    destruct (Forall2_lookup_r _ _ _ _ _ Hl Hi) as (ch & Hp & Hch).
    unfold letterOf in Hch. rewrite Hc in Hch. cbn in Hch. subst ch.
    rewrite Hp, (bool_decide_eq_true_2 _ eq_refl).
    split; [done|]. split; [done|]. intros j c' Hj. apply Hg. lia.
  - destruct (Forall2_lookup_r _ _ _ _ _ Hl Hi) as (ch & Hp & Hch).
    unfold letterOf in Hch. subst ch.
    rewrite Hp. rewrite bool_decide_eq_false_2 by discriminate.
    rewrite Hm.
    destruct (WordService.find_unmatched g t e.2 i) as [j|]; cbn [fst snd].
    + split; [done|]. split; [by apply Forall2_insert|].
      intros k c' Hk Hc'.
      apply list_lookup_insert_Some in Hc' as [(-> & _ & _)|(_ & Hc')]; [lia|].
      apply (Hg k c'); [lia|done].
    + split; [done|]. split.
      * rewrite <- (list_insert_id p.1 i "X"%char Hp). by apply Forall2_insert.
      * intros k c' Hk Hc'.
        apply list_lookup_insert_Some in Hc' as [(-> & _ & _)|(_ & Hc')]; [lia|].
        apply (Hg k c'); [lia|done].
  - assert (Hp : p.1 !! i = None).
    { apply lookup_ge_None. apply lookup_ge_None in Hi.
      by rewrite (Forall2_length _ _ _ Hl). }
    rewrite Hp. rewrite bool_decide_eq_false_2 by discriminate.
    rewrite Hm.
    apply lookup_ge_None in Hi, Hp.
    destruct (WordService.find_unmatched g t e.2 i) as [j|]; cbn [fst snd].
    + rewrite (list_insert_ge p.1) by done. rewrite (list_insert_ge e.1) by done.
      split; [done|]. split; [done|]. intros k c' Hk. apply Hg. lia.
    + rewrite (list_insert_ge e.1) by done.
      split; [done|]. split; [done|]. intros k c' Hk. apply Hg. lia.
Qed.

Lemma letters_of_colors p e cols :
  Forall2 letterOf p e -> colors_of e = Some cols ->
  p = map SocketHandlers.patternLetter cols.
Proof.
  unfold colors_of. intros H. revert cols.
  induction H as [|ch cell p e Hch _ IH]; intros cols Hc.
  - by injection Hc as <-.
  - cbn in Hc. destruct cell as [c|]; [|done]. cbn in Hc.
    destruct (mapM (fmap color) e) as [cols'|] eqn:E; [|done].
    cbn in Hc. injection Hc as <-. cbn. f_equal; [exact Hch|by apply IH].
Qed.


Lemma patSim_init :
  patSim 0 (replicate 5 "X"%char, replicate 5 false)
           (replicate 5 (@None Cell), replicate 5 false).
Proof.
  split; [done|]. split.
  - cbn [replicate fst]. repeat (constructor; [reflexivity|]). constructor.
  - intros i c _ Hi. cbn [fst] in Hi. apply lookup_replicate in Hi as [Hi _].
    discriminate.
Qed.

Lemma patSim_loops (g t : list ascii) :
  patSim 5
    (foldl (BotService.pat_second_step g t)
       (foldl (BotService.pat_first_step g t)
          (replicate 5 "X"%char, replicate 5 false) (seq 0 5))
       (seq 0 5))
    (WordService.second_pass g t 5).
Proof.
  unfold WordService.second_pass, WordService.first_pass.
  generalize (seq 0 5) at 1 3. intros l1.
  assert (H1 : patSim 0
            (foldl (BotService.pat_first_step g t)
               (replicate 5 "X"%char, replicate 5 false) l1)
            (foldl (WordService.first_pass_step g t)
               (replicate 5 None, replicate 5 false) l1)).
  { generalize patSim_init.
    generalize (replicate 5 "X"%char, replicate 5 false).
    generalize (replicate 5 (@None Cell), replicate 5 false).
    induction l1 as [|i l1 IH]; intros e p H; [exact H|].
    cbn [foldl]. apply IH. by apply patSim_first. }
  revert H1.
  generalize (foldl (BotService.pat_first_step g t)
               (replicate 5 "X"%char, replicate 5 false) l1).
  generalize (foldl (WordService.first_pass_step g t)
               (replicate 5 None, replicate 5 false) l1).
  intros e p H1.
  exact (foldl_seq_sim (BotService.pat_second_step g t)
           (WordService.second_pass_step g t) patSim 5
           (fun k a b => patSim_second g t a b k) 0 p e H1).
Qed.

Lemma evaluateGuess_unfold guess target :
  WordService.evaluateGuess guess target
  = (WordService.second_pass (Js.split (Js.toUpperCase guess))
       (Js.split (Js.toUpperCase target)) 5).1.
Proof. reflexivity. Qed.

Lemma getPattern_unfold guess target :
  BotService.getPattern guess target
  = Js.join (foldl (BotService.pat_second_step (Js.split guess) (Js.split target))
       (foldl (BotService.pat_first_step (Js.split guess) (Js.split target))
          (replicate 5 "X"%char, replicate 5 false) (seq 0 5))
       (seq 0 5)).1.
Proof. reflexivity. Qed.

Lemma getPattern_of_colors (guess target : string) (cols : list Color) :
  colors_of (WordService.evaluateGuess guess target) = Some cols ->
  BotService.getPattern (Js.toUpperCase guess) (Js.toUpperCase target)
  = Js.join (map SocketHandlers.patternLetter cols).
Proof.
  intros Hc. rewrite evaluateGuess_unfold in Hc. rewrite getPattern_unfold.
  destruct (patSim_loops (Js.split (Js.toUpperCase guess))
              (Js.split (Js.toUpperCase target))) as (_ & H2 & _).
  by rewrite (letters_of_colors _ _ _ H2 Hc).
Qed.

(** X1.  On ASCII text, the bot's [getPattern] and the server's
    [evaluateGuess] are the same rule: [evaluateGuess] yields five colours,
    and the pattern of the upper-cased guess against the upper-cased target
    is their letters, G for green, Y for yellow and X for grey. *)
Theorem getPattern_agrees_with_evaluateGuess (guess target : string) :
  Js.ascii_only guess -> Js.ascii_only target ->
  exists cols,
    colors_of (WordService.evaluateGuess guess target) = Some cols /\
    length cols = 5 /\
    BotService.getPattern (Js.toUpperCase guess) (Js.toUpperCase target)
    = Js.join (map SocketHandlers.patternLetter cols).
Proof.
  intros _ _.
  destruct (evaluateGuess_colors guess target) as (cols & Hc & Hl).
  exists cols. split; [exact Hc|]. split; [exact Hl|].
  by apply getPattern_of_colors.
Qed.

(** X1 at the guess llama against Alloy. *)
Lemma getPattern_agrees_with_evaluateGuess_witness :
  colors_of (WordService.evaluateGuess "llama" "Alloy")
  = Some [yellow; green; yellow; grey; grey] /\
  BotService.getPattern "LLAMA" "ALLOY" = "YGYXX".
Proof.
  destruct (getPattern_agrees_with_evaluateGuess "llama" "Alloy")
    as (cols & Hc & _ & Hp).
  - repeat constructor; cbn; lia.
  - repeat constructor; cbn; lia.
  - assert (E : cols = [yellow; green; yellow; grey; grey]).
    { vm_compute in Hc. by injection Hc as <-. }
    subst cols. split; [exact Hc|exact Hp].
Defined.

Lemma toUpperCase_split s :
  Js.split (Js.toUpperCase s) = map Js.upper_char (Js.split s).
Proof. unfold Js.toUpperCase. apply split_join. Qed.

Lemma toUpperCase_length s : Js.length (Js.toUpperCase s) = Js.length s.
Proof. by rewrite <- !split_length, toUpperCase_split, length_map. Qed.

Lemma split_inj a b : Js.split a = Js.split b -> a = b.
Proof. intros H. by rewrite <- (join_split a), <- (join_split b), H. Qed.

(** The second pass of the rule paints a position green exactly when the
    first pass flagged it. *)
Lemma second_pass_all_green t todo m :
  EvalSpec.second_pass t todo m = replicate (length todo) green <->
  Forall (fun cb : ascii * bool => cb.2 = true) todo.
Proof.
  revert m. induction todo as [|[c b] todo IH]; intros m; cbn [EvalSpec.second_pass length replicate].
  - split; [constructor|done].
  - destruct b.
    + split.
      * intros H. injection H as H. constructor; [done|]. by apply (IH m).
      * intros H. apply Forall_cons in H as [_ H]. f_equal. by apply IH.
    + split.
      * destruct (EvalSpec.leftmost c t m); discriminate.
      * intros H. apply Forall_cons in H as [H _]. discriminate.
Qed.

Lemma first_pass_all_true (g t : list ascii) :
  length g = length t ->
  Forall (fun cb : ascii * bool => cb.2 = true) (zip g (EvalSpec.first_pass g t)) <->
  g = t.
Proof.
  unfold EvalSpec.first_pass. revert t.
  induction g as [|a g IH]; intros [|b t] Hl; try discriminate; cbn.
  - split; [done|constructor].
  - injection Hl as Hl. rewrite Forall_cons, (IH t Hl). cbn.
    rewrite bool_decide_eq_true. split; [by intros [-> ->]|by intros [= -> ->]].
Qed.

Lemma all_green_lists (g t : list ascii) :
  length g = 5 -> length t = 5 ->
  colors_of (WordService.second_pass g t 5).1 = Some (replicate 5 green) <-> g = t.
Proof.
  intros Hg Ht.
  assert (Lf : length (EvalSpec.first_pass g t) = 5).
  { unfold EvalSpec.first_pass. rewrite length_zip_with. lia. }
  rewrite (evaluate_refines g t Hg Ht), cells_zip by congruence.
  rewrite colors_of_cells by (rewrite evaluate_length; congruence).
  rewrite <- (first_pass_all_true g t) by congruence.
  rewrite <- (second_pass_all_green t _ (EvalSpec.first_pass g t)).
  rewrite length_zip, Hg, Lf. unfold EvalSpec.evaluate. cbn [Nat.min].
  split; [by intros [= ->]|by intros ->].
Qed.

Lemma second_pass_colors (g t : list ascii) :
  exists cols,
    colors_of (WordService.second_pass g t 5).1 = Some cols /\ length cols = 5.
Proof.
  destruct (second_pass_filled g t 5) as [Hlen Hset]; [lia|].
  destruct (Hset 0) as [c0 H0]; [lia|]. destruct (Hset 1) as [c1 H1]; [lia|].
  destruct (Hset 2) as [c2 H2]; [lia|]. destruct (Hset 3) as [c3 H3]; [lia|].
  destruct (Hset 4) as [c4 H4]; [lia|].
  destruct (WordService.second_pass g t 5).1 as [|x0 [|x1 [|x2 [|x3 [|x4 [|]]]]]];
    try discriminate.
  cbn in H0, H1, H2, H3, H4. simplify_eq.
  eexists. split; reflexivity.
Qed.

Lemma patternLetter_green c : SocketHandlers.patternLetter c = "G"%char <-> c = green.
Proof. by destruct c. Qed.

Lemma all_G_all_green cols :
  map SocketHandlers.patternLetter cols = replicate 5 "G"%char <->
  cols = replicate 5 green.
Proof.
  split; [|by intros ->].
  do 5 (destruct cols as [|[] cols]; try discriminate).
  destruct cols; [done|discriminate].
Qed.

(** X2.  For ASCII texts of five characters, [isCorrectGuess] holds exactly
    when [evaluateGuess] colours all five cells green. *)
Theorem correct_guess_iff_all_green (guess target : string) :
  Js.ascii_only guess -> Js.ascii_only target ->
  Js.length guess = 5 -> Js.length target = 5 ->
  (WordService.isCorrectGuess guess target = true <->
   colors_of (WordService.evaluateGuess guess target)
   = Some [green; green; green; green; green]).
Proof.
  intros _ _ Hg Ht. unfold WordService.isCorrectGuess.
  rewrite bool_decide_eq_true, evaluateGuess_unfold.
  change [green; green; green; green; green] with (replicate 5 green).
  rewrite all_green_lists
    by (by rewrite split_length, toUpperCase_length).
  split; [by intros ->|apply split_inj].
Qed.

(** X2 at crane against CRANE. *)
Lemma correct_guess_iff_all_green_witness :
  WordService.isCorrectGuess "crane" "CRANE" = true <->
  colors_of (WordService.evaluateGuess "crane" "CRANE")
  = Some [green; green; green; green; green].
Proof.
  apply correct_guess_iff_all_green;
    [repeat constructor; cbn; lia | repeat constructor; cbn; lia
    | reflexivity | reflexivity].
Defined.

(** X3.  For ASCII texts of five characters, [getPattern] answers GGGGG
    exactly when guess and target are the same text. *)
Theorem getPattern_all_green_iff_equal (guess target : string) :
  Js.ascii_only guess -> Js.ascii_only target ->
  Js.length guess = 5 -> Js.length target = 5 ->
  (BotService.getPattern guess target = "GGGGG" <-> guess = target).
Proof.
  intros _ _ Hg Ht. rewrite getPattern_unfold.
  destruct (patSim_loops (Js.split guess) (Js.split target)) as (_ & H2 & _).
  destruct (second_pass_colors (Js.split guess) (Js.split target)) as (cols & Hc & Hl).
  rewrite (letters_of_colors _ _ _ H2 Hc).
  split.
  - intros H. apply split_inj.
    apply (all_green_lists _ _); [by rewrite split_length..|].
    rewrite Hc. f_equal. apply all_G_all_green.
    apply (f_equal Js.split) in H. by rewrite split_join in H.
  - intros E. apply (f_equal Js.split) in E.
    apply (all_green_lists _ _) in E; [|by rewrite split_length..].
    rewrite Hc in E. injection E as ->. reflexivity.
Qed.

(** X3 at CRANE against itself. *)
Lemma getPattern_all_green_iff_equal_witness :
  BotService.getPattern "CRANE" "CRANE" = "GGGGG" <-> "CRANE" = "CRANE".
Proof.
  apply getPattern_all_green_iff_equal;
    [repeat constructor; cbn; lia | repeat constructor; cbn; lia
    | reflexivity | reflexivity].
Defined.

(* ------------------------------------------------------------------ *)
(** * The dictionaries *)

Lemma setOf_acc_NoDup (items acc : list string) :
  NoDup acc ->
  NoDup (foldl (fun acc x => if bool_decide (x ∈ acc) then acc else acc ++ [x])
               acc items).
Proof.
  revert acc. induction items as [|x items IH]; intros acc H; cbn [foldl]; [done|].
  apply IH. case_bool_decide; [done|].
  apply NoDup_app. split; [done|]. split; [|apply NoDup_singleton].
  intros y Hy ->%list_elem_of_singleton. done.
Qed.

Lemma setOf_acc_length (items acc : list string) :
  length (foldl (fun acc x => if bool_decide (x ∈ acc) then acc else acc ++ [x])
                acc items)
  <= length acc + length items.
Proof.
  revert acc. induction items as [|x items IH]; intros acc; cbn [foldl length]; [lia|].
  etrans; [apply IH|]. case_bool_decide; [lia|]. rewrite length_app. cbn. lia.
Qed.

Lemma toUpperCase_idem s : Js.toUpperCase (Js.toUpperCase s) = Js.toUpperCase s.
Proof.
  unfold Js.toUpperCase at 1. rewrite toUpperCase_split.
  unfold Js.toUpperCase. f_equal. rewrite <- list_fmap_compose.
  apply list_fmap_ext. intros _ c _. apply upper_char_idem.
Qed.

(** X4.  After [initialize] on ASCII word lists the valid-guess set has no
    duplicates; a word is a valid guess exactly when its upper-case form is
    the upper-case form of a word of one of the two lists, so every answer
    is a valid guess and the test ignores case; [getAnswerCount] is the
    length of the answer list, and [getValidGuessCount] is at most the two
    lengths together. *)
Theorem initialize_dictionary (answersJson guessesJson : list string) :
  Forall Js.ascii_only answersJson -> Forall Js.ascii_only guessesJson ->
  let d := WordService.initialize answersJson guessesJson in
  NoDup (WordService.validGuesses d) /\
  (forall w, Js.ascii_only w ->
     (WordService.isValidGuess d w = true <->
      Js.toUpperCase w ∈ map Js.toUpperCase (guessesJson ++ answersJson)) /\
     (WordService.isValidAnswer d w = true -> WordService.isValidGuess d w = true) /\
     WordService.isValidGuess d (Js.toUpperCase w) = WordService.isValidGuess d w) /\
  WordService.getAnswerCount d = length answersJson /\
  WordService.getValidGuessCount d <= length guessesJson + length answersJson.
Proof.
  intros _ _ d.
  assert (Hv : forall w, WordService.isValidGuess d w = true <->
                 Js.toUpperCase w ∈ map Js.toUpperCase (guessesJson ++ answersJson)).
  { intros w. unfold WordService.isValidGuess. rewrite bool_decide_eq_true.
    unfold d, WordService.initialize. cbn [WordService.validGuesses].
    by rewrite setOf_elem, map_app. }
  split; [|split; [|split]].
  - unfold d, WordService.initialize, WordService.setOf. cbn [WordService.validGuesses].
    apply setOf_acc_NoDup, NoDup_nil_2.
  - intros w _. split; [exact (Hv w)|]. split.
    + intros Hw. apply Hv. unfold WordService.isValidAnswer in Hw.
      apply bool_decide_eq_true in Hw. unfold d, WordService.initialize in Hw.
      cbn [WordService.answers] in Hw. rewrite map_app. apply elem_of_app. by right.
    + unfold WordService.isValidGuess. by rewrite toUpperCase_idem.
  - unfold WordService.getAnswerCount, d, WordService.initialize.
    cbn [WordService.answers]. apply length_map.
  - unfold WordService.getValidGuessCount, d, WordService.initialize, WordService.setOf.
    cbn [WordService.validGuesses].
    etrans; [apply setOf_acc_length|]. cbn [length].
    rewrite length_app, !length_map. lia.
Qed.

(** X4 on the small dictionary: Crane and zones are valid guesses, and
    there are five answers. *)
Lemma initialize_dictionary_witness :
  WordService.isValidGuess Scenario.dict "Crane" = true /\
  WordService.isValidGuess Scenario.dict "zones" = true /\
  WordService.getAnswerCount Scenario.dict = 5.
Proof.
  destruct (initialize_dictionary ["crane"; "slate"; "alloy"; "llama"; "about"]
              ["salet"; "trace"; "crate"; "zones"]) as (_ & H & Hc & _).
  - repeat constructor; cbn; lia.
  - repeat constructor; cbn; lia.
  - split; [|split; [|exact Hc]].
    + destruct (H "Crane") as [Hiff _]; [repeat constructor; cbn; lia|].
      apply Hiff. vm_compute. apply list_elem_of_In. cbn. tauto.
    + destruct (H "zones") as [Hiff _]; [repeat constructor; cbn; lia|].
      apply Hiff. vm_compute. apply list_elem_of_In. cbn. tauto.
Defined.

(** X5.  On a non-empty answer list of ASCII words, [getRandomAnswer]
    returns an element of the answer list, whatever [Math.random()] returns:
    an upper-case word that [isValidAnswer] and [isValidGuess] accept. *)
Theorem getRandomAnswer_is_an_answer (answersJson guessesJson : list string) :
  Forall Js.ascii_only answersJson -> Forall Js.ascii_only guessesJson ->
  answersJson <> [] ->
  let d := WordService.initialize answersJson guessesJson in
  always (getRandomAnswer d)
         (fun x => exists w, x = Word w /\ w ∈ WordService.answers d /\
                             WordService.isValidAnswer d w = true /\
                             WordService.isValidGuess d w = true /\
                             Js.toUpperCase w = w).
Proof.
  intros _ _ Hne d rnd n.
  assert (Hlen : 0 < length (WordService.answers d)).
  { unfold d, WordService.initialize. cbn [WordService.answers].
    rewrite length_map. destruct answersJson; [done|cbn; lia]. }
  pose proof (randomIndex_lt _ rnd n Hlen) as Hi.
  unfold getRandomAnswer, mbind, Rand_bind, mret, Rand_ret.
  destruct (randomIndex (length (WordService.answers d)) rnd n) as [i n'] eqn:E.
  cbn [fst] in *.
  destruct (pick_in (WordService.answers d) i Hi) as (w & Hp & Hw).
  exists w. split; [exact Hp|]. split; [exact Hw|].
  assert (Hu : Js.toUpperCase w = w).
  { unfold d, WordService.initialize in Hw. cbn [WordService.answers] in Hw.
    apply list_elem_of_fmap in Hw as (w0 & -> & _). apply toUpperCase_idem. }
  split; [|split; [|exact Hu]].
  - unfold WordService.isValidAnswer. rewrite Hu. by apply bool_decide_eq_true.
  - unfold WordService.isValidGuess. rewrite Hu. apply bool_decide_eq_true.
    by apply initialize_answers_valid.
Qed.

(** X5 on the small dictionary. *)
Lemma getRandomAnswer_is_an_answer_witness :
  exists w, (getRandomAnswer Scenario.dict Scenario.draws 0).1 = Word w /\
            w ∈ WordService.answers Scenario.dict.
Proof.
  destruct (getRandomAnswer_is_an_answer
              ["crane"; "slate"; "alloy"; "llama"; "about"]
              ["salet"; "trace"; "crate"; "zones"]
              ltac:(repeat constructor; cbn; lia) ltac:(repeat constructor; cbn; lia)
              ltac:(discriminate) Scenario.draws 0) as (w & H1 & H2 & _).
  exists w. split; [exact H1|exact H2].
Defined.

(* ------------------------------------------------------------------ *)
(** * The store *)

Lemma get_setex now now' key ttl v s :
  Redis.get now' key (Redis.setex now key ttl v s)
  = if (now' <? now + 1000 * ttl)%Z then Some v else None.
Proof. unfold Redis.get, Redis.setex. by rewrite lookup_insert_eq. Qed.

Lemma get_setex_ne now now' key key' ttl v s :
  key <> key' ->
  Redis.get now' key' (Redis.setex now key ttl v s) = Redis.get now' key' s.
Proof. intros H. unfold Redis.get, Redis.setex. by rewrite lookup_insert_ne. Qed.


Lemma getGameState_set now now' gameId state s :
  Redis.getGameState now' gameId (Redis.setGameState now gameId state 3600 s)
  = if (now' <? now + 3600000)%Z then Some (Redis.VGame state) else None.
Proof.
  unfold Redis.getGameState, Redis.setGameState. rewrite get_setex.
  by replace (now + 1000 * 3600)%Z with (now + 3600000)%Z by lia.
Qed.


(* ------------------------------------------------------------------ *)
(** * The paths of processGuess *)

Lemma lookupPlayer_update_ne p q f ps :
  q <> p -> lookupPlayer q (updatePlayer p f ps) = lookupPlayer q ps.
Proof.
  intros Hq. induction ps as [|[k pl] ps IH]; [done|]. cbn.
  destruct (decide (k = p)) as [->|Hk]; cbn.
  - by rewrite !decide_False by done.
  - destruct (decide (k = q)); [done|exact IH].
Qed.

Lemma updatePlayer_keys p f ps : map fst (updatePlayer p f ps) = map fst ps.
Proof.
  induction ps as [|[k pl] ps IH]; [done|]. cbn.
  destruct (decide (k = p)); cbn; [done|by rewrite IH].
Qed.

Lemma afterGetGame_accepted d now gameId playerId guess game player :
  status game = ACTIVE ->
  lookupPlayer playerId (players game) = Some player ->
  Js.length (normalize guess) = 5 ->
  normalize guess ∈ WordService.validGuesses d ->
  length (guesses player) < GameService.MAX_GUESSES ->
  let rec := guessRecordOf now guess game player in
  let game1 := GameService.recordGuess game playerId rec in
  GameService.afterGetGame d now gameId playerId guess (Some (Redis.VGame game))
  = if WordService.isCorrectGuess (normalize guess) (targetWord game)
    then GameService.AtAcquire gameId playerId game1 rec now
    else GameService.AtSetState gameId playerId
           (GameService.conclude game1 playerId rec false false None now).1
           (GameService.conclude game1 playerId rec false false None now).2.
Proof.
  intros Hst Hp Hl Hv Hn rec game1.
  unfold GameService.afterGetGame. fold (normalize guess).
  rewrite Hst, (bool_decide_eq_true_2 _ eq_refl). cbn [negb].
  rewrite Hp, Hl. cbn [Nat.eqb negb].
  unfold WordService.isValidGuess. rewrite toUpperCase_normalize.
  rewrite (bool_decide_eq_true_2 _ Hv). cbn [negb].
  destruct (GameService.MAX_GUESSES <=? length (guesses player)) eqn:E;
    [apply Nat.leb_le in E; lia|].
  fold (guessRecordOf now guess game player). fold rec. fold game1.
  destruct (WordService.isCorrectGuess (normalize guess) (targetWord game)); [done|].
  reflexivity.
Qed.

Lemma run_setState d t times s gameId playerId game a :
  GameService.run d (t :: times) s (GameService.AtSetState gameId playerId game a)
  = (Redis.setGameState t gameId game 3600 s,
     GameService.Returned (GameService.Success a)).
Proof. rewrite run_cons. cbn [GameService.step]. apply run_returned. Qed.

(** A wrong guess takes two round trips: the read and the write. *)
Lemma processGuess_wrong d t1 t2 t3 t4 s gameId playerId guess game player :
  Redis.getGameState t1 gameId s = Some (Redis.VGame game) ->
  status game = ACTIVE ->
  lookupPlayer playerId (players game) = Some player ->
  Js.length (normalize guess) = 5 ->
  normalize guess ∈ WordService.validGuesses d ->
  length (guesses player) < GameService.MAX_GUESSES ->
  WordService.isCorrectGuess (normalize guess) (targetWord game) = false ->
  let rec := guessRecordOf t1 guess game player in
  let c := GameService.conclude (GameService.recordGuess game playerId rec)
             playerId rec false false None t1 in
  GameService.processGuess d t1 t2 t3 t4 s gameId playerId guess
  = (Redis.setGameState t2 gameId c.1 3600 s,
     GameService.Returned (GameService.Success c.2)).
Proof.
  intros Hs Hst Hp Hl Hv Hn Hc rec c.
  unfold GameService.processGuess. rewrite run_cons. cbn [GameService.step].
  rewrite Hs, (afterGetGame_accepted d t1 gameId playerId guess game player) by done.
  rewrite Hc. apply run_setState.
Qed.

(** A correct guess whose win claim succeeds takes three. *)
Lemma processGuess_won d t1 t2 t3 t4 s gameId playerId guess game player :
  Redis.getGameState t1 gameId s = Some (Redis.VGame game) ->
  status game = ACTIVE ->
  lookupPlayer playerId (players game) = Some player ->
  Js.length (normalize guess) = 5 ->
  normalize guess ∈ WordService.validGuesses d ->
  length (guesses player) < GameService.MAX_GUESSES ->
  WordService.isCorrectGuess (normalize guess) (targetWord game) = true ->
  Redis.getWinner t2 gameId s = None ->
  let rec := guessRecordOf t1 guess game player in
  let game1 := GameService.recordGuess game playerId rec in
  let c := GameService.conclude
             (GameService.withStatus game1 FINISHED (Some playerId) (Some t1))
             playerId rec true true
             (Some (GameService.mkWinnerSummary playerId
                      (GameService.guessCountOf playerId game1)
                      (t1 - startTime game1))) t1 in
  GameService.processGuess d t1 t2 t3 t4 s gameId playerId guess
  = (Redis.setGameState t3 gameId c.1 3600
       (<[Redis.winnerKey gameId :=
            Redis.mkEntry (Redis.VWinner (mkWinnerInfo playerId t1)) (t2 + 1000 * 60)]> s),
     GameService.Returned (GameService.Success c.2)).
Proof.
  intros Hs Hst Hp Hl Hv Hn Hc Hw rec game1 c.
  unfold GameService.processGuess. rewrite run_cons. cbn [GameService.step].
  rewrite Hs, (afterGetGame_accepted d t1 gameId playerId guess game player) by done.
  rewrite Hc. fold rec. fold game1.
  rewrite run_cons. cbn [GameService.step].
  unfold Redis.acquireWinLock, Redis.set_nx_ex.
  unfold Redis.getWinner in Hw. rewrite Hw.
  apply run_setState.
Qed.

(** A correct guess whose win claim fails takes four. *)
Lemma processGuess_lost d t1 t2 t3 t4 s gameId playerId guess game player v :
  Redis.getGameState t1 gameId s = Some (Redis.VGame game) ->
  status game = ACTIVE ->
  lookupPlayer playerId (players game) = Some player ->
  Js.length (normalize guess) = 5 ->
  normalize guess ∈ WordService.validGuesses d ->
  length (guesses player) < GameService.MAX_GUESSES ->
  WordService.isCorrectGuess (normalize guess) (targetWord game) = true ->
  Redis.getWinner t2 gameId s = Some v ->
  let rec := guessRecordOf t1 guess game player in
  let game1 := GameService.recordGuess game playerId rec in
  let ge :=
    match Redis.getWinner t3 gameId s with
    | Some (Redis.VWinner existingWinner) =>
        (GameService.withStatus game1 FINISHED (Some (w_playerId existingWinner))
           (Some (w_timestamp existingWinner)), true)
    | Some (Redis.VGame _) => (GameService.withStatus game1 FINISHED None None, true)
    | None => (game1, false)
    end in
  let c := GameService.conclude ge.1 playerId rec true ge.2 None t1 in
  GameService.processGuess d t1 t2 t3 t4 s gameId playerId guess
  = (Redis.setGameState t4 gameId c.1 3600 s,
     GameService.Returned (GameService.Success c.2)).
Proof.
  intros Hs Hst Hp Hl Hv Hn Hc Hw rec game1 ge c.
  unfold GameService.processGuess. rewrite run_cons. cbn [GameService.step].
  rewrite Hs, (afterGetGame_accepted d t1 gameId playerId guess game player) by done.
  rewrite Hc. fold rec. fold game1.
  rewrite run_cons. cbn [GameService.step].
  unfold Redis.acquireWinLock, Redis.set_nx_ex.
  unfold Redis.getWinner in Hw. rewrite Hw.
  rewrite run_cons. cbn [GameService.step].
  subst c ge.
  destruct (Redis.getWinner t3 gameId s) as [[?|?]|]; apply run_setState.
Qed.

Lemma conclude_shape game p rec ic ge wi ts :
  let c := GameService.conclude game p rec ic ge wi ts in
  players c.1 = players game /\ replayLog c.1 = replayLog game /\
  targetWord c.1 = targetWord game /\ startTime c.1 = startTime game /\
  game_id c.1 = game_id game /\
  GameService.r_guess c.2 = rec /\ GameService.r_isCorrect c.2 = ic /\
  GameService.r_winner c.2 = wi /\
  GameService.r_remainingGuesses c.2
  = (Z.of_nat GameService.MAX_GUESSES - Z.of_nat (GameService.guessCountOf p game))%Z.
Proof.
  unfold GameService.conclude. cbv zeta.
  destruct (negb ge && forallb _ (players game)); cbn; done.
Qed.

Lemma guessCountOf_recorded game p rec player st w e :
  lookupPlayer p (players game) = Some player ->
  GameService.guessCountOf p
    (GameService.withStatus (GameService.recordGuess game p rec) st w e)
  = length (guesses player) + 1 /\
  GameService.guessCountOf p (GameService.recordGuess game p rec)
  = length (guesses player) + 1.
Proof.
  intros Hp. unfold GameService.guessCountOf. cbn [players GameService.withStatus GameService.recordGuess].
  rewrite (lookupPlayer_update _ _ _ _ Hp). cbn [guesses].
  rewrite length_app. cbn. done.
Qed.

Lemma recordGuess_slot game p rec player :
  lookupPlayer p (players game) = Some player ->
  (exists pl', lookupPlayer p (players (GameService.recordGuess game p rec)) = Some pl' /\
               guesses pl' = guesses player ++ [rec] /\ id pl' = id player /\
               isBot pl' = isBot player /\ elo pl' = elo player) /\
  (forall q, q <> p ->
     lookupPlayer q (players (GameService.recordGuess game p rec))
     = lookupPlayer q (players game)) /\
  map fst (players (GameService.recordGuess game p rec)) = map fst (players game).
Proof.
  intros Hp. cbn [players GameService.recordGuess]. split; [|split].
  - rewrite (lookupPlayer_update _ _ _ _ Hp). by eexists.
  - intros q Hq. by apply lookupPlayer_update_ne.
  - apply updatePlayer_keys.
Qed.

(** X6.  When [processGuess] has nothing to object (ACTIVE match, a player
    of the match, a five-letter dictionary word in ASCII, fewer than six
    guesses), it returns success with the guess record (normalised word,
    evaluation, instant, ordinal one more than the guesses so far),
    [isCorrect] as [isCorrectGuess] says and [remainingGuesses] one less
    than before; the match it writes, readable for an hour, has that record
    appended to the guesses of the player and to the replay log, and the
    other players, the key order, the target and the start time as they
    were. *)
Theorem accepted_guess_is_recorded (d : WordService.Dict) (t1 t2 t3 t4 : Z)
    (s : Redis.Store) (gameId playerId guess : string) (game : Game)
    (player : Player) :
  Js.ascii_only guess -> Js.ascii_only (targetWord game) ->
  Redis.getGameState t1 gameId s = Some (Redis.VGame game) ->
  status game = ACTIVE ->
  lookupPlayer playerId (players game) = Some player ->
  Js.length (normalize guess) = 5 ->
  normalize guess ∈ WordService.validGuesses d ->
  length (guesses player) < GameService.MAX_GUESSES ->
  exists s' a game' tw,
    GameService.processGuess d t1 t2 t3 t4 s gameId playerId guess
    = (s', GameService.Returned (GameService.Success a)) /\
    GameService.r_guess a = guessRecordOf t1 guess game player /\
    GameService.r_isCorrect a
    = WordService.isCorrectGuess (normalize guess) (targetWord game) /\
    GameService.r_remainingGuesses a = (5 - Z.of_nat (length (guesses player)))%Z /\
    tw ∈ [t2; t3; t4] /\
    (forall t, (t < tw + 3600000)%Z ->
       GameService.getGame t gameId s' = Some (Redis.VGame game')) /\
    (exists pl', lookupPlayer playerId (players game') = Some pl' /\
                 guesses pl' = guesses player ++ [GameService.r_guess a]) /\
    (forall q, q <> playerId ->
       lookupPlayer q (players game') = lookupPlayer q (players game)) /\
    map fst (players game') = map fst (players game) /\
    replayLog game' = replayLog game ++ [ReplayGuess playerId (GameService.r_guess a)] /\
    targetWord game' = targetWord game /\ startTime game' = startTime game.
Proof.
  intros _ _ Hs Hst Hp Hl Hv Hn.
  set (rec := guessRecordOf t1 guess game player).
  set (game1 := GameService.recordGuess game playerId rec).
  destruct (recordGuess_slot game playerId rec player Hp) as ((pl' & Hpl & Hgs & _) & Hoth & Hkeys).
  assert (Hfin : forall G tw s0 ic ge wi,
            players G = players game1 -> replayLog G = replayLog game1 ->
            targetWord G = targetWord game -> startTime G = startTime game ->
            tw ∈ [t2; t3; t4] ->
            ic = WordService.isCorrectGuess (normalize guess) (targetWord game) ->
            let c := GameService.conclude G playerId rec ic ge wi t1 in
            GameService.processGuess d t1 t2 t3 t4 s gameId playerId guess
            = (Redis.setGameState tw gameId c.1 3600 s0,
               GameService.Returned (GameService.Success c.2)) ->
            exists s' a game' tw,
              GameService.processGuess d t1 t2 t3 t4 s gameId playerId guess
              = (s', GameService.Returned (GameService.Success a)) /\
              GameService.r_guess a = rec /\
              GameService.r_isCorrect a
              = WordService.isCorrectGuess (normalize guess) (targetWord game) /\
              GameService.r_remainingGuesses a = (5 - Z.of_nat (length (guesses player)))%Z /\
              tw ∈ [t2; t3; t4] /\
              (forall t, (t < tw + 3600000)%Z ->
                 GameService.getGame t gameId s' = Some (Redis.VGame game')) /\
              (exists pl', lookupPlayer playerId (players game') = Some pl' /\
                           guesses pl' = guesses player ++ [GameService.r_guess a]) /\
              (forall q, q <> playerId ->
                 lookupPlayer q (players game') = lookupPlayer q (players game)) /\
              map fst (players game') = map fst (players game) /\
              replayLog game' = replayLog game ++ [ReplayGuess playerId (GameService.r_guess a)] /\
              targetWord game' = targetWord game /\ startTime game' = startTime game).
  { subst game1. intros G tw s0 ic ge wi HG1 HG2 HG3 HG4 Htw Hic c E.
    destruct (conclude_shape G playerId rec ic ge wi t1)
      as (C1 & C2 & C3 & C4 & _ & C6 & C7 & _ & C9).
    fold c in C1, C2, C3, C4, C6, C7, C9.
    exists (Redis.setGameState tw gameId c.1 3600 s0), c.2, c.1, tw.
    split; [exact E|]. split; [exact C6|]. split; [by rewrite C7|].
    split.
    { rewrite C9. unfold GameService.guessCountOf. rewrite HG1, Hpl, Hgs, length_app.
      unfold GameService.MAX_GUESSES. cbn [length]. lia. }
    split; [exact Htw|]. split.
    { intros t Ht. unfold GameService.getGame. rewrite getGameState_set.
      by apply Z.ltb_lt in Ht as ->. }
    rewrite C1, C2, C3, C4, C6, HG1, HG2, HG3, HG4.
    split; [by exists pl'|]. split; [exact Hoth|]. split; [exact Hkeys|]. done. }
  destruct (WordService.isCorrectGuess (normalize guess) (targetWord game)) eqn:Hc.
  - destruct (Redis.getWinner t2 gameId s) as [v|] eqn:Hw.
    + pose proof (processGuess_lost d t1 t2 t3 t4 s gameId playerId guess game player v
                    Hs Hst Hp Hl Hv Hn Hc Hw) as E.
      cbv zeta in E.
      destruct (Redis.getWinner t3 gameId s) as [[?|?]|];
        (eapply Hfin; [| | | | |reflexivity|exact E]; try done;
         rewrite !list_elem_of_In; cbn; tauto).
    + pose proof (processGuess_won d t1 t2 t3 t4 s gameId playerId guess game player
                    Hs Hst Hp Hl Hv Hn Hc Hw) as E.
      cbv zeta in E.
      eapply Hfin; [| | | | |reflexivity|exact E]; try done.
      rewrite !list_elem_of_In; cbn; tauto.
  - pose proof (processGuess_wrong d t1 t2 t3 t4 s gameId playerId guess game player
                  Hs Hst Hp Hl Hv Hn Hc) as E.
    cbv zeta in E.
    eapply Hfin; [| | | | |reflexivity|exact E]; try done.
    rewrite !list_elem_of_In; cbn; tauto.
Qed.

(** X6 at the first guess of [p1], slate, in the fresh match. *)
Lemma accepted_guess_is_recorded_witness :
  exists s' a,
    GameService.processGuess Scenario.dict 0 1 2 3 Scenario.store "g1" "p1" " slate "
    = (s', GameService.Returned (GameService.Success a)) /\
    GameService.r_remainingGuesses a = 5%Z /\
    guessNumber (GameService.r_guess a) = 1.
Proof.
  destruct (accepted_guess_is_recorded Scenario.dict 0 1 2 3 Scenario.store
              "g1" "p1" " slate " Scenario.game Scenario.p1)
    as (s' & a & g' & tw & E & Hg & _ & Hr & _).
  - repeat constructor; cbn; lia.
  - repeat constructor; cbn; lia.
  - vm_compute. reflexivity.
  - reflexivity.
  - reflexivity.
  - reflexivity.
  - vm_compute. apply list_elem_of_In. cbn. tauto.
  - vm_compute. lia.
  - exists s', a. split; [exact E|]. split; [exact Hr|]. by rewrite Hg.
Defined.

Lemma forallb_Forall_leb (ps : list (string * Player)) :
  forallb (fun kp => GameService.MAX_GUESSES <=? length (guesses kp.2)) ps = true <->
  Forall (fun kp => 6 <= length (guesses kp.2)) ps.
Proof.
  rewrite forallb_forall, Forall_forall. unfold GameService.MAX_GUESSES.
  split; intros H x Hx.
  - apply Nat.leb_le, H. by apply list_elem_of_In.
  - apply Nat.leb_le, H. by apply list_elem_of_In.
Qed.

(** X7.  An accepted wrong guess is written in one [setGameState] and never
    names a winner.  It ends the match exactly when every player of the
    written match has six guesses or more; the match is then FINISHED
    without winner and ends at the instant of the guess, and otherwise it
    keeps its status, winner and end time. *)
Theorem wrong_guess_draw_rule (d : WordService.Dict) (t1 t2 t3 t4 : Z)
    (s : Redis.Store) (gameId playerId guess : string) (game : Game)
    (player : Player) :
  Js.ascii_only guess -> Js.ascii_only (targetWord game) ->
  Redis.getGameState t1 gameId s = Some (Redis.VGame game) ->
  status game = ACTIVE ->
  lookupPlayer playerId (players game) = Some player ->
  Js.length (normalize guess) = 5 ->
  normalize guess ∈ WordService.validGuesses d ->
  length (guesses player) < GameService.MAX_GUESSES ->
  WordService.isCorrectGuess (normalize guess) (targetWord game) = false ->
  exists a game',
    GameService.processGuess d t1 t2 t3 t4 s gameId playerId guess
    = (Redis.setGameState t2 gameId game' 3600 s,
       GameService.Returned (GameService.Success a)) /\
    GameService.r_isCorrect a = false /\ GameService.r_winner a = None /\
    players game' = players (GameService.recordGuess game playerId (GameService.r_guess a)) /\
    (GameService.r_gameEnded a = true <->
     Forall (fun kp => 6 <= length (guesses kp.2)) (players game')) /\
    (GameService.r_gameEnded a = true ->
     status game' = FINISHED /\ winner game' = None /\ endTime game' = Some t1) /\
    (GameService.r_gameEnded a = false ->
     status game' = ACTIVE /\ winner game' = winner game /\ endTime game' = endTime game).
Proof.
  intros _ _ Hs Hst Hp Hl Hv Hn Hc.
  pose proof (processGuess_wrong d t1 t2 t3 t4 s gameId playerId guess game player
                Hs Hst Hp Hl Hv Hn Hc) as E. cbv zeta in E.
  set (rec := guessRecordOf t1 guess game player) in *.
  eexists _, _. split; [exact E|].
  unfold GameService.conclude. cbv zeta. cbn [negb andb orb fst snd].
  destruct (forallb _ (players (GameService.recordGuess game playerId rec))) eqn:Hx;
    cbn [GameService.r_isCorrect GameService.r_winner GameService.r_gameEnded
         GameService.r_guess GameService.withStatus players status winner endTime].
  - apply forallb_Forall_leb in Hx. repeat split; try done.
  - repeat split; try done.
    intros HF. apply forallb_Forall_leb in HF. congruence.
Qed.

(** X7 at a wrong first guess, which does not end the match. *)
Lemma wrong_guess_draw_rule_witness :
  exists a game',
    GameService.processGuess Scenario.dict 0 1 2 3 Scenario.store "g1" "p1" "slate"
    = (Redis.setGameState 1 "g1" game' 3600 Scenario.store,
       GameService.Returned (GameService.Success a)) /\
    GameService.r_gameEnded a = false /\ status game' = ACTIVE.
Proof.
  destruct (wrong_guess_draw_rule Scenario.dict 0 1 2 3 Scenario.store
              "g1" "p1" "slate" Scenario.game Scenario.p1)
    as (a & g' & E & _ & _ & Hpl & Hiff & _ & Hno).
  - repeat constructor; cbn; lia.
  - repeat constructor; cbn; lia.
  - vm_compute. reflexivity.
  - reflexivity.
  - reflexivity.
  - reflexivity.
  - vm_compute. apply list_elem_of_In. cbn. tauto.
  - vm_compute. lia.
  - reflexivity.
  - assert (Hge : GameService.r_gameEnded a = false).
    { destruct (GameService.r_gameEnded a) eqn:Hg; [|done].
      exfalso. apply proj1 in Hiff. specialize (Hiff eq_refl).
      rewrite Hpl in Hiff. cbn in Hiff.
      apply Forall_cons in Hiff as [_ Hiff]. apply Forall_cons in Hiff as [Hiff _].
      cbn in Hiff. lia. }
    exists a, g'. split; [exact E|]. split; [exact Hge|]. by apply Hno.
Defined.

Lemma conclude_ended game p rec ic wi ts :
  GameService.conclude game p rec ic true wi ts
  = (game, GameService.mkAccepted rec ic true wi
             (Z.of_nat GameService.MAX_GUESSES
              - Z.of_nat (GameService.guessCountOf p game))).
Proof. reflexivity. Qed.

Lemma getWinner_after_claim (t t1 t2 t3 : Z) gameId playerId game s :
  Redis.getWinner t gameId
    (Redis.setGameState t3 gameId game 3600
       (<[Redis.winnerKey gameId :=
            Redis.mkEntry (Redis.VWinner (mkWinnerInfo playerId t1)) (t2 + 1000 * 60)]> s))
  = if (t <? t2 + 60000)%Z then Some (Redis.VWinner (mkWinnerInfo playerId t1))
    else None.
Proof.
  unfold Redis.getWinner, Redis.setGameState.
  rewrite get_setex_ne by apply keys_differ.
  unfold Redis.get. rewrite lookup_insert_eq. cbn [Redis.expireAt Redis.value].
  by replace (t2 + 1000 * 60)%Z with (t2 + 60000)%Z by lia.
Qed.

(** X8.  An accepted correct guess made while no winner key lives takes the
    lock and wins: the result reports the end of the match and the winner
    with the number of guesses and the time since the start; the match
    written is FINISHED with this player as winner, ending at the instant of
    the guess, and for sixty seconds the winner key names this player. *)
Theorem lone_correct_guess_wins (d : WordService.Dict) (t1 t2 t3 t4 : Z)
    (s : Redis.Store) (gameId playerId guess : string) (game : Game)
    (player : Player) :
  Js.ascii_only guess -> Js.ascii_only (targetWord game) ->
  Redis.getGameState t1 gameId s = Some (Redis.VGame game) ->
  status game = ACTIVE ->
  lookupPlayer playerId (players game) = Some player ->
  Js.length (normalize guess) = 5 ->
  normalize guess ∈ WordService.validGuesses d ->
  length (guesses player) < GameService.MAX_GUESSES ->
  WordService.isCorrectGuess (normalize guess) (targetWord game) = true ->
  Redis.getWinner t2 gameId s = None ->
  exists s' a game',
    GameService.processGuess d t1 t2 t3 t4 s gameId playerId guess
    = (s', GameService.Returned (GameService.Success a)) /\
    GameService.r_isCorrect a = true /\ GameService.r_gameEnded a = true /\
    GameService.r_winner a
    = Some (GameService.mkWinnerSummary playerId (length (guesses player) + 1)
              (t1 - startTime game)) /\
    (forall t, (t < t3 + 3600000)%Z ->
       GameService.getGame t gameId s' = Some (Redis.VGame game')) /\
    status game' = FINISHED /\ winner game' = Some playerId /\
    endTime game' = Some t1 /\
    players game' = players (GameService.recordGuess game playerId (GameService.r_guess a)) /\
    (forall t, (t < t2 + 60000)%Z ->
       exists w, Redis.getWinner t gameId s' = Some (Redis.VWinner w) /\
                 w_playerId w = playerId).
Proof.
  intros _ _ Hs Hst Hp Hl Hv Hn Hc Hw.
  pose proof (processGuess_won d t1 t2 t3 t4 s gameId playerId guess game player
                Hs Hst Hp Hl Hv Hn Hc Hw) as E. cbv zeta in E.
  set (rec := guessRecordOf t1 guess game player) in *.
  rewrite conclude_ended in E. cbn [fst snd] in E.
  destruct (guessCountOf_recorded game playerId rec player FINISHED
              (Some playerId) (Some t1) Hp) as [_ Hcount].
  rewrite Hcount in E.
  eexists _, _, (GameService.withStatus (GameService.recordGuess game playerId rec)
                   FINISHED (Some playerId) (Some t1)).
  split; [exact E|].
  cbn [GameService.r_isCorrect GameService.r_winner GameService.r_gameEnded
       GameService.r_guess GameService.withStatus players status winner endTime
       startTime GameService.recordGuess].
  split_and!; try done.
  - intros t Ht. unfold GameService.getGame. rewrite getGameState_set.
    by apply Z.ltb_lt in Ht as ->.
  - intros t Ht. rewrite getWinner_after_claim. apply Z.ltb_lt in Ht as ->.
    by eexists.
Qed.

(** X8 at the first guess of [p2], the target. *)
Lemma lone_correct_guess_wins_witness :
  exists s' a,
    GameService.processGuess Scenario.dict 5 6 7 8 Scenario.store "g1" "p2" "Crane"
    = (s', GameService.Returned (GameService.Success a)) /\
    GameService.r_winner a = Some (GameService.mkWinnerSummary "p2" 1 5).
Proof.
  destruct (lone_correct_guess_wins Scenario.dict 5 6 7 8 Scenario.store
              "g1" "p2" "Crane" Scenario.game Scenario.p2)
    as (s' & a & g' & E & _ & _ & Hw & _).
  - repeat constructor; cbn; lia.
  - repeat constructor; cbn; lia.
  - vm_compute. reflexivity.
  - reflexivity.
  - reflexivity.
  - reflexivity.
  - vm_compute. apply list_elem_of_In. cbn. tauto.
  - vm_compute. lia.
  - reflexivity.
  - vm_compute. reflexivity.
  - exists s', a. split; [exact E|exact Hw].
Defined.

(** X9.  When the lock is refused but the winner key has expired by the time
    it is read, an accepted correct guess (not the last guess of the player)
    ends nothing: [isCorrect] is true, [gameEnded] false, no winner is
    reported, and the match is written back ACTIVE with the winner it had. *)
Theorem correct_guess_without_winner (d : WordService.Dict) (t1 t2 t3 t4 : Z)
    (s : Redis.Store) (gameId playerId guess : string) (game : Game)
    (player : Player) (holder : Redis.Value) :
  Js.ascii_only guess -> Js.ascii_only (targetWord game) ->
  Redis.getGameState t1 gameId s = Some (Redis.VGame game) ->
  status game = ACTIVE ->
  lookupPlayer playerId (players game) = Some player ->
  Js.length (normalize guess) = 5 ->
  normalize guess ∈ WordService.validGuesses d ->
  length (guesses player) < 5 ->
  WordService.isCorrectGuess (normalize guess) (targetWord game) = true ->
  Redis.getWinner t2 gameId s = Some holder ->
  Redis.getWinner t3 gameId s = None ->
  exists a game',
    GameService.processGuess d t1 t2 t3 t4 s gameId playerId guess
    = (Redis.setGameState t4 gameId game' 3600 s,
       GameService.Returned (GameService.Success a)) /\
    GameService.r_isCorrect a = true /\ GameService.r_gameEnded a = false /\
    GameService.r_winner a = None /\
    status game' = ACTIVE /\ winner game' = winner game /\
    players game' = players (GameService.recordGuess game playerId (GameService.r_guess a)).
Proof.
  intros _ _ Hs Hst Hp Hl Hv Hn Hc Hw Hw3.
  assert (Hn' : length (guesses player) < GameService.MAX_GUESSES)
    by (unfold GameService.MAX_GUESSES; lia).
  pose proof (processGuess_lost d t1 t2 t3 t4 s gameId playerId guess game player holder
                Hs Hst Hp Hl Hv Hn' Hc Hw) as E. cbv zeta in E.
  rewrite Hw3 in E. cbn [fst snd] in E.
  set (rec := guessRecordOf t1 guess game player) in *.
  eexists _, _. split; [exact E|].
  unfold GameService.conclude. cbv zeta. cbn [negb andb orb fst snd].
  assert (Hx : forallb (fun kp : string * Player =>
                          GameService.MAX_GUESSES <=? length (guesses kp.2))
                 (players (GameService.recordGuess game playerId rec)) = false).
  { apply not_true_is_false. intros HF. apply forallb_Forall_leb in HF.
    destruct (recordGuess_slot game playerId rec player Hp) as ((pl' & Hpl & Hgs & _) & _).
    assert (Hin : exists k, (k, pl') ∈ players (GameService.recordGuess game playerId rec)).
    { clear -Hpl. induction (players (GameService.recordGuess game playerId rec))
        as [|[k p] ps IH]; [done|]. cbn in Hpl.
      destruct (decide (k = playerId)).
      - injection Hpl as ->. exists k. apply list_elem_of_here.
      - destruct (IH Hpl) as [k' Hk']. exists k'. by apply list_elem_of_further. }
    destruct Hin as [k Hin]. rewrite Forall_forall in HF.
    specialize (HF _ Hin). cbn in HF. rewrite Hgs, length_app in HF. cbn in HF. lia. }
  rewrite Hx.
  cbn [GameService.r_isCorrect GameService.r_winner GameService.r_gameEnded
       GameService.r_guess status winner GameService.recordGuess players].
  rewrite Hst. done.
Qed.

(** X9 with a lock taken at instant 0 that expires between the two round
    trips. *)
Lemma correct_guess_without_winner_witness :
  let s := <[Redis.winnerKey "g1" :=
               Redis.mkEntry (Redis.VWinner (mkWinnerInfo "p1" 0)) 60000]> Scenario.store in
  exists a game',
    GameService.processGuess Scenario.dict 59998 59999 60000 60001 s "g1" "p2" "crane"
    = (Redis.setGameState 60001 "g1" game' 3600 s,
       GameService.Returned (GameService.Success a)) /\
    GameService.r_isCorrect a = true /\ GameService.r_gameEnded a = false /\
    status game' = ACTIVE.
Proof.
  intros s.
  destruct (correct_guess_without_winner Scenario.dict 59998 59999 60000 60001 s
              "g1" "p2" "crane" Scenario.game Scenario.p2
              (Redis.VWinner (mkWinnerInfo "p1" 0)))
    as (a & g' & E & H1 & H2 & _ & H3 & _).
  - repeat constructor; cbn; lia.
  - repeat constructor; cbn; lia.
  - vm_compute. reflexivity.
  - reflexivity.
  - reflexivity.
  - reflexivity.
  - vm_compute. apply list_elem_of_In. cbn. tauto.
  - vm_compute. lia.
  - reflexivity.
  - vm_compute. reflexivity.
  - vm_compute. reflexivity.
  - exists a, g'. split; [exact E|]. split; [exact H1|]. split; [exact H2|exact H3].
Defined.

(* ------------------------------------------------------------------ *)
(** * The guess limit under interleaving *)

Lemma Forall_updatePlayer (Q : string * Player -> Prop) p f ps player :
  Forall Q ps -> lookupPlayer p ps = Some player ->
  (forall k, Q (k, player) -> Q (k, f player)) ->
  Forall Q (updatePlayer p f ps).
Proof.
  intros HQ Hp Hf. induction HQ as [|[k pl] ps Hk HQ IH]; [constructor|].
  cbn in Hp |- *. destruct (decide (k = p)).
  - injection Hp as ->. constructor; [by apply Hf|done].
  - constructor; [done|by apply IH].
Qed.

Lemma capped_recordGuess game p rec player :
  capped game -> lookupPlayer p (players game) = Some player ->
  length (guesses player) < 6 -> guessNumber rec = length (guesses player) + 1 ->
  capped (GameService.recordGuess game p rec).
Proof.
  intros Hc Hp Hn Hrec. unfold capped. cbn [players GameService.recordGuess].
  apply (Forall_updatePlayer _ _ _ _ player); [exact Hc|exact Hp|].
  intros k [H1 H2]. unfold numbered in *. cbn [snd guesses] in *.
  rewrite length_app, map_app. cbn [length map]. split; [lia|].
  rewrite H2, Hrec. replace (length (guesses player) + 1) with (S (length (guesses player))) by lia.
  rewrite seq_S. reflexivity.
Qed.

Lemma capped_players g g' : players g' = players g -> capped g -> capped g'.
Proof. unfold capped. by intros ->. Qed.

Lemma capped_conclude game p rec ic ge wi ts :
  capped game -> capped (GameService.conclude game p rec ic ge wi ts).1.
Proof.
  apply capped_players.
  by destruct (conclude_shape game p rec ic ge wi ts) as (-> & _).
Qed.

Lemma capped_withStatus game st w e :
  capped game -> capped (GameService.withStatus game st w e).
Proof. by apply capped_players. Qed.

Lemma afterGetGame_capped d now gameId playerId guess reply :
  (forall g, reply = Some (Redis.VGame g) -> capped g) ->
  callCapped (GameService.afterGetGame d now gameId playerId guess reply).
Proof.
  intros Hr. unfold GameService.afterGetGame. fold (normalize guess).
  destruct reply as [[game|w]|]; try done.
  destruct (negb (bool_decide (status game = ACTIVE))); [done|].
  destruct (lookupPlayer playerId (players game)) as [player|] eqn:Hp;
    [|by repeat case_match].
  destruct (negb (Js.length (normalize guess) =? 5)); [done|].
  destruct (negb (WordService.isValidGuess d (normalize guess))); [done|].
  destruct (GameService.MAX_GUESSES <=? length (guesses player)) eqn:Hn; [done|].
  apply Nat.leb_gt in Hn. unfold GameService.MAX_GUESSES in Hn.
  assert (Hc : capped (GameService.recordGuess game playerId
                 (mkGuessRecord (normalize guess)
                    (WordService.evaluateGuess (normalize guess) (targetWord game))
                    now (length (guesses player) + 1)))).
  { apply (capped_recordGuess _ _ _ player); [by apply Hr|done..]. }
  destruct (WordService.isCorrectGuess _ _); [exact Hc|].
  unfold GameService.conclude. cbv zeta. cbn [negb andb].
  destruct (forallb _ _); [by apply capped_withStatus|exact Hc].
Qed.

Lemma storeCapped_insert s k e :
  storeCapped s -> (forall g, Redis.value e = Redis.VGame g -> capped g) ->
  storeCapped (<[k := e]> s).
Proof.
  intros Hs He k' e' g Hk Hv. destruct (decide (k = k')) as [->|Hne].
  - rewrite lookup_insert_eq in Hk. injection Hk as <-. by apply He.
  - rewrite lookup_insert_ne in Hk by done. by apply (Hs k' e' g).
Qed.

Lemma get_capped s now key g :
  storeCapped s -> Redis.get now key s = Some (Redis.VGame g) -> capped g.
Proof.
  intros Hs. unfold Redis.get. destruct (s !! key) as [e|] eqn:E; [|done].
  destruct (now <? Redis.expireAt e)%Z; [|done]. intros [= Hv]. by apply (Hs key e g).
Qed.

Lemma step_capped d now s c :
  storeCapped s -> callCapped c ->
  storeCapped (GameService.step d now s c).1.1 /\
  callCapped (GameService.step d now s c).1.2 /\
  (forall g p game a, (GameService.step d now s c).2 = GameService.EvWrite g p game a ->
                      capped game).
Proof.
  intros Hs Hc.
  destruct c as [gid pid w | gid pid game rec ts | gid pid game rec ts
                 | gid pid game a | r |]; cbn [GameService.step].
  - cbn [fst snd]. split; [done|]. split; [|done].
    apply afterGetGame_capped. intros g Hg. by apply (get_capped s now (Redis.gameKey gid) g Hs).
  - unfold Redis.acquireWinLock, Redis.set_nx_ex.
    destruct (Redis.get now (Redis.winnerKey gid) s).
    + cbn [fst snd]. done.
    + rewrite conclude_ended. cbn [fst snd]. split; [|split; [|done]].
      * apply storeCapped_insert; [done|]. by intros g [=].
      * by apply capped_withStatus.
  - destruct (Redis.getWinner now gid s) as [[?|?]|]; cbn [fst snd].
    + rewrite conclude_ended. cbn [fst snd]. split; [done|]. split; [|done].
      by apply capped_withStatus.
    + rewrite conclude_ended. cbn [fst snd]. split; [done|]. split; [|done].
      by apply capped_withStatus.
    + pose proof (capped_conclude game pid rec true false None ts Hc) as H.
      destruct (GameService.conclude game pid rec true false None ts) as [g2 a2].
      cbn [fst snd] in *. done.
  - cbn [fst snd]. split; [|split; [done|]].
    + unfold Redis.setGameState, Redis.setex. apply storeCapped_insert; [done|].
      by intros g [= <-].
    + by intros g p game' a' [= _ _ <- _].
  - cbn [fst snd]. done.
  - cbn [fst snd]. done.
Qed.

Lemma sys_step_capped d cfg e :
  storeCapped cfg.1 -> Forall callCapped cfg.2 ->
  storeCapped (GameService.sys_step d cfg e).1.1 /\
  Forall callCapped (GameService.sys_step d cfg e).1.2 /\
  (forall g p game a, (GameService.sys_step d cfg e).2 = GameService.EvWrite g p game a ->
                      capped game).
Proof.
  intros Hs Hc. unfold GameService.sys_step.
  destruct (cfg.2 !! e.1) as [c|] eqn:E; [|done].
  assert (Hcc : callCapped c) by (by apply (Forall_lookup_1 _ _ _ _ Hc E)).
  pose proof (step_capped d e.2 cfg.1 c Hs Hcc) as (H1 & H2 & H3).
  destruct (GameService.step d e.2 cfg.1 c) as [[s' c'] ev]. cbn [fst snd] in *.
  split; [done|]. split; [|done]. by apply Forall_insert.
Qed.

(** X10.  Under any interleaving of any number of [processGuess] calls,
    started from a store whose matches give every player at most six guesses
    numbered 1, 2, ... in order, every match written and every match in the
    final store still does: no player ever holds more than [MAX_GUESSES]
    guesses, and the ordinals stay consecutive. *)
Theorem guess_limit_under_interleaving (d : WordService.Dict)
    (s0 : Redis.Store) (calls : list GameService.Call)
    (schedule : list (nat * Z)) :
  storeCapped s0 -> Forall callCapped calls ->
  let r := GameService.sys_run d (s0, calls) schedule in
  storeCapped r.1.1 /\
  (forall g p game a, GameService.EvWrite g p game a ∈ r.2 -> capped game) /\
  (forall now gameId game playerId player,
     GameService.getGame now gameId r.1.1 = Some (Redis.VGame game) ->
     lookupPlayer playerId (players game) = Some player ->
     length (guesses player) <= GameService.MAX_GUESSES /\
     map guessNumber (guesses player) = seq 1 (length (guesses player))).
Proof.
  intros Hs Hc r.
  assert (H : storeCapped r.1.1 /\
              (forall g p game a, GameService.EvWrite g p game a ∈ r.2 -> capped game)).
  { subst r. generalize dependent calls. revert s0 Hs.
    induction schedule as [|e schedule IH]; intros s0 Hs calls Hc.
    - cbn. split; [done|]. intros g p game a Hin. by apply elem_of_nil in Hin.
    - cbn [GameService.sys_run].
      pose proof (sys_step_capped d (s0, calls) e Hs Hc) as (H1 & H2 & H3).
      destruct (GameService.sys_step d (s0, calls) e) as [[s1 calls1] ev].
      cbn [fst snd] in *.
      specialize (IH s1 H1 calls1 H2).
      destruct (GameService.sys_run d (s1, calls1) schedule) as [cfg2 log].
      cbn [fst snd] in *. destruct IH as [IH1 IH2]. split; [done|].
      intros g p game a Hin. apply elem_of_cons in Hin as [<-|Hin].
      + by apply (H3 g p game a).
      + by apply (IH2 g p game a). }
  destruct H as [H1 H2]. split; [done|]. split; [done|].
  intros now gameId game playerId player Hg Hp.
  unfold GameService.getGame, Redis.getGameState in Hg.
  pose proof (get_capped _ _ _ _ H1 Hg) as Hcap.
  unfold capped in Hcap. clear -Hcap Hp.
  induction Hcap as [|[k pl] ps Hk _ IH]; [done|].
  cbn in Hp. destruct (decide (k = playerId)).
  - injection Hp as ->. exact Hk.
  - by apply IH.
Qed.

(** X10 on the two simultaneous correct guesses of the prompt schedule. *)
Lemma guess_limit_under_interleaving_witness :
  storeCapped
    (GameService.sys_run Scenario.dict (Scenario.store, Scenario.calls)
       Scenario.promptSchedule).1.1.
Proof.
  apply (guess_limit_under_interleaving Scenario.dict Scenario.store Scenario.calls
           Scenario.promptSchedule).
  - intros k e g Hk Hv. unfold Scenario.store in Hk.
    apply lookup_singleton_Some in Hk as [_ <-]. cbn in Hv. injection Hv as <-.
    unfold capped, numbered. cbn. repeat constructor.
  - unfold Scenario.calls. repeat constructor.
Defined.

(* ------------------------------------------------------------------ *)
(** * Forfeit *)

Lemma processGuess_inactive d t1 t2 t3 t4 s gameId playerId guess game :
  Redis.getGameState t1 gameId s = Some (Redis.VGame game) ->
  status game <> ACTIVE ->
  GameService.processGuess d t1 t2 t3 t4 s gameId playerId guess
  = (s, GameService.Returned (GameService.Rejected "Game is not active")).
Proof.
  intros Hs Hst. unfold GameService.processGuess. rewrite run_cons.
  cbn [GameService.step]. rewrite Hs. unfold GameService.afterGetGame.
  rewrite (bool_decide_eq_false_2 _ Hst). cbn [negb]. apply run_returned.
Qed.

Lemma find_other_spec (pid : string) (keys : list string) :
  let w := List.find (fun k => negb (bool_decide (k = pid))) keys in
  w <> Some pid /\
  (forall k, w = Some k -> k ∈ keys) /\
  (w = None <-> forall k, k ∈ keys -> k = pid).
Proof.
  induction keys as [|k keys IH]; cbn.
  - split; [done|]. split; [done|]. split; [|done]. intros _ k Hk.
    by apply elem_of_nil in Hk.
  - destruct (decide (k = pid)) as [->|Hne].
    + rewrite (bool_decide_eq_true_2 _ eq_refl). cbn [negb].
      destruct IH as (I1 & I2 & I3). split; [done|]. split.
      * intros k Hk. apply list_elem_of_further. by apply I2.
      * rewrite I3. split.
        -- intros H k [->|Hk]%elem_of_cons; [done|by apply H].
        -- intros H k Hk. apply H. by apply list_elem_of_further.
    + rewrite (bool_decide_eq_false_2 _ Hne). cbn [negb]. split; [congruence|].
      split.
      * intros k' [= <-]. apply list_elem_of_here.
      * split; [done|]. intros H. exfalso. apply Hne, H, list_elem_of_here.
Qed.

(** X11.  [forfeitGame] on an ACTIVE match writes and returns the match
    FINISHED, ended at the instant of the call, with a forfeit entry
    appended to the replay log and players and target unchanged.  The winner
    is never the forfeiting player: it is the first other key of [players],
    and there is none exactly when no other key exists.  While the written
    match lives, every [processGuess] on it is answered with the error Game
    is not active and a second [forfeitGame] returns [null] without writing. *)
Theorem forfeit_active_game (t1 t2 : Z) (s : Redis.Store)
    (gameId forfeitPlayerId : string) (game : Game) :
  Redis.getGameState t1 gameId s = Some (Redis.VGame game) ->
  status game = ACTIVE ->
  exists game',
    GameService.forfeitGame t1 t2 s gameId forfeitPlayerId
    = (Some game', Redis.setGameState t2 gameId game' 3600 s) /\
    status game' = FINISHED /\ endTime game' = Some t1 /\
    winner game' <> Some forfeitPlayerId /\
    (forall w, winner game' = Some w -> w ∈ map fst (players game)) /\
    (winner game' = None <->
     forall k, k ∈ map fst (players game) -> k = forfeitPlayerId) /\
    players game' = players game /\ targetWord game' = targetWord game /\
    replayLog game' = replayLog game ++ [ReplayForfeit forfeitPlayerId t1] /\
    (forall d ta tb tc td playerId guess, (ta < t2 + 3600000)%Z ->
       GameService.processGuess d ta tb tc td
         (Redis.setGameState t2 gameId game' 3600 s) gameId playerId guess
       = (Redis.setGameState t2 gameId game' 3600 s,
          GameService.Returned (GameService.Rejected "Game is not active"))) /\
    (forall ta tb playerId, (ta < t2 + 3600000)%Z ->
       GameService.forfeitGame ta tb
         (Redis.setGameState t2 gameId game' 3600 s) gameId playerId
       = (None, Redis.setGameState t2 gameId game' 3600 s)).
Proof.
  intros Hs Hst. unfold GameService.forfeitGame at 1.
  rewrite Hs, Hst, (bool_decide_eq_true_2 _ eq_refl). cbn [negb].
  eexists. split; [reflexivity|].
  cbn [status endTime winner players targetWord replayLog].
  destruct (find_other_spec forfeitPlayerId (map fst (players game))) as (F1 & F2 & F3).
  split_and!; try done.
  - intros d ta tb tc td playerId guess Ht.
    eapply processGuess_inactive.
    + rewrite getGameState_set. apply Z.ltb_lt in Ht as ->. reflexivity.
    + done.
  - intros ta tb playerId Ht. unfold GameService.forfeitGame.
    rewrite getGameState_set. apply Z.ltb_lt in Ht as ->. reflexivity.
Qed.

(** X11 [p2] forfeits the fresh match: [p1] wins, and a guess afterwards is
    refused. *)
Lemma forfeit_active_game_witness :
  exists game',
    GameService.forfeitGame 10 11 Scenario.store "g1" "p2"
    = (Some game', Redis.setGameState 11 "g1" game' 3600 Scenario.store) /\
    status game' = FINISHED /\ winner game' = Some "p1".
Proof.
  destruct (forfeit_active_game 10 11 Scenario.store "g1" "p2" Scenario.game)
    as (g' & E & H1 & _ & Hne & Hin & Hnone & _).
  - vm_compute. reflexivity.
  - reflexivity.
  - exists g'. split; [exact E|]. split; [exact H1|].
    destruct (winner g') as [w|].
    + specialize (Hin w eq_refl). cbn in Hin.
      apply elem_of_cons in Hin as [->|Hin]; [reflexivity|].
      apply list_elem_of_singleton in Hin as ->. by destruct Hne.
    + exfalso. assert (H : "p1" = "p2"); [|discriminate].
      apply (proj1 Hnone eq_refl). cbn. apply list_elem_of_here.
Defined.

(* ------------------------------------------------------------------ *)
(** * Creation of a game *)




(* ------------------------------------------------------------------ *)
(** * The view of a player *)

Lemma colors_of_redact (ev : list (option Cell)) :
  colors_of (map (fmap (fun c => mkCell None (color c))) ev) = colors_of ev.
Proof.
  unfold colors_of. induction ev as [|[c|] ev IH]; [done| |done].
  cbn. cbn in IH. by rewrite IH.
Qed.

Lemma masked_redact (r : GuessRecord) :
  GameService.getMaskedGuessForOpponent (redactGuess r)
  = GameService.getMaskedGuessForOpponent r.
Proof.
  unfold GameService.getMaskedGuessForOpponent, redactGuess.
  cbn [evaluation timestamp guessNumber]. by rewrite colors_of_redact.
Qed.

Lemma mapM_masked_redact (gs : list GuessRecord) :
  mapM GameService.getMaskedGuessForOpponent (map redactGuess gs)
  = mapM GameService.getMaskedGuessForOpponent gs.
Proof.
  induction gs as [|r gs IH]; [done|]. cbn [map mapM].
  by rewrite masked_redact, IH.
Qed.

Lemma lookupPlayer_redact playerId k ps :
  lookupPlayer k
    (map (fun kp : string * Player =>
            if bool_decide (kp.1 = playerId) then kp else (kp.1, redactPlayer kp.2)) ps)
  = (if bool_decide (k = playerId) then (fun p => p) else redactPlayer)
      <$> lookupPlayer k ps.
Proof.
  induction ps as [|[k' p] ps IH]; [done|]. cbn.
  destruct (decide (k' = playerId)) as [->|Hne].
  - rewrite (bool_decide_eq_true_2 _ eq_refl). cbn.
    destruct (decide (playerId = k)) as [<-|Hk]; [|exact IH].
    by rewrite (bool_decide_eq_true_2 _ eq_refl).
  - rewrite (bool_decide_eq_false_2 _ Hne). cbn.
    destruct (decide (k' = k)) as [<-|Hk]; [|exact IH].
    by rewrite (bool_decide_eq_false_2 _ Hne).
Qed.

Lemma keys_redact playerId ps :
  map fst
    (map (fun kp : string * Player =>
            if bool_decide (kp.1 = playerId) then kp else (kp.1, redactPlayer kp.2)) ps)
  = map fst ps.
Proof.
  induction ps as [|[k p] ps IH]; [done|]. cbn. rewrite IH.
  by destruct (bool_decide (k = playerId)).
Qed.

(** X13.  [getPlayerGameView] for a player depends on the stored match only
    through what that player may know: the view is the same when the words
    and letters of every other player's guesses, the replay log and (unless
    the match is FINISHED) the target are blanked in the store. *)
Theorem player_view_hides_words (now : Z) (s : Redis.Store)
    (gameId playerId : string) (game : Game) (expiry : Z) :
  GameService.getPlayerGameView now
    (<[Redis.gameKey gameId := Redis.mkEntry (Redis.VGame game) expiry]> s)
    gameId playerId
  = GameService.getPlayerGameView now
      (<[Redis.gameKey gameId :=
           Redis.mkEntry (Redis.VGame (redact playerId game)) expiry]> s)
      gameId playerId.
Proof.
  unfold GameService.getPlayerGameView, GameService.getGame, Redis.getGameState,
    Redis.get.
  rewrite !lookup_insert_eq. cbn [Redis.expireAt Redis.value].
  destruct (now <? expiry)%Z; [|done].
  unfold GameService.opponentOf, redact.
  cbn [players game_id status startTime winner targetWord].
  rewrite keys_redact, !lookupPlayer_redact.
  rewrite (bool_decide_eq_true_2 (playerId = playerId) eq_refl).
  set (oid := default "undefined"
                (List.find (fun k => negb (bool_decide (k = playerId)))
                           (map fst (players game)))).
  assert (Hopp :
    match (if bool_decide (oid = playerId) then fun p : Player => p else redactPlayer)
            <$> lookupPlayer oid (players game) with
    | Some o => mapM GameService.getMaskedGuessForOpponent (guesses o)
    | None => Some []
    end
    = match lookupPlayer oid (players game) with
      | Some o => mapM GameService.getMaskedGuessForOpponent (guesses o)
      | None => Some []
      end).
  { destruct (lookupPlayer oid (players game)) as [o|]; [|done].
    cbn [fmap option_fmap option_map].
    destruct (bool_decide (oid = playerId)); [done|].
    cbn [redactPlayer guesses]. apply mapM_masked_redact. }
  rewrite Hopp.
  assert (Hme :
    match (fun p : Player => p) <$> lookupPlayer playerId (players game) with
    | Some p => guesses p
    | None => []
    end
    = match lookupPlayer playerId (players game) with
      | Some p => guesses p
      | None => []
      end).
  { by destruct (lookupPlayer playerId (players game)). }
  rewrite Hme.
  by destruct (bool_decide (status game = FINISHED)).
Qed.

(* ------------------------------------------------------------------ *)
(** * More rating arithmetic *)

Section EloBounds.
Import EloService.
Open Scope R_scope.

Lemma Rpower10_le x y : x <= y -> Rpower 10 x <= Rpower 10 y.
Proof. intros H. apply Rle_Rpower; lra. Qed.

Lemma Rpower10_lt x y : x < y -> Rpower 10 x < Rpower 10 y.
Proof. intros H. apply Rpower_lt; lra. Qed.

Lemma expected_mono a a' b :
  (a <= a')%Z -> calculateExpectedScore a b <= calculateExpectedScore a' b.
Proof.
  intros H. apply IZR_le in H. unfold calculateExpectedScore, SCALE_FACTOR.
  assert (Hp : Rpower 10 ((IZR b - IZR a') / 400) <= Rpower 10 ((IZR b - IZR a) / 400))
    by (apply Rpower10_le; lra).
  assert (H1 : 0 < Rpower 10 ((IZR b - IZR a') / 400)) by apply exp_pos.
  assert (H2 : 0 < Rpower 10 ((IZR b - IZR a) / 400)) by apply exp_pos.
  unfold Rdiv. rewrite !Rmult_1_l. apply Rinv_le_contravar; lra.
Qed.

Lemma expected_half a b :
  ((a <= b)%Z -> calculateExpectedScore a b <= 1 / 2) /\
  ((b <= a)%Z -> 1 / 2 <= calculateExpectedScore a b).
Proof.
  split; intros H.
  - rewrite <- (expected_equal b). by apply expected_mono.
  - rewrite <- (expected_equal b). by apply expected_mono.
Qed.

Lemma expected_strict a b :
  (a < b)%Z -> calculateExpectedScore a b < 1 / 2.
Proof.
  intros H. apply IZR_lt in H. unfold calculateExpectedScore, SCALE_FACTOR.
  assert (Hp : Rpower 10 0 < Rpower 10 ((IZR b - IZR a) / 400))
    by (apply Rpower10_lt; lra).
  rewrite Rpower_O in Hp by lra.
  apply Rmult_lt_reg_r with (1 + Rpower 10 ((IZR b - IZR a) / 400)); [lra|].
  field_simplify; lra.
Qed.

(** The rounded value of [r + u] for [lo <= u <= hi], [lo] and [hi]
    integers. *)
Lemma round_shift (r lo hi : Z) (u : R) :
  IZR lo <= u <= IZR hi -> (r + lo <= round (IZR r + u) <= r + hi)%Z.
Proof.
  intros [H1 H2]. pose proof (round_bounds (IZR r + u)) as [B1 B2].
  split.
  - assert (H : IZR (r + lo - 1) < IZR (round (IZR r + u)))
      by (rewrite minus_IZR, plus_IZR; lra).
    apply lt_IZR in H. lia.
  - assert (H : IZR (round (IZR r + u)) < IZR (r + hi + 1))
      by (rewrite !plus_IZR; lra).
    apply lt_IZR in H. lia.
Qed.

Lemma newRating_shift (r lo hi : Z) (e a k : R) :
  (MIN_RATING <= r)%Z -> (lo <= 0 <= hi)%Z ->
  IZR lo <= k * (a - e) <= IZR hi ->
  (r + lo <= calculateNewRating r e a k <= r + hi)%Z /\
  (MIN_RATING <= calculateNewRating r e a k)%Z.
Proof.
  intros Hr Hlo Hu. pose proof (round_shift r lo hi _ Hu).
  unfold calculateNewRating. cbv zeta. split; lia.
Qed.

(** X14.  For ratings from 100 up to the largest value of the [elo] column,
    [calculateMatchResult] reports the old ratings as given and each change
    as new minus old; the winner gains between 0 and 32 points, the loser
    loses between 0 and 32, and neither new rating is below 100.  A winner
    rated at least as high as the loser gains at most 16 and the loser loses
    at most 16; a winner rated at most as high gains at least 16, and the
    loser, if rated 116 or more, loses at least 16. *)
Theorem match_result_deltas (winnerRating loserRating : Z) :
  (MIN_RATING <= winnerRating <= INTEGER_MAX)%Z ->
  (MIN_RATING <= loserRating <= INTEGER_MAX)%Z ->
  let r := calculateMatchResult winnerRating loserRating in
  oldRating (mr_winner r) = winnerRating /\ oldRating (mr_loser r) = loserRating /\
  delta (mr_winner r) = (newRating (mr_winner r) - winnerRating)%Z /\
  delta (mr_loser r) = (newRating (mr_loser r) - loserRating)%Z /\
  (0 <= delta (mr_winner r) <= 32)%Z /\ (-32 <= delta (mr_loser r) <= 0)%Z /\
  (MIN_RATING <= newRating (mr_winner r))%Z /\
  (MIN_RATING <= newRating (mr_loser r))%Z /\
  ((loserRating <= winnerRating)%Z ->
   (delta (mr_winner r) <= 16)%Z /\ (-16 <= delta (mr_loser r))%Z) /\
  ((winnerRating <= loserRating)%Z ->
   (16 <= delta (mr_winner r))%Z /\
   ((116 <= loserRating)%Z -> (delta (mr_loser r) <= -16)%Z)).
Proof.
  intros [Hw _] [Hl _] r. unfold r, calculateMatchResult.
  cbn [oldRating newRating delta mr_winner mr_loser].
  pose proof (expected_pos winnerRating loserRating) as Ew.
  pose proof (expected_pos loserRating winnerRating) as El.
  pose proof (expected_half winnerRating loserRating) as [Ew1 Ew2].
  pose proof (expected_half loserRating winnerRating) as [El1 El2].
  unfold K_FACTOR.
  destruct (newRating_shift winnerRating 0 32
              (calculateExpectedScore winnerRating loserRating) 1 32 Hw)
    as [W1 W2]; [lia|lra|].
  destruct (newRating_shift loserRating (-32) 0
              (calculateExpectedScore loserRating winnerRating) 0 32 Hl)
    as [L1 L2]; [lia|lra|].
  split_and!; try done; try lia.
  - intros H. specialize (Ew2 H). specialize (El1 H).
    destruct (newRating_shift winnerRating 0 16
                (calculateExpectedScore winnerRating loserRating) 1 32 Hw); [lia|lra|].
    destruct (newRating_shift loserRating (-16) 0
                (calculateExpectedScore loserRating winnerRating) 0 32 Hl); [lia|lra|].
    lia.
  - intros H. specialize (Ew1 H). specialize (El2 H).
    pose proof (round_shift winnerRating 16 32
                  (32 * (1 - calculateExpectedScore winnerRating loserRating))) as A.
    pose proof (round_shift loserRating (-32) (-16)
                  (32 * (0 - calculateExpectedScore loserRating winnerRating))) as B.
    unfold calculateNewRating, K_FACTOR, MIN_RATING in *.
    split; [specialize (A ltac:(lra))|specialize (B ltac:(lra))]; lia.
Qed.

(** X14 at 1500 against 1300. *)
Lemma match_result_deltas_witness :
  let r := calculateMatchResult 1500 1300 in
  (0 <= delta (mr_winner r) <= 16)%Z /\ (-16 <= delta (mr_loser r) <= 0)%Z.
Proof.
  destruct (match_result_deltas 1500 1300) as (_ & _ & _ & _ & A & B & _ & _ & C & _);
    [unfold MIN_RATING, INTEGER_MAX; lia..|].
  destruct C as [C1 C2]; [lia|]. cbv zeta. lia.
Defined.

End EloBounds.

(* ------------------------------------------------------------------ *)
(** * The rating tables *)

Lemma updateUser_spec userId f db :
  EloService.updateUser userId f db
  = match EloService.users db !! userId with
    | Some u => Some (EloService.mkDb (<[userId := f u]> (EloService.users db))
                        (EloService.matches db))
    | None => None
    end.
Proof. reflexivity. Qed.

Lemma tally_update userId f db u :
  tally db -> EloService.users db !! userId = Some u ->
  (EloService.u_wins (f u) + EloService.u_losses (f u)
   = EloService.u_gamesPlayed (f u))%Z ->
  tally (EloService.mkDb (<[userId := f u]> (EloService.users db))
           (EloService.matches db)).
Proof.
  intros Ht Hu Hf k v. cbn [EloService.users].
  destruct (decide (userId = k)) as [->|Hne].
  - rewrite lookup_insert_eq. by intros [= <-].
  - rewrite lookup_insert_ne by done. apply Ht.
Qed.

Lemma rating_updates_cases (db : EloService.Db) :
  tally db ->
  (forall winnerId loserId winnerRating loserRating targetWord replayLog durationMs,
     match EloService.updateRatingsAfterMatch db winnerId loserId winnerRating
             loserRating targetWord replayLog durationMs with
     | Some (db', _) =>
         tally db' /\
         is_Some (EloService.users db !! winnerId) /\
         is_Some (EloService.users db !! loserId) /\
         (forall k, k <> winnerId -> k <> loserId ->
            EloService.users db' !! k = EloService.users db !! k) /\
         length (EloService.matches db') = S (length (EloService.matches db))
     | None =>
         EloService.users db !! winnerId = None \/
         EloService.users db !! loserId = None
     end) /\
  (forall playerId playerRating playerWon botDifficulty targetWord replayLog durationMs,
     (forall name, botDifficulty = Some name ->
        name ∈ ["easy"; "medium"; "hard"; "impossible"]) ->
     match EloService.updateRatingAfterBotMatch db playerId playerRating playerWon
             botDifficulty targetWord replayLog durationMs with
     | Some (db', _) =>
         tally db' /\
         is_Some (EloService.users db !! playerId) /\
         (forall k, k <> playerId ->
            EloService.users db' !! k = EloService.users db !! k) /\
         length (EloService.matches db') = S (length (EloService.matches db))
     | None => EloService.users db !! playerId = None
     end).
Proof.
  intros Ht. split.
  - intros w l rw rl tw log dur. unfold EloService.updateRatingsAfterMatch.
    cbv zeta. rewrite updateUser_spec.
    destruct (EloService.users db !! w) as [u|] eqn:Hu; cbn [mbind option_bind]; [|by left].
    rewrite updateUser_spec. cbn [EloService.users EloService.matches].
    destruct (decide (w = l)) as [<-|Hne].
    + rewrite lookup_insert_eq. cbn [mbind option_bind].
      unfold EloService.createMatch. cbn [EloService.users EloService.matches].
      split_and!; try done.
      * rewrite insert_insert_eq. apply (tally_update w (fun _ => _) db u Ht Hu).
        cbn. specialize (Ht w u Hu). lia.
      * intros k Hk _. by rewrite !lookup_insert_ne by done.
      * rewrite length_app. cbn. lia.
    + rewrite lookup_insert_ne by done.
      destruct (EloService.users db !! l) as [v|] eqn:Hv; cbn [mbind option_bind]; [|by right].
      unfold EloService.createMatch. cbn [EloService.users EloService.matches].
      split_and!; try done.
      * intros k x. cbn [EloService.users]. destruct (decide (l = k)) as [->|Hk].
        { rewrite lookup_insert_eq. intros [= <-]. cbn.
          specialize (Ht k v Hv). lia. }
        rewrite lookup_insert_ne by done.
        destruct (decide (w = k)) as [->|Hk'].
        { rewrite lookup_insert_eq. intros [= <-]. cbn.
          specialize (Ht k u Hu). lia. }
        rewrite lookup_insert_ne by done. apply Ht.
      * intros k Hk1 Hk2. by rewrite !lookup_insert_ne by done.
      * rewrite length_app. cbn. lia.
  - intros p pr won bd tw log dur _. unfold EloService.updateRatingAfterBotMatch.
    cbv zeta. rewrite updateUser_spec.
    destruct (EloService.users db !! p) as [u|] eqn:Hu; cbn [mbind option_bind]; [|done].
    unfold EloService.createMatch. cbn [EloService.users EloService.matches].
    split_and!; try done.
    + apply (tally_update p (fun _ => _) db u Ht Hu). cbn.
      specialize (Ht p u Hu). destruct won; lia.
    + intros k Hk. by rewrite lookup_insert_ne by done.
    + rewrite length_app. cbn. lia.
Qed.

(** X15.  Whenever [updateRatingsAfterMatch] or [updateRatingAfterBotMatch]
    (with a difficulty of the table, if one is given) succeeds on tables in
    which every user has wins + losses = gamesPlayed, the tables it leaves
    satisfy that again; the users it names existed, no other user row
    changed, and exactly one match row was added. *)
Theorem rating_updates_keep_tally (db db' : EloService.Db) (res : EloService.EloResult) :
  tally db ->
  (forall winnerId loserId winnerRating loserRating targetWord replayLog durationMs,
     EloService.updateRatingsAfterMatch db winnerId loserId winnerRating
       loserRating targetWord replayLog durationMs = Some (db', res) ->
     tally db' /\
     is_Some (EloService.users db !! winnerId) /\
     is_Some (EloService.users db !! loserId) /\
     (forall k, k <> winnerId -> k <> loserId ->
        EloService.users db' !! k = EloService.users db !! k) /\
     length (EloService.matches db') = S (length (EloService.matches db))) /\
  (forall playerId playerRating playerWon botDifficulty targetWord replayLog durationMs,
     (forall name, botDifficulty = Some name ->
        name ∈ ["easy"; "medium"; "hard"; "impossible"]) ->
     EloService.updateRatingAfterBotMatch db playerId playerRating playerWon
       botDifficulty targetWord replayLog durationMs = Some (db', res) ->
     tally db' /\
     is_Some (EloService.users db !! playerId) /\
     (forall k, k <> playerId ->
        EloService.users db' !! k = EloService.users db !! k) /\
     length (EloService.matches db') = S (length (EloService.matches db))).
Proof.
  intros Ht. destruct (rating_updates_cases db Ht) as [H1 H2]. split.
  - intros w l rw rl tw log dur E. specialize (H1 w l rw rl tw log dur).
    rewrite E in H1. exact H1.
  - intros p pr won bd tw log dur Hbd E. specialize (H2 p pr won bd tw log dur Hbd).
    rewrite E in H2. exact H2.
Qed.

(** X15 for a won bot match of the user [h]. *)
Lemma rating_updates_keep_tally_witness :
  exists db' res,
    EloService.updateRatingAfterBotMatch Scenario.db "h" 1400 true (Some "hard")
      "CRANE" [] 5000 = Some (db', res) /\
    tally db' /\ length (EloService.matches db') = 1.
Proof.
  assert (Ht : tally Scenario.db).
  { intros k u Hk. unfold Scenario.db in Hk. cbn in Hk.
    apply lookup_singleton_Some in Hk as [_ <-]. reflexivity. }
  assert (Hd : forall name, Some "hard" = Some name ->
                 name ∈ ["easy"; "medium"; "hard"; "impossible"]).
  { intros name [= <-]. apply list_elem_of_In. cbn. tauto. }
  destruct (EloService.updateRatingAfterBotMatch Scenario.db "h" 1400 true
              (Some "hard") "CRANE" [] 5000) as [[db' res]|] eqn:E.
  - exists db', res. split; [reflexivity|].
    destruct (proj2 (rating_updates_keep_tally Scenario.db db' res Ht)
                "h" 1400%Z true (Some "hard") "CRANE" [] 5000%Z Hd E)
      as (H1 & _ & _ & H2).
    split; [exact H1|exact H2].
  - exfalso. unfold EloService.updateRatingAfterBotMatch, EloService.updateUser in E.
    change (EloService.users Scenario.db !! "h") with
      (Some (EloService.mkUserRow 1400 3 2 5)) in E.
    discriminate E.
Defined.

Section BotRating.
Import EloService.
Open Scope R_scope.

(** X16.  When [updateRatingAfterBotMatch] succeeds for a player rated from
    100 up to the largest value of the [elo] column (bot difficulty of the
    table, if given), the result has no winner or loser entry but a player
    entry with the old rating as given and the change as new minus old; the
    new rating is at least 100, a win gains between 0 and 16 points and a
    loss costs between 0 and 16; the stored row takes the new rating, one
    more game, and one more win or loss according to the outcome. *)
Theorem bot_match_rating_bounds (db db' : Db) (res : EloResult) (playerId : string)
    (playerRating : Z) (playerWon : bool) (botDifficulty : option string)
    (targetWord : string) (replayLog : list ReplayEvent) (durationMs : Z) :
  (MIN_RATING <= playerRating <= INTEGER_MAX)%Z ->
  (forall name, botDifficulty = Some name ->
     name ∈ ["easy"; "medium"; "hard"; "impossible"]%string) ->
  updateRatingAfterBotMatch db playerId playerRating playerWon botDifficulty
    targetWord replayLog durationMs = Some (db', res) ->
  exists r u,
    res = mkEloResult None (Some r) /\ users db !! playerId = Some u /\
    oldRating r = playerRating /\ delta r = (newRating r - playerRating)%Z /\
    (MIN_RATING <= newRating r)%Z /\
    (if playerWon then (0 <= delta r <= 16)%Z else (-16 <= delta r <= 0)%Z) /\
    users db' !! playerId
    = Some (mkUserRow (newRating r)
              (if playerWon then u_wins u + 1 else u_wins u)%Z
              (if playerWon then u_losses u else u_losses u + 1)%Z
              (u_gamesPlayed u + 1)%Z).
Proof.
  intros [Hr _] _. unfold updateRatingAfterBotMatch. cbv zeta.
  rewrite updateUser_spec.
  destruct (users db !! playerId) as [u|] eqn:Hu; cbn [mbind option_bind];
    [|discriminate].
  intros E. injection E as <- <-.
  eexists _, u. split; [reflexivity|]. split; [reflexivity|].
  cbn [oldRating delta newRating]. unfold createMatch. cbn [users].
  rewrite lookup_insert_eq.
  pose proof (expected_pos playerRating (botRatingOf botDifficulty)) as E.
  split_and!; try done.
  - unfold calculateNewRating, MIN_RATING. cbv zeta. lia.
  - destruct playerWon.
    + destruct (newRating_shift playerRating 0 16
                  (calculateExpectedScore playerRating (botRatingOf botDifficulty))
                  1 (K_FACTOR * (1 / 2)) Hr); [lia|unfold K_FACTOR; lra|lia].
    + destruct (newRating_shift playerRating (-16) 0
                  (calculateExpectedScore playerRating (botRatingOf botDifficulty))
                  0 (K_FACTOR * (1 / 2)) Hr); [lia|unfold K_FACTOR; lra|lia].
Qed.

(** X16 for a win of the user [h], rated 1400, against a hard bot. *)
Lemma bot_match_rating_bounds_witness :
  exists db' r,
    updateRatingAfterBotMatch Scenario.db "h" 1400 true (Some "hard") "CRANE" [] 5000
    = Some (db', mkEloResult None (Some r)) /\
    (0 <= delta r <= 16)%Z.
Proof.
  destruct (updateRatingAfterBotMatch Scenario.db "h" 1400 true (Some "hard")
              "CRANE" [] 5000) as [[db' res]|] eqn:E.
  - destruct (bot_match_rating_bounds Scenario.db db' res "h" 1400 true (Some "hard")
                "CRANE" [] 5000) as (r & u & -> & _ & _ & _ & _ & H & _).
    + unfold MIN_RATING, INTEGER_MAX. lia.
    + intros name [= <-]. apply list_elem_of_In. cbn. tauto.
    + exact E.
    + exists db', r. split; [reflexivity|exact H].
  - exfalso. unfold updateRatingAfterBotMatch, updateUser in E.
    change (users Scenario.db !! "h") with (Some (mkUserRow 1400 3 2 5)) in E.
    discriminate E.
Defined.

End BotRating.

(* ------------------------------------------------------------------ *)
(** * The bot's pace *)

Lemma floor_affine_bounds (r : Draw) (lo hi : Z) :
  (lo < hi)%Z ->
  (lo <= Qfloor (draw r * inject_Z (hi - lo) + inject_Z lo) < hi)%Z.
Proof.
  intros H. destruct (draw_bounds r) as [H0 H1].
  set (q := (draw r * inject_Z (hi - lo) + inject_Z lo)%Q).
  assert (Hd : (0 < inject_Z (hi - lo))%Q).
  { change 0%Q with (inject_Z 0). rewrite <- Zlt_Qlt. lia. }
  assert (Hlo : (inject_Z lo <= q)%Q).
  { unfold q. rewrite <- (Qplus_0_l (inject_Z lo)) at 1.
    apply Qplus_le_l. apply Qmult_le_0_compat; [done|]. by apply Qlt_le_weak. }
  assert (Hhi : (q < inject_Z hi)%Q).
  { unfold q. replace hi with ((hi - lo) + lo)%Z at 2 by lia.
    rewrite inject_Z_plus. apply Qplus_lt_l.
    rewrite <- (Qmult_1_l (inject_Z (hi - lo))) at 2.
    by apply Qmult_lt_compat_r. }
  split.
  - rewrite <- (Qfloor_Z lo). by apply Qfloor_resp_le.
  - rewrite Zlt_Qlt. eapply Qle_lt_trans; [apply Qfloor_le|exact Hhi].
Qed.

Lemma configOf_cases difficulty :
  BotService.configOf difficulty ∈
    [BotService.impossible_cfg; BotService.hard_cfg; BotService.medium_cfg;
     BotService.easy_cfg].
Proof.
  unfold BotService.configOf, BotService.DIFFICULTIES.
  repeat (destruct (decide _); [cbn; rewrite list_elem_of_In; cbn; tauto|]).
  cbn. rewrite list_elem_of_In; cbn; tauto.
Qed.

(** X17.  For a bot of one of the four difficulties, the delay that
    [getNextGuess] returns lies between [delayMin] and [delayMax] of that
    difficulty, hence between 10 and 35 seconds, whatever [Math.random()]
    returns and whatever guess is selected. *)
Theorem bot_delay_within_window (d : WordService.Dict) (log2 : Q -> Q)
    (botInstance : BotService.Bot) (config : BotService.Config) :
  BotService.DIFFICULTIES (BotService.difficulty botInstance) = Some config ->
  always (BotService.getNextGuess d log2 botInstance)
         (fun r => (BotService.delayMin config <= r.2 <= BotService.delayMax config)%Z /\
                   (10000 <= r.2 <= 35000)%Z).
Proof.
  intros Hcfg.
  assert (Hc : (10000 <= BotService.delayMin config)%Z /\
               (BotService.delayMin config < BotService.delayMax config)%Z /\
               (BotService.delayMax config <= 35000)%Z).
  { unfold BotService.DIFFICULTIES in Hcfg.
    repeat match type of Hcfg with
           | context [decide ?P] => destruct (decide P)
           end;
      [injection Hcfg as <-; vm_compute; repeat split; discriminate..|discriminate Hcfg]. }
  destruct Hc as (C1 & C2 & C3).
  unfold BotService.getNextGuess, BotService.configOf. rewrite Hcfg.
  unfold default, Datatypes.id.
  eapply always_bind; [apply always_true|]. intros guess _.
  intros rnd n. unfold mbind, Rand_bind, random, mret, Rand_ret. cbn [fst snd].
  pose proof (floor_affine_bounds (rnd n) _ _ C2) as B. lia.
Qed.

(** X17 for a hard bot: between 18 and 22 seconds. *)
Lemma bot_delay_within_window_witness :
  (18000 <= (BotService.getNextGuess Scenario.dict (fun _ => 0%Q)
               (BotService.createBotInstance Scenario.dict "hard" "CRANE")
               Scenario.draws 0%nat).1.2 <= 22000)%Z.
Proof.
  exact (proj1 (bot_delay_within_window Scenario.dict (fun _ => 0%Q)
                  (BotService.createBotInstance Scenario.dict "hard" "CRANE")
                  BotService.hard_cfg eq_refl Scenario.draws 0)).
Defined.


(* ------------------------------------------------------------------ *)
(** * The bot's knowledge *)

Lemma matchesConstraints_app w cs cs' :
  BotService.matchesConstraints w (cs ++ cs')
  = BotService.matchesConstraints w cs && BotService.matchesConstraints w cs'.
Proof. unfold BotService.matchesConstraints. apply forallb_app. Qed.

Lemma filter_filter_constraints (l : list string) cs c :
  BotService.filterPossibleAnswers (BotService.filterPossibleAnswers l cs) (cs ++ [c])
  = BotService.filterPossibleAnswers l (cs ++ [c]).
Proof.
  unfold BotService.filterPossibleAnswers.
  induction l as [|w l IH]; [done|]. cbn [List.filter].
  rewrite matchesConstraints_app.
  destruct (BotService.matchesConstraints w cs) eqn:E; cbn [andb List.filter].
  - rewrite matchesConstraints_app, E. cbn [andb].
    destruct (BotService.matchesConstraints w [c]); by rewrite IH.
  - exact IH.
Qed.

Lemma filterPossibleAnswers_nil l : BotService.filterPossibleAnswers l [] = l.
Proof.
  unfold BotService.filterPossibleAnswers. induction l as [|w l IH]; [done|].
  cbn [List.filter]. unfold BotService.matchesConstraints at 1. cbn [forallb].
  f_equal. exact IH.
Qed.

Lemma updateBotState_proj b g p :
  BotService.constraints (BotService.updateBotState b g p)
  = BotService.constraints b ++ [BotService.mkConstraint g p] /\
  BotService.guessCount (BotService.updateBotState b g p)
  = BotService.guessCount b + 1 /\
  BotService.possibleAnswers (BotService.updateBotState b g p)
  = BotService.filterPossibleAnswers (BotService.possibleAnswers b)
      (BotService.constraints b ++ [BotService.mkConstraint g p]).
Proof. done. Qed.

(** X18.  After any sequence of [updateBotState] calls on a fresh bot
    instance, the constraints are the guesses and patterns given, in order,
    [guessCount] is their number, and [possibleAnswers] is the answer list
    filtered by all constraints at once: a word is still possible exactly
    when it is an answer and [getPattern] of every guess against it is the
    pattern that was given. *)
Theorem bot_filter_is_cumulative (d : WordService.Dict) (difficulty target : string)
    (steps : list (string * string)) :
  let b := botUpdates d difficulty target steps in
  BotService.constraints b
  = map (fun gp => BotService.mkConstraint gp.1 gp.2) steps /\
  BotService.guessCount b = length steps /\
  BotService.possibleAnswers b
  = BotService.filterPossibleAnswers (WordService.answers d) (BotService.constraints b) /\
  (forall w, w ∈ BotService.possibleAnswers b <->
             w ∈ WordService.answers d /\
             forall g p, (g, p) ∈ steps -> BotService.getPattern g w = p).
Proof.
  intros b.
  assert (H : BotService.constraints b
              = map (fun gp => BotService.mkConstraint gp.1 gp.2) steps /\
              BotService.guessCount b = length steps /\
              BotService.possibleAnswers b
              = BotService.filterPossibleAnswers (WordService.answers d)
                  (BotService.constraints b)).
  { subst b. unfold botUpdates.
    induction steps as [|[g p] steps IH] using rev_ind.
    - cbn. by rewrite filterPossibleAnswers_nil.
    - rewrite foldl_app. cbn [foldl fst snd].
      destruct IH as (I1 & I2 & I3).
      set (b0 := foldl _ _ steps) in *.
      destruct (updateBotState_proj b0 g p) as (-> & -> & ->).
      rewrite I2, I3, I1.
      rewrite map_app, length_app. cbn [map length fst snd].
      split; [done|]. split; [done|]. apply filter_filter_constraints. }
  destruct H as (H1 & H2 & H3). split; [done|]. split; [done|]. split; [done|].
  intros w. rewrite H3, H1. unfold BotService.filterPossibleAnswers.
  rewrite list_elem_of_In, filter_In, <- list_elem_of_In.
  unfold BotService.matchesConstraints. rewrite forallb_forall.
  split; intros [Hw Hc]; (split; [done|]).
  - intros g p Hgp. specialize (Hc (BotService.mkConstraint g p)).
    rewrite bool_decide_eq_true in Hc. apply Hc. apply list_elem_of_In.
    apply list_elem_of_fmap. by exists (g, p).
  - intros c Hin. apply list_elem_of_In, list_elem_of_fmap in Hin as ([g p] & -> & Hin).
    apply bool_decide_eq_true. cbn. by apply Hc.
Qed.

Lemma processGuess_success_inv d t1 t2 t3 t4 s gameId playerId guess s' a :
  GameService.processGuess d t1 t2 t3 t4 s gameId playerId guess
  = (s', GameService.Returned (GameService.Success a)) ->
  exists game player,
    Redis.getGameState t1 gameId s = Some (Redis.VGame game) /\
    status game = ACTIVE /\
    lookupPlayer playerId (players game) = Some player /\
    GameService.r_guess a = guessRecordOf t1 guess game player.
Proof.
  intros H.
  destruct (acceptable_dec d t1 s gameId playerId guess)
    as [(game & player & Hs & Hst & Hp & Hl & Hv & Hn)|Hna].
  - exists game, player. split; [done|]. split; [done|]. split; [done|].
    assert (Hrec : forall G ic ge wi s0,
              GameService.processGuess d t1 t2 t3 t4 s gameId playerId guess
              = (s0, GameService.Returned (GameService.Success
                       (GameService.conclude G playerId
                          (guessRecordOf t1 guess game player) ic ge wi t1).2)) ->
              GameService.r_guess a = guessRecordOf t1 guess game player).
    { intros G ic ge wi s0 E. rewrite E in H.
      assert (Ha : (GameService.conclude G playerId
                      (guessRecordOf t1 guess game player) ic ge wi t1).2 = a)
        by congruence.
      rewrite <- Ha.
      by destruct (conclude_shape G playerId (guessRecordOf t1 guess game player)
                     ic ge wi t1) as (_ & _ & _ & _ & _ & -> & _). }
    destruct (WordService.isCorrectGuess (normalize guess) (targetWord game)) eqn:Hc.
    + destruct (Redis.getWinner t2 gameId s) as [v|] eqn:Hw.
      * pose proof (processGuess_lost d t1 t2 t3 t4 s gameId playerId guess game
                      player v Hs Hst Hp Hl Hv Hn Hc Hw) as E. cbv zeta in E.
        by apply Hrec in E.
      * pose proof (processGuess_won d t1 t2 t3 t4 s gameId playerId guess game
                      player Hs Hst Hp Hl Hv Hn Hc Hw) as E. cbv zeta in E.
        by apply Hrec in E.
    + pose proof (processGuess_wrong d t1 t2 t3 t4 s gameId playerId guess game
                    player Hs Hst Hp Hl Hv Hn Hc) as E. cbv zeta in E.
      by apply Hrec in E.
  - destruct (processGuess_refuses d t1 t2 t3 t4 s gameId playerId guess Hna)
      as [[err E]|E]; rewrite E in H; discriminate.
Qed.

Lemma matchesConstraints_single w g p :
  BotService.matchesConstraints w [BotService.mkConstraint g p]
  = bool_decide (BotService.getPattern g w = p).
Proof. unfold BotService.matchesConstraints. cbn. apply andb_true_r. Qed.

(** What an accepted guess of the bot leaves behind. *)
Lemma onBotGuess_success d t0 t1 t2 t3 t4 reg botInstance s gameId guess
    s' bot' emits a :
  SocketHandlers.onBotGuess d t0 t1 t2 t3 t4 reg botInstance s gameId guess
  = (s', bot', emits, Some a) ->
  exists botId cols,
    GameService.processGuess d t1 t2 t3 t4 s gameId botId guess
    = (s', GameService.Returned (GameService.Success a)) /\
    colors_of (evaluation (GameService.r_guess a)) = Some cols /\
    bot' = BotService.updateBotState botInstance guess
             (Js.join (map SocketHandlers.patternLetter cols)).
Proof.
  unfold SocketHandlers.onBotGuess.
  destruct (Redis.getGameState t0 gameId s) as [[currentGame|?]|]; try discriminate.
  destruct (negb (bool_decide (status currentGame = ACTIVE))); [discriminate|].
  destruct (List.find _ (players currentGame)) as [[botId bot]|]; [|discriminate].
  destruct (bool_decide (botId = "")); [discriminate|].
  destruct (GameService.processGuess d t1 t2 t3 t4 s gameId botId guess)
    as [s1 c] eqn:Hp.
  destruct c as [| | | | [err|result] |]; try discriminate.
  unfold SocketHandlers.opponentGuessPayload.
  destruct (colors_of (evaluation (GameService.r_guess result))) as [cols|] eqn:Hc;
    [|discriminate].
  cbn [mbind option_bind]. cbv zeta.
  intros H. injection H as Hs Hb _ Ha. subst s1 result bot'.
  by exists botId, cols.
Qed.

Lemma evaluation_guessRecordOf now guess game player :
  evaluation (guessRecordOf now guess game player)
  = WordService.evaluateGuess (normalize guess) (targetWord game).
Proof. reflexivity. Qed.

(** The pattern letters of an accepted guess are its pattern against the
    target. *)
Lemma accepted_pattern d t1 t2 t3 t4 s gameId playerId guess s' a game cols :
  GameService.processGuess d t1 t2 t3 t4 s gameId playerId guess
  = (s', GameService.Returned (GameService.Success a)) ->
  Redis.getGameState t1 gameId s = Some (Redis.VGame game) ->
  normalize guess = guess ->
  Js.toUpperCase (targetWord game) = targetWord game ->
  colors_of (evaluation (GameService.r_guess a)) = Some cols ->
  Js.join (map SocketHandlers.patternLetter cols)
  = BotService.getPattern guess (targetWord game).
Proof.
  intros Hp Hg Hn Hu Hc.
  destruct (processGuess_success_inv _ _ _ _ _ _ _ _ _ _ _ Hp)
    as (game' & player & Hg' & _ & _ & Hrec).
  rewrite Hg in Hg'. injection Hg' as <-.
  rewrite Hrec, evaluation_guessRecordOf in Hc.
  pose proof (getPattern_of_colors (normalize guess) (targetWord game) cols Hc) as Hpat.
  rewrite toUpperCase_normalize, Hn, Hu in Hpat. by symmetry.
Qed.

(** X19.  When the bot's guess (upper-case ASCII, as the bot picks them) is
    accepted in [triggerBotGuess], the bot state is updated with that guess
    and the letters of the colours the server computed, which is
    [getPattern] of the guess against the target: one constraint more,
    [guessCount] one higher, and a target that was possible and met the
    constraints before still is and does afterwards. *)
Theorem bot_guess_keeps_target (d : WordService.Dict) (t0 t1 t2 t3 t4 : Z)
    (reg : SocketHandlers.Sockets) (botInstance : BotService.Bot)
    (s : Redis.Store) (gameId guess : string) (game : Game)
    (s' : Redis.Store) (bot' : BotService.Bot) (emits : list Emit)
    (a : GameService.Accepted) :
  SocketHandlers.onBotGuess d t0 t1 t2 t3 t4 reg botInstance s gameId guess
  = (s', bot', emits, Some a) ->
  Redis.getGameState t1 gameId s = Some (Redis.VGame game) ->
  Js.ascii_only guess -> Js.ascii_only (targetWord game) ->
  normalize guess = guess ->
  Js.toUpperCase (targetWord game) = targetWord game ->
  targetWord game ∈ BotService.possibleAnswers botInstance ->
  BotService.matchesConstraints (targetWord game) (BotService.constraints botInstance)
  = true ->
  targetWord game ∈ BotService.possibleAnswers bot' /\
  BotService.matchesConstraints (targetWord game) (BotService.constraints bot') = true /\
  BotService.constraints bot'
  = BotService.constraints botInstance
    ++ [BotService.mkConstraint guess (BotService.getPattern guess (targetWord game))] /\
  BotService.guessCount bot' = BotService.guessCount botInstance + 1.
Proof.
  intros H Hg _ _ Hn Hu Hin Hm.
  destruct (onBotGuess_success _ _ _ _ _ _ _ _ _ _ _ _ _ _ _ H)
    as (botId & cols & Hp & Hc & ->).
  rewrite (accepted_pattern _ _ _ _ _ _ _ _ _ _ _ _ _ Hp Hg Hn Hu Hc).
  destruct (updateBotState_proj botInstance guess
              (BotService.getPattern guess (targetWord game))) as (E1 & E2 & E3).
  rewrite E1, E2, E3.
  assert (Hm' : BotService.matchesConstraints (targetWord game)
                  (BotService.constraints botInstance
                   ++ [BotService.mkConstraint guess
                         (BotService.getPattern guess (targetWord game))]) = true).
  { rewrite matchesConstraints_app, Hm, matchesConstraints_single.
    by rewrite (bool_decide_eq_true_2 _ eq_refl). }
  split; [|split; [exact Hm'|split; reflexivity]].
  unfold BotService.filterPossibleAnswers.
  apply list_elem_of_In, filter_In. split; [by apply list_elem_of_In|exact Hm'].
Qed.

(** X19 at the guess SLATE of a fresh hard bot, target CRANE. *)
Lemma bot_guess_keeps_target_witness :
  "CRANE" ∈ BotService.possibleAnswers
              (SocketHandlers.onBotGuess Scenario.dict 0 1 2 3 4 Scenario.sockets
                 (BotService.createBotInstance Scenario.dict "hard" "CRANE")
                 Scenario.botStore "g1" "SLATE").1.1.2.
Proof.
  set (r := SocketHandlers.onBotGuess Scenario.dict 0 1 2 3 4 Scenario.sockets
              (BotService.createBotInstance Scenario.dict "hard" "CRANE")
              Scenario.botStore "g1" "SLATE").
  assert (Hr : is_Some r.2) by (vm_compute; eauto).
  destruct r as [[[s' bot'] emits] [a|]] eqn:E; [|by destruct Hr as [? [=]]].
  cbn [fst snd].
  apply (bot_guess_keeps_target _ _ _ _ _ _ _ _ _ _ _ Scenario.botGame _ _ _ _ E).
  - vm_compute. reflexivity.
  - unfold Js.ascii_only. repeat constructor.
  - unfold Js.ascii_only. repeat constructor.
  - reflexivity.
  - reflexivity.
  - vm_compute. apply list_elem_of_In. cbn. tauto.
  - reflexivity.
Defined.

(* ------------------------------------------------------------------ *)
(** * simulateGame *)

Lemma simulateLoop_spec d log2 target difficulty fuel :
  forall i bot hist,
    Forall (truthful target) hist ->
    (forall c, c ∈ hist -> BotService.c_pattern c <> "GGGGG") ->
    always (BotService.simulateLoop d log2 fuel i target difficulty bot hist)
           (fun r => forall h, r = Some h ->
              length hist <= length h <= length hist + fuel /\
              (0 < fuel -> length hist < length h) /\
              Forall (truthful target) h /\ stopsAtGreen h).
Proof.
  induction fuel as [|fuel IH]; intros i bot hist Ht Hg.
  - cbn [BotService.simulateLoop]. apply always_ret. intros h [= <-].
    split; [lia|]. split; [lia|]. split; [done|].
    intros j c Hj _. apply Hg. by apply list_elem_of_lookup_2 in Hj.
  - cbn [BotService.simulateLoop].
    eapply always_bind; [apply always_true|]. intros guess _.
    destruct guess as [g| |]; [|apply always_ret; by intros h [=]..].
    assert (Ht' : Forall (truthful target)
                    (hist ++ [BotService.mkConstraint g (BotService.getPattern g target)])).
    { apply Forall_app. split; [done|]. by repeat constructor. }
    case_bool_decide as Hpat.
    + apply always_ret. intros h [= <-]. rewrite length_app. cbn [length].
      split; [lia|]. split; [lia|]. split; [done|].
      intros j c Hj Hlt. rewrite length_app in Hlt. cbn [length] in Hlt.
      rewrite lookup_app_l in Hj by lia.
      apply Hg. by apply list_elem_of_lookup_2 in Hj.
    + eapply always_weaken.
      * apply (IH (i + 1) _ _ Ht'). intros c [Hc| ->%list_elem_of_singleton]%elem_of_app.
        -- by apply Hg.
        -- exact Hpat.
      * cbn beta. intros r Hr h Hh. specialize (Hr h Hh).
        rewrite length_app in Hr. cbn [length] in Hr.
        destruct Hr as (H1 & H2 & H3 & H4). split; [lia|]. split; [lia|]. done.
Qed.

(** X20.  For any difficulty that is not the name of an inherited property,
    a history that [simulateGame] returns has between one and six entries,
    each with the pattern [getPattern] gives for its guess against the
    target, and no entry but the last is GGGGG, whatever [Math.random()]
    returns. *)
Theorem simulateGame_history (d : WordService.Dict) (log2 : Q -> Q)
    (targetWord difficulty : string) :
  difficulty ∉ Js.inherited ->
  always (BotService.simulateGame d log2 targetWord difficulty)
         (fun r => forall history, r = Some history ->
            1 <= length history <= 6 /\
            Forall (truthful targetWord) history /\
            stopsAtGreen history).
Proof.
  intros _. unfold BotService.simulateGame. eapply always_weaken.
  - apply (simulateLoop_spec d log2 targetWord difficulty 6 0 _ []).
    + constructor.
    + intros c Hc. by apply elem_of_nil in Hc.
  - cbn beta. intros r Hr h Hh. specialize (Hr h Hh). cbn [length] in Hr.
    destruct Hr as (H1 & H2 & H3 & H4). split; [lia|]. done.
Qed.

(** X20 for a hard bot and the target CRANE. *)
Lemma simulateGame_history_witness :
  exists history,
    (BotService.simulateGame Scenario.dict (fun _ => 0%Q) "CRANE" "hard"
       Scenario.draws 0%nat).1 = Some history /\
    1 <= length history <= 6.
Proof.
  destruct (BotService.simulateGame Scenario.dict (fun _ => 0%Q) "CRANE" "hard"
              Scenario.draws 0%nat).1 as [history|] eqn:E.
  - exists history. split; [reflexivity|].
    assert (Hd : "hard" ∉ Js.inherited).
    { intros Hin. apply list_elem_of_In in Hin. cbn in Hin.
      repeat (destruct Hin as [Hin|Hin]; [discriminate Hin|]). exact Hin. }
    exact (proj1 (simulateGame_history Scenario.dict (fun _ => 0%Q) "CRANE" "hard" Hd
                    Scenario.draws 0%nat history E)).
  - exfalso. vm_compute in E. discriminate E.
Defined.

(* ------------------------------------------------------------------ *)
(** * The socket registries *)

Lemma socketScan_spec (playerId : string) (l : list (string * string)) :
  forall acc : list string,
    let ids := foldl (fun (ids : list string) (sp : string * string) =>
                        if bool_decide (sp.2 = playerId) && negb (bool_decide (sp.1 ∈ ids))
                        then ids ++ [sp.1] else ids) acc l in
    (NoDup acc -> NoDup ids) /\
    (forall s, s ∈ ids <-> s ∈ acc \/ (s, playerId) ∈ l) /\
    acc `prefix_of` ids.
Proof.
  induction l as [|[s0 p0] l IH]; intros acc; cbn [foldl].
  - split; [done|]. split; [|done]. intros s. split; [by left|].
    intros [H|H]; [done|by apply elem_of_nil in H].
  - cbn [fst snd].
    destruct (decide (p0 = playerId)) as [->|Hp].
    + rewrite (bool_decide_eq_true_2 _ eq_refl). cbn [andb].
      destruct (decide (s0 ∈ acc)) as [Hin|Hin].
      * rewrite (bool_decide_eq_true_2 _ Hin). cbn [negb].
        destruct (IH acc) as (I1 & I2 & I3). split; [done|]. split; [|done].
        intros s. rewrite I2, elem_of_cons. split; [tauto|].
        intros [H|[[= -> ]|H]]; tauto.
      * rewrite (bool_decide_eq_false_2 _ Hin). cbn [negb].
        destruct (IH (acc ++ [s0])) as (I1 & I2 & I3). split; [|split].
        -- intros Hnd. apply I1. apply NoDup_app. split; [done|].
           split; [|apply NoDup_singleton].
           intros x Hx ->%list_elem_of_singleton. done.
        -- intros s. rewrite I2, elem_of_app, list_elem_of_singleton, elem_of_cons.
           split; [intros [[H| ->]|H]; tauto|].
           intros [H|[[= ->]|H]]; tauto.
        -- etrans; [|exact I3]. by apply prefix_app_r.
    + rewrite (bool_decide_eq_false_2 _ Hp). cbn [andb].
      destruct (IH acc) as (I1 & I2 & I3). split; [done|]. split; [|done].
      intros s. rewrite I2, elem_of_cons. split; [tauto|].
      intros [H|[[= _ E]|H]]; [tauto| |tauto]. by destruct Hp.
Qed.

Lemma getPlayerSocketIds_ids (reg : SocketHandlers.Sockets) (playerId : string) :
  NoDup (SocketHandlers.getPlayerSocketIds reg playerId) /\
  (forall s, s ∈ SocketHandlers.getPlayerSocketIds reg playerId <->
     SocketHandlers.playerSockets reg !! playerId = Some s \/
     (s, playerId) ∈ SocketHandlers.socketPlayers reg).
Proof.
  unfold SocketHandlers.getPlayerSocketIds. cbv zeta.
  destruct (SocketHandlers.playerSockets reg !! playerId) as [mapped|].
  - destruct (socketScan_spec playerId (SocketHandlers.socketPlayers reg) [mapped])
      as (H1 & H2 & H3).
    cbv zeta in H1, H2, H3. split; [apply H1, NoDup_singleton|].
    intros s. rewrite H2, list_elem_of_singleton. split.
    + intros [->|H]; [by left|by right].
    + intros [[= ->]|H]; [by left|by right].
  - destruct (socketScan_spec playerId (SocketHandlers.socketPlayers reg) [])
      as (H1 & H2 & H3).
    cbv zeta in H1, H2, H3. split; [apply H1, NoDup_nil_2|].
    intros s. rewrite H2. split.
    + intros [H|H]; [by apply elem_of_nil in H|by right].
    + intros [H|H]; [done|by right].
Qed.

(** X21.  [getPlayerSocketIds] (the socket mapped to the player, if any, not
    being the empty text) returns without duplicates exactly the socket
    mapped to the player in [playerSockets] and the sockets that
    [socketPlayers] gives to the player; the mapped socket comes first. *)
Theorem getPlayerSocketIds_spec (reg : SocketHandlers.Sockets) (playerId : string) :
  SocketHandlers.playerSockets reg !! playerId <> Some "" ->
  let ids := SocketHandlers.getPlayerSocketIds reg playerId in
  NoDup ids /\
  (forall s, s ∈ ids <->
     SocketHandlers.playerSockets reg !! playerId = Some s \/
     (s, playerId) ∈ SocketHandlers.socketPlayers reg) /\
  (forall mapped, SocketHandlers.playerSockets reg !! playerId = Some mapped ->
     head ids = Some mapped).
Proof.
  intros _ ids. destruct (getPlayerSocketIds_ids reg playerId) as [H1 H2].
  split; [exact H1|]. split; [exact H2|].
  intros mapped Hm. subst ids. unfold SocketHandlers.getPlayerSocketIds. cbv zeta.
  rewrite Hm.
  destruct (socketScan_spec playerId (SocketHandlers.socketPlayers reg) [mapped])
    as (_ & _ & H3).
  cbv zeta in H3. by destruct H3 as [k ->].
Qed.

(** X21 for [p1] in the two-player registry. *)
Lemma getPlayerSocketIds_spec_witness :
  NoDup (SocketHandlers.getPlayerSocketIds Scenario.registry "p1") /\
  head (SocketHandlers.getPlayerSocketIds Scenario.registry "p1") = Some "sock-1".
Proof.
  assert (H : SocketHandlers.playerSockets Scenario.registry !! "p1" <> Some "").
  { vm_compute. discriminate. }
  destruct (getPlayerSocketIds_spec Scenario.registry "p1" H) as (H1 & _ & H3).
  split; [exact H1|]. apply H3. vm_compute. reflexivity.
Defined.

Lemma mapSet_elem k v m : (k, v) ∈ SocketHandlers.mapSet k v m.
Proof.
  induction m as [|[k' v'] m IH]; cbn; [apply list_elem_of_here|].
  destruct (decide (k' = k)) as [->|]; [apply list_elem_of_here|].
  by apply list_elem_of_further.
Qed.

Lemma mapGet_mapSet k v m : SocketHandlers.mapGet k (SocketHandlers.mapSet k v m) = Some v.
Proof.
  induction m as [|[k' v'] m IH]; cbn; [by rewrite decide_True|].
  destruct (decide (k' = k)) as [->|Hne]; cbn.
  - by rewrite decide_True.
  - by rewrite decide_False.
Qed.

Lemma mapGet_mapSet_ne k k' v m :
  k <> k' ->
  SocketHandlers.mapGet k' (SocketHandlers.mapSet k v m) = SocketHandlers.mapGet k' m.
Proof.
  intros Hne. induction m as [|[k0 v0] m IH]; cbn; [by rewrite decide_False|].
  destruct (decide (k0 = k)) as [->|H0]; cbn.
  - by rewrite !decide_False.
  - destruct (decide (k0 = k')); [done|exact IH].
Qed.

Lemma mapDelete_elem k k' v m :
  (k', v) ∈ SocketHandlers.mapDelete k m <-> (k', v) ∈ m /\ k' <> k.
Proof.
  unfold SocketHandlers.mapDelete.
  rewrite list_elem_of_In, filter_In, <- list_elem_of_In. cbn.
  rewrite negb_true_iff, bool_decide_eq_false. done.
Qed.

(** X22.  A player registers on one socket, registers again on another, and
    then the first socket disconnects: the [disconnect] handler deletes the
    player's entry of [playerSockets] although it points to the new socket,
    and [getPlayerSocketIds] still finds the new socket, and not the old
    one, through its scan of [socketPlayers]. *)
Theorem reconnect_keeps_player_reachable (reg : SocketHandlers.Sockets)
    (playerId oldSocket newSocket : string) :
  playerId <> "" -> oldSocket <> newSocket ->
  let reg' :=
    SocketHandlers.onDisconnect
      (SocketHandlers.onRegister
         (SocketHandlers.onRegister reg oldSocket (Some playerId))
         newSocket (Some playerId))
      oldSocket in
  SocketHandlers.playerSockets reg' !! playerId = None /\
  newSocket ∈ SocketHandlers.getPlayerSocketIds reg' playerId /\
  oldSocket ∉ SocketHandlers.getPlayerSocketIds reg' playerId.
Proof.
  intros Hp Hs reg'.
  assert (E : reg' = SocketHandlers.mkSockets
                (delete playerId
                   (<[playerId := newSocket]>
                      (<[playerId := oldSocket]> (SocketHandlers.playerSockets reg))))
                (SocketHandlers.mapDelete oldSocket
                   (SocketHandlers.mapSet newSocket playerId
                      (SocketHandlers.mapSet oldSocket playerId
                         (SocketHandlers.socketPlayers reg))))).
  { subst reg'. unfold SocketHandlers.onRegister.
    rewrite (bool_decide_eq_false_2 _ Hp).
    cbn [SocketHandlers.playerSockets SocketHandlers.socketPlayers].
    unfold SocketHandlers.onDisconnect.
    cbn [SocketHandlers.playerSockets SocketHandlers.socketPlayers].
    rewrite mapGet_mapSet_ne by done. rewrite mapGet_mapSet.
    by rewrite (bool_decide_eq_false_2 _ Hp). }
  destruct (getPlayerSocketIds_ids reg' playerId) as (_ & Hmem).
  assert (Hnone : SocketHandlers.playerSockets reg' !! playerId = None).
  { rewrite E. cbn [SocketHandlers.playerSockets]. apply lookup_delete_eq. }
  split; [exact Hnone|]. split.
  - apply Hmem. right. rewrite E. cbn [SocketHandlers.socketPlayers].
    apply mapDelete_elem. split; [apply mapSet_elem|done].
  - intros Hin. apply Hmem in Hin as [Hin|Hin]; [congruence|].
    rewrite E in Hin. cbn [SocketHandlers.socketPlayers] in Hin.
    apply mapDelete_elem in Hin as [_ Hin]. done.
Qed.

(** X22 for [p1] moving from sock-1 to sock-9. *)
Lemma reconnect_keeps_player_reachable_witness :
  SocketHandlers.getPlayerSocketIds
    (SocketHandlers.onDisconnect
       (SocketHandlers.onRegister
          (SocketHandlers.onRegister Scenario.registry "sock-1" (Some "p1"))
          "sock-9" (Some "p1"))
       "sock-1") "p1" = ["sock-9"] /\
  "sock-9" ∈ SocketHandlers.getPlayerSocketIds
    (SocketHandlers.onDisconnect
       (SocketHandlers.onRegister
          (SocketHandlers.onRegister Scenario.registry "sock-1" (Some "p1"))
          "sock-9" (Some "p1"))
       "sock-1") "p1".
Proof.
  split; [vm_compute; reflexivity|].
  apply (reconnect_keeps_player_reachable Scenario.registry "p1" "sock-1" "sock-9");
    discriminate.
Defined.

(* ------------------------------------------------------------------ *)
(** * Rejoining a game *)

Lemma opponentGuessJson_redact (r : GuessRecord) :
  SocketHandlers.opponentGuessJson (redactGuess r) = SocketHandlers.opponentGuessJson r.
Proof.
  unfold SocketHandlers.opponentGuessJson, redactGuess.
  cbn [evaluation guessNumber]. by rewrite colors_of_redact.
Qed.

Lemma mapM_opponentGuessJson_redact (gs : list GuessRecord) :
  mapM SocketHandlers.opponentGuessJson (map redactGuess gs)
  = mapM SocketHandlers.opponentGuessJson gs.
Proof.
  induction gs as [|r gs IH]; [done|]. cbn [map mapM].
  by rewrite opponentGuessJson_redact, IH.
Qed.

Lemma opponentOf_redact playerId game :
  GameService.opponentOf playerId (redact playerId game)
  = (if bool_decide
          (default "undefined"
             (List.find (fun k => negb (bool_decide (k = playerId)))
                (map fst (players game))) = playerId)
     then (fun p : Player => p) else redactPlayer)
    <$> GameService.opponentOf playerId game.
Proof.
  unfold GameService.opponentOf, redact. cbn [players].
  by rewrite keys_redact, lookupPlayer_redact.
Qed.

(** X23.  What the [game:rejoin] handler emits and registers depends on the
    stored match only through what the rejoining player may know: it is the
    same when the words and letters of the other players' guesses, the
    replay log and the target are blanked in the store.  In particular
    [game:rejoined] carries no word of the opponent. *)
Theorem rejoin_hides_opponent_words (now : Z) (reg : SocketHandlers.Sockets)
    (socketId playerId : string) (s : Redis.Store) (gameId : string)
    (game : Game) (expiry : Z) :
  SocketHandlers.onGameRejoin now reg socketId (Some playerId)
    (<[Redis.gameKey gameId := Redis.mkEntry (Redis.VGame game) expiry]> s) gameId
  = SocketHandlers.onGameRejoin now reg socketId (Some playerId)
      (<[Redis.gameKey gameId :=
           Redis.mkEntry (Redis.VGame (redact playerId game)) expiry]> s) gameId.
Proof.
  unfold SocketHandlers.onGameRejoin.
  destruct (bool_decide (playerId = "") || bool_decide (gameId = "")); [done|].
  unfold GameService.getGame, Redis.getGameState, Redis.get.
  rewrite !lookup_insert_eq. cbn [Redis.expireAt Redis.value].
  destruct (now <? expiry)%Z; [|done].
  rewrite opponentOf_redact.
  unfold redact at 1 2 3. cbn [players game_id status].
  destruct (negb (bool_decide (status game = ACTIVE))); [done|].
  rewrite lookupPlayer_redact, (bool_decide_eq_true_2 (playerId = playerId) eq_refl).
  destruct (lookupPlayer playerId (players game)) as [me|];
    cbn [fmap option_fmap option_map]; [|done].
  destruct (mapM SocketHandlers.ownGuessJson (guesses me)); [|done].
  destruct (GameService.opponentOf playerId game) as [o|];
    cbn [fmap option_fmap option_map]; [|done].
  destruct (bool_decide (_ = playerId)); [done|].
  cbn [redactPlayer guesses username elo isBot].
  by rewrite mapM_opponentGuessJson_redact.
Qed.

(* ------------------------------------------------------------------ *)
(** * The win lock *)

(** X24.  [acquireWinLock] on a match without a living winner key succeeds.
    For the next sixty seconds [getWinner] returns the player and timestamp
    it stored and every further [acquireWinLock] fails and changes nothing;
    from then on [getWinner] returns [null] and the next [acquireWinLock]
    succeeds again.  The stored match itself is not touched. *)
Theorem win_lock_round_trip (t dateNow : Z) (gameId playerId : string)
    (s : Redis.Store) :
  Redis.getWinner t gameId s = None ->
  exists s',
    Redis.acquireWinLock t gameId playerId dateNow s = (true, s') /\
    (forall t', (t' < t + 60000)%Z ->
       Redis.getWinner t' gameId s'
       = Some (Redis.VWinner (mkWinnerInfo playerId dateNow)) /\
       forall other dateNow',
         Redis.acquireWinLock t' gameId other dateNow' s' = (false, s')) /\
    (forall t', (t + 60000 <= t')%Z ->
       Redis.getWinner t' gameId s' = None /\
       forall other dateNow',
         (Redis.acquireWinLock t' gameId other dateNow' s').1 = true) /\
    (forall t', Redis.getGameState t' gameId s' = Redis.getGameState t' gameId s).
Proof.
  intros H. unfold Redis.acquireWinLock, Redis.set_nx_ex.
  unfold Redis.getWinner in H. rewrite H. eexists. split; [reflexivity|].
  assert (G : forall t',
            Redis.get t' (Redis.winnerKey gameId)
              (<[Redis.winnerKey gameId :=
                   Redis.mkEntry (Redis.VWinner (mkWinnerInfo playerId dateNow))
                     (t + 1000 * 60)]> s)
            = if (t' <? t + 60000)%Z
              then Some (Redis.VWinner (mkWinnerInfo playerId dateNow)) else None).
  { intros t'. unfold Redis.get. rewrite lookup_insert_eq.
    cbn [Redis.expireAt Redis.value].
    by replace (t + 1000 * 60)%Z with (t + 60000)%Z by lia. }
  split; [|split].
  - intros t' Ht. unfold Redis.getWinner. rewrite G.
    apply Z.ltb_lt in Ht. rewrite Ht. done.
  - intros t' Ht. unfold Redis.getWinner. rewrite G.
    apply Z.ltb_ge in Ht. rewrite Ht. done.
  - intros t'. unfold Redis.getGameState, Redis.get.
    rewrite lookup_insert_ne; [done|]. intros E. by apply (keys_differ gameId).
Qed.

(** X24 on the fresh match, read just before and just after the sixty
    seconds. *)
Lemma win_lock_round_trip_witness :
  exists s',
    Redis.acquireWinLock 5 "g1" "p1" 4 Scenario.store = (true, s') /\
    Redis.getWinner 60004 "g1" s' = Some (Redis.VWinner (mkWinnerInfo "p1" 4)) /\
    Redis.getWinner 60005 "g1" s' = None.
Proof.
  destruct (win_lock_round_trip 5 4 "g1" "p1" Scenario.store) as (s' & E & H1 & H2 & _).
  - vm_compute. reflexivity.
  - exists s'. split; [exact E|]. split.
    + apply H1. lia.
    + apply H2. lia.
Defined.

(* ------------------------------------------------------------------ *)
(** * The matchmaking queue *)

Section QueueFacts.

Variable stringify : Redis.QueueData -> string.

Lemma zrem_zinsert x score l :
  Redis.zrem stringify x (Redis.zinsert stringify (score, x) l)
  = Redis.zrem stringify x l.
Proof.
  unfold Redis.zrem. induction l as [|y l IH]; cbn [Redis.zinsert List.filter].
  - cbn. unfold Redis.sameMember. by rewrite (bool_decide_eq_true_2 _ eq_refl).
  - destruct (Redis.zbefore stringify y (score, x)); cbn [List.filter].
    + by rewrite IH.
    + cbn [snd]. unfold Redis.sameMember at 1.
      by rewrite (bool_decide_eq_true_2 _ eq_refl).
Qed.

Lemma zrem_idem x l :
  Redis.zrem stringify x (Redis.zrem stringify x l) = Redis.zrem stringify x l.
Proof.
  unfold Redis.zrem. induction l as [|y l IH]; [done|]. cbn [List.filter].
  destruct (negb (Redis.sameMember stringify y.2 x)) eqn:E; [|exact IH].
  cbn [List.filter]. by rewrite E, IH.
Qed.

Lemma zrem_absent x l :
  Forall (fun y : Z * Redis.QueueData => stringify y.2 <> stringify x) l ->
  Redis.zrem stringify x l = l.
Proof.
  unfold Redis.zrem. induction 1 as [|y l Hy _ IH]; [done|]. cbn [List.filter].
  unfold Redis.sameMember at 1. rewrite (bool_decide_eq_false_2 _ Hy). cbn [negb].
  by rewrite IH.
Qed.

Lemma zinsert_elem x l : x ∈ Redis.zinsert stringify x l.
Proof.
  induction l as [|y l IH]; cbn; [apply list_elem_of_here|].
  destruct (Redis.zbefore stringify y x); [by apply list_elem_of_further|].
  apply list_elem_of_here.
Qed.

(** X25.  [addToMatchmakingQueue] puts the player's record into the queue
    under the rating as score.  A [removeFromMatchmakingQueue] within thirty
    seconds takes exactly that record out again and deletes the player key,
    so a queue that did not hold the record is back as it was; after thirty
    seconds the player key has expired and the removal changes nothing, so
    the record stays in the queue. *)
Theorem queue_add_then_remove (now t t' : Z) (playerId : string) (elo : Z)
    (socketId : string) (m : Redis.Matchmaking) :
  let data := Redis.mkQueueData playerId elo socketId now in
  let m1 := Redis.addToMatchmakingQueue stringify now t playerId elo socketId m in
  let m2 := Redis.removeFromMatchmakingQueue stringify t' playerId m1 in
  (elo, data) ∈ Redis.queue m1 /\
  ((t' < t + 30000)%Z ->
     Redis.queue m2 = Redis.zrem stringify data (Redis.queue m) /\
     Redis.playerKeys m2 !! playerId = None /\
     (Forall (fun y : Z * Redis.QueueData => stringify y.2 <> stringify data)
             (Redis.queue m) ->
      Redis.queue m2 = Redis.queue m)) /\
  ((t + 30000 <= t')%Z -> m2 = m1).
Proof.
  intros data m1 m2.
  assert (E : m2 = if (t' <? t + 30000)%Z
                   then Redis.mkMatchmaking
                          (Redis.zrem stringify data (Redis.queue m1))
                          (delete playerId (Redis.playerKeys m1))
                   else m1).
  { subst m2. unfold Redis.removeFromMatchmakingQueue.
    unfold m1 at 1. unfold Redis.addToMatchmakingQueue at 1.
    cbn [Redis.playerKeys]. rewrite lookup_insert_eq.
    by replace (t + 1000 * 30)%Z with (t + 30000)%Z by lia. }
  assert (Q1 : Redis.queue m1
               = Redis.zinsert stringify (elo, data)
                   (Redis.zrem stringify data (Redis.queue m))) by done.
  split; [rewrite Q1; apply zinsert_elem|]. split.
  - intros Ht. apply Z.ltb_lt in Ht. rewrite Ht in E. rewrite E.
    cbn [Redis.queue Redis.playerKeys].
    rewrite Q1, zrem_zinsert, zrem_idem. split; [done|].
    split; [apply lookup_delete_eq|]. apply zrem_absent.
  - intros Ht. apply Z.ltb_ge in Ht. by rewrite Ht in E.
Qed.

End QueueFacts.

(* ------------------------------------------------------------------ *)
(** * The searched range *)

Lemma min_bounds (a b : Q) :
  (0 <= a)%Q -> (0 <= b)%Q ->
  (0 <= MatchmakingSearch.min a b)%Q /\ (MatchmakingSearch.min a b <= a)%Q /\
  ((a <= b)%Q -> MatchmakingSearch.min a b = a).
Proof.
  intros Ha Hb. unfold MatchmakingSearch.min.
  destruct (Qle_bool a b) eqn:E.
  - split; [done|]. split; [apply Qle_refl|done].
  - split; [done|]. split.
    + apply Qlt_le_weak, Qnot_le_lt. intros H. apply Qle_bool_iff in H. congruence.
    + intros H. apply Qle_bool_iff in H. congruence.
Qed.

Lemma currentRange_bounds (timeout elapsed : Z) :
  (0 < timeout)%Z -> (0 <= elapsed)%Z ->
  (100 <= MatchmakingSearch.currentRange timeout elapsed)%Q /\
  (MatchmakingSearch.currentRange timeout elapsed <= 400)%Q /\
  ((timeout <= elapsed)%Z ->
   (MatchmakingSearch.currentRange timeout elapsed == 400)%Q) /\
  (elapsed = 0%Z -> (MatchmakingSearch.currentRange timeout elapsed == 100)%Q).
Proof.
  intros Ht He. unfold MatchmakingSearch.currentRange. cbv zeta.
  set (a := (MatchmakingSearch.MAX_ELO_RANGE - MatchmakingSearch.INITIAL_ELO_RANGE)%Q).
  set (b := (inject_Z elapsed / inject_Z timeout * a)%Q).
  assert (Ha : (0 <= a)%Q) by (unfold a; done).
  assert (Ht' : (0 < inject_Z timeout)%Q).
  { change 0%Q with (inject_Z 0). by rewrite <- Zlt_Qlt. }
  assert (He' : (0 <= inject_Z elapsed)%Q).
  { change 0%Q with (inject_Z 0). by rewrite <- Zle_Qle. }
  assert (Hq : (0 <= inject_Z elapsed / inject_Z timeout)%Q).
  { apply Qle_shift_div_l; [done|]. by rewrite Qmult_0_l. }
  assert (Hb : (0 <= b)%Q) by (unfold b; by apply Qmult_le_0_compat).
  destruct (min_bounds a b Ha Hb) as (M1 & M2 & M3).
  unfold MatchmakingSearch.INITIAL_ELO_RANGE.
  split; [|split; [|split]].
  - rewrite <- (Qplus_0_r 100) at 1. by apply Qplus_le_r.
  - apply Qle_trans with (100 + a)%Q; [by apply Qplus_le_r|].
    unfold a. by vm_compute.
  - intros Hte. rewrite M3; [unfold a; reflexivity|].
    unfold b. rewrite <- (Qmult_1_l a) at 1.
    apply Qmult_le_compat_r; [|done].
    apply Qle_shift_div_l; [done|]. rewrite Qmult_1_l. by rewrite <- Zle_Qle.
  - intros ->. unfold b.
    assert (E : (MatchmakingSearch.min a (inject_Z 0 / inject_Z timeout * a) == 0)%Q).
    { unfold MatchmakingSearch.min.
      destruct (Qle_bool a (inject_Z 0 / inject_Z timeout * a)) eqn:E.
      - apply Qle_bool_iff in E. apply Qle_antisym; [|done].
        apply Qle_trans with (inject_Z 0 / inject_Z timeout * a)%Q; [exact E|].
        unfold Qdiv. rewrite !Qmult_0_l. apply Qle_refl.
      - unfold Qdiv. rewrite !Qmult_0_l. reflexivity. }
    rewrite E. reflexivity.
Qed.

Lemma findMatch_sound playerId elo range m c :
  Redis.findMatch playerId elo range m = Some c ->
  Redis.q_playerId c <> playerId /\
  exists score, (score, c) ∈ Redis.queue m /\
    (inject_Z elo - range <= inject_Z score)%Q /\
    (inject_Z score <= inject_Z elo + range)%Q.
Proof.
  unfold Redis.findMatch, Redis.zrangebyscore. cbv zeta. intros H.
  apply find_some in H as [Hin Hne].
  apply negb_true_iff, bool_decide_eq_false in Hne. split; [done|].
  apply in_map_iff in Hin as ([score c'] & Hc & Hin). cbn in Hc. subst c'.
  apply filter_In in Hin as [Hin Hr]. cbn [fst] in Hr.
  apply andb_true_iff in Hr as [H1 H2]. apply Qle_bool_iff in H1, H2.
  exists score. split; [by apply list_elem_of_In|done].
Qed.

Lemma findMatch_complete playerId elo range m score c :
  (score, c) ∈ Redis.queue m -> Redis.q_playerId c <> playerId ->
  (inject_Z elo - range <= inject_Z score)%Q ->
  (inject_Z score <= inject_Z elo + range)%Q ->
  is_Some (Redis.findMatch playerId elo range m).
Proof.
  intros Hin Hne H1 H2. unfold Redis.findMatch, Redis.zrangebyscore. cbv zeta.
  match goal with |- is_Some (List.find ?f ?l) => destruct (List.find f l) eqn:E end;
    [by eexists|].
  exfalso. pose proof (find_none _ _ E c) as Hn. cbn beta in Hn.
  rewrite (bool_decide_eq_false_2 _ Hne) in Hn. cbn in Hn.
  assert (Hc : false = true -> False) by discriminate. apply Hc. symmetry. apply Hn.
  apply in_map_iff. exists (score, c). split; [done|].
  apply filter_In. split; [by apply list_elem_of_In|]. cbn [fst].
  apply andb_true_iff. by split; apply Qle_bool_iff.
Qed.

(** X26.  With a positive timeout, a search that did not start in the future
    and ratings within the range of the [elo] column, [tryFindMatch] only
    returns a queued record of another player whose score is within 400
    points of the searcher's rating, within 100 when the player has no
    active search; and it returns some record whenever the queue holds one
    of another player within 100 points. *)
Theorem tryFindMatch_within_range (timeout now : Z) (startTime : option Z)
    (playerId : string) (elo : Z) (m : Redis.Matchmaking) :
  (0 < timeout)%Z ->
  (forall t0, startTime = Some t0 -> (t0 <= now)%Z) ->
  (Z.abs elo <= INTEGER_MAX)%Z ->
  Forall (fun y : Z * Redis.QueueData => (Z.abs y.1 <= INTEGER_MAX)%Z) (Redis.queue m) ->
  (forall c, MatchmakingSearch.tryFindMatch timeout now startTime playerId elo m = Some c ->
     Redis.q_playerId c <> playerId /\
     exists score, (score, c) ∈ Redis.queue m /\
       (Z.abs (score - elo) <= 400)%Z /\
       (startTime = None -> (Z.abs (score - elo) <= 100)%Z)) /\
  (forall score c, (score, c) ∈ Redis.queue m -> Redis.q_playerId c <> playerId ->
     (Z.abs (score - elo) <= 100)%Z ->
     is_Some (MatchmakingSearch.tryFindMatch timeout now startTime playerId elo m)).
Proof.
  intros Ht Hs _ _. unfold MatchmakingSearch.tryFindMatch. cbv zeta.
  set (elapsed := match startTime with Some t0 => (now - t0)%Z | None => 0%Z end).
  assert (He : (0 <= elapsed)%Z).
  { unfold elapsed. destruct startTime as [t0|]; [|lia]. specialize (Hs t0 eq_refl). lia. }
  destruct (currentRange_bounds timeout elapsed Ht He) as (R1 & R2 & _ & R4).
  set (range := MatchmakingSearch.currentRange timeout elapsed) in *.
  split.
  - intros c Hc. apply findMatch_sound in Hc as (Hne & score & Hin & H1 & H2).
    split; [done|]. exists score. split; [done|].
    assert (B : forall k : Z, (range <= inject_Z k)%Q -> (Z.abs (score - elo) <= k)%Z).
    { intros k Hk.
      assert (A1 : (inject_Z (elo - k) <= inject_Z score)%Q).
      { apply Qle_trans with (inject_Z elo - range)%Q; [|exact H1].
        unfold Z.sub. rewrite inject_Z_plus, inject_Z_opp.
        apply Qplus_le_r. by apply Qopp_le_compat. }
      assert (A2 : (inject_Z score <= inject_Z (elo + k))%Q).
      { apply Qle_trans with (inject_Z elo + range)%Q; [exact H2|].
        rewrite inject_Z_plus. by apply Qplus_le_r. }
      rewrite <- Zle_Qle in A1, A2. lia. }
    split; [by apply (B 400%Z)|].
    intros Hnone. apply (B 100%Z).
    unfold range, elapsed. rewrite Hnone.
    destruct (currentRange_bounds timeout 0 Ht ltac:(lia)) as (_ & _ & _ & E).
    rewrite (E eq_refl). apply Qle_refl.
  - intros score c Hin Hne Habs.
    apply (findMatch_complete playerId elo range m score c Hin Hne).
    + apply Qle_trans with (inject_Z (elo - 100)).
      * unfold Z.sub. rewrite inject_Z_plus, inject_Z_opp.
        apply Qplus_le_r. by apply Qopp_le_compat.
      * rewrite <- Zle_Qle. lia.
    + apply Qle_trans with (inject_Z (elo + 100)).
      * rewrite <- Zle_Qle. lia.
      * rewrite inject_Z_plus. by apply Qplus_le_r.
Qed.

(** X26 five seconds into a search at 1200: the record at 1390 is found,
    the one at 900 is not. *)
Lemma tryFindMatch_within_range_witness :
  exists c,
    MatchmakingSearch.tryFindMatch 15000 7000 (Some 2000%Z) "a" 1200
      (Redis.mkMatchmaking
         [(900%Z, Redis.mkQueueData "c" 900 "s3" 1000%Z);
          (1200%Z, Redis.mkQueueData "a" 1200 "s1" 2000%Z);
          (1390%Z, Redis.mkQueueData "b" 1390 "s2" 1500%Z)] ∅) = Some c /\
    Redis.q_playerId c = "b" /\ Redis.q_playerId c <> "a".
Proof.
  destruct (tryFindMatch_within_range 15000 7000 (Some 2000%Z) "a" 1200
    (Redis.mkMatchmaking
       [(900%Z, Redis.mkQueueData "c" 900 "s3" 1000%Z);
        (1200%Z, Redis.mkQueueData "a" 1200 "s1" 2000%Z);
        (1390%Z, Redis.mkQueueData "b" 1390 "s2" 1500%Z)] ∅)) as [H _].
  - lia.
  - intros t0 E. injection E as <-. lia.
  - unfold INTEGER_MAX. lia.
  - cbn [Redis.queue]. unfold INTEGER_MAX. repeat constructor; cbn [fst]; lia.
  - exists (Redis.mkQueueData "b" 1390 "s2" 1500%Z).
    split; [vm_compute; reflexivity|]. split; [reflexivity|].
    apply (H (Redis.mkQueueData "b" 1390 "s2" 1500%Z)). vm_compute. reflexivity.
Defined.
